(** * tailwind-runtime: the class-name resolver of [src/index.ts]

    A shallow embedding of [TailwindRuntime] ([getValue], [toObject],
    [toCSS], [substitute]) and of the helper functions of the module
    ([simplify], [testVariants], [toCamelCase], [toKebabCase],
    [cleanSelector], [collapseRule]), together with the part of the
    ECMAScript library the module calls: strings, regular expressions,
    ordinary objects and Number arithmetic.  The constructor, the theme
    namespaces and [activeBreakpoints] follow, with the proxies they are
    built on, and the test application of [test-app/main.ts], which takes
    the code blocks of the README and writes their results into it.

    Strings are sequences of code units; the embedding keeps the code
    units below 256, so a string is a [list ascii]. *)

From Stdlib Require Import Ascii String List Bool Arith NArith ZArith Lia.
From Stdlib Require Import SpecFloat.
Import ListNotations.

#[local] Open Scope char_scope.
#[local] Open Scope list_scope.
#[local] Open Scope nat_scope.

(* ===================================================================== *)
(** * ECMAScript strings *)
(* ===================================================================== *)

Module JSString.

Definition str := list ascii.

(** A string literal of the source. *)
Definition chars (s : string) : str := list_ascii_of_string s.

Definition str_eqb (a b : str) : bool :=
  if list_eq_dec ascii_dec a b then true else false.

Definition code (c : ascii) : nat := nat_of_ascii c.

Definition inRange (lo hi c : ascii) : bool :=
  (code lo <=? code c) && (code c <=? code hi).

(** WhiteSpace and LineTerminator code units below 256: TAB, LF, VT, FF,
    CR, SP and NBSP.  They are what [\s] matches and what [trim] strips. *)
Definition isWhiteSpace (c : ascii) : bool :=
  let n := code c in
  ((9 <=? n) && (n <=? 13)) || (n =? 32) || (n =? 160).

Definition isDigit (c : ascii) : bool := inRange "0" "9" c.
Definition isLower (c : ascii) : bool := inRange "a" "z" c.
Definition isUpper (c : ascii) : bool := inRange "A" "Z" c.
Definition isWordChar (c : ascii) : bool :=
  isLower c || isUpper c || isDigit c || Ascii.eqb c "_".

Fixpoint dropWhile (p : ascii -> bool) (s : str) : str :=
  match s with
  | c :: t => if p c then dropWhile p t else s
  | [] => []
  end.

Fixpoint takeWhile (p : ascii -> bool) (s : str) : str :=
  match s with
  | c :: t => if p c then c :: takeWhile p t else []
  | [] => []
  end.

(** [String.prototype.trim] *)
Definition trimStart (s : str) : str := dropWhile isWhiteSpace s.
Definition trimEnd (s : str) : str := rev (dropWhile isWhiteSpace (rev s)).
Definition trim (s : str) : str := trimEnd (trimStart s).

(** [String.prototype.startsWith] *)
Fixpoint startsWith (p s : str) : bool :=
  match p, s with
  | [], _ => true
  | a :: p', b :: s' => Ascii.eqb a b && startsWith p' s'
  | _ :: _, [] => false
  end.

(** [String.prototype.split] with a separator of one code unit: the
    substrings between the occurrences of the separator, in order. *)
Fixpoint splitAux (sep : ascii) (s : str) (cur : str) : list str :=
  match s with
  | [] => [rev cur]
  | c :: t => if Ascii.eqb c sep then rev cur :: splitAux sep t []
              else splitAux sep t (c :: cur)
  end.

Definition split (sep : ascii) (s : str) : list str := splitAux sep s [].

(** [Array.prototype.join] *)
Fixpoint join (sep : str) (l : list str) : str :=
  match l with
  | [] => []
  | [a] => a
  | a :: t => a ++ sep ++ join sep t
  end.

(** [Array.prototype.includes] on an array of strings. *)
Definition includes (l : list str) (x : str) : bool := existsb (str_eqb x) l.

(** [Array.prototype.filter(Boolean)] on an array of strings keeps the
    non-empty ones. *)
Definition nonEmpty (s : str) : bool :=
  match s with [] => false | _ => true end.

(** [toUpperCase] / [toLowerCase] on the ASCII letters. *)
Definition toUpper (c : ascii) : ascii :=
  if isLower c then ascii_of_nat (code c - 32) else c.
Definition toLower (c : ascii) : ascii :=
  if isUpper c then ascii_of_nat (code c + 32) else c.

End JSString.
Export JSString.

(* ===================================================================== *)
(** * Completions *)
(* ===================================================================== *)

(** What a call can end in: a value or a thrown error.  [Unmodelled]
    marks the regular-expression syntax the embedding does not interpret
    (see [RegExp.compile]); it is not a behaviour of the program. *)
Inductive jserror : Type :=
| TypeError
| SyntaxError
| Error (message : str).

Inductive completion (A : Type) : Type :=
| Normal (a : A)
| Throw (e : jserror)
| Unmodelled.

Arguments Normal {A} a.
Arguments Throw {A} e.
Arguments Unmodelled {A}.

Definition bind {A B} (c : completion A) (f : A -> completion B) : completion B :=
  match c with
  | Normal a => f a
  | Throw e => Throw e
  | Unmodelled => Unmodelled
  end.

Notation "x <- c ;; k" := (bind c (fun x => k))
  (at level 61, c at next level, right associativity).

Definition raises {A} (c : completion A) : bool :=
  match c with Throw _ => true | _ => false end.

(* ===================================================================== *)
(** * ECMAScript regular expressions *)
(* ===================================================================== *)

(** Patterns are kept as the source writes them and compiled by
    [compile], which follows the pattern grammar of ECMAScript without the
    [u] flag (with the web-compatibility extensions: [\]] and [}] are
    literals, a [{] that opens no quantifier is a literal).  The matcher is
    the backtracking matcher of the language specification, in
    continuation-passing style.

    Not interpreted, and reported as [Unmodelled]: the escapes [\b \B \c
    \x \u \k] and [\0]-[\9] outside a class, [\c \x \u] and digits inside
    one, look-behind and named groups. *)

Module RegExp.

(** One member of a character class. *)
Inductive citem : Type :=
| CChar (c : ascii)
| CRange (lo hi : ascii)
| CDigit (neg : bool)      (* \d \D *)
| CSpace (neg : bool)      (* \s \S *)
| CWord (neg : bool).      (* \w \W *)

Inductive regex : Type :=
| REmpty
| RChar (c : ascii)
| RDot
| RClass (neg : bool) (items : list citem)
| RSeq (r1 r2 : regex)
| RAlt (r1 r2 : regex)
| RQuant (min : nat) (max : option nat) (greedy : bool) (r : regex)
| RGroup (idx : nat) (r : regex)
| RLook (neg : bool) (r : regex)
| RBol
| REol.

Definition citemMatches (i : citem) (c : ascii) : bool :=
  match i with
  | CChar a => Ascii.eqb a c
  | CRange lo hi => inRange lo hi c
  | CDigit neg => xorb neg (isDigit c)
  | CSpace neg => xorb neg (isWhiteSpace c)
  | CWord neg => xorb neg (isWordChar c)
  end.

Definition classMatches (neg : bool) (items : list citem) (c : ascii) : bool :=
  xorb neg (existsb (fun i => citemMatches i c) items).

(** [.] matches every code unit except the line terminators. *)
Definition dotMatches (c : ascii) : bool :=
  negb ((code c =? 10) || (code c =? 13)).

(** ** Compilation of a pattern *)

Definition isSyntaxChar (c : ascii) : bool :=
  existsb (Ascii.eqb c) (chars "^$\.*+?()[]{}|").

Fixpoint digitsValue (acc : nat) (s : str) : nat :=
  match s with
  | c :: t => digitsValue (10 * acc + (code c - 48)) t
  | [] => acc
  end.

(** A braced quantifier [{n}], [{n,}] or [{n,m}] at the head of [s]. *)
Definition parseBraces (s : str) : option (nat * option nat * str) :=
  match s with
  | "{" :: s1 =>
      let d1 := takeWhile isDigit s1 in
      match d1, dropWhile isDigit s1 with
      | [], _ => None
      | _, "}" :: rest => Some (digitsValue 0 d1, Some (digitsValue 0 d1), rest)
      | _, "," :: s2 =>
          let d2 := takeWhile isDigit s2 in
          match d2, dropWhile isDigit s2 with
          | [], "}" :: rest => Some (digitsValue 0 d1, None, rest)
          | _ :: _, "}" :: rest =>
              Some (digitsValue 0 d1, Some (digitsValue 0 d2), rest)
          | _, _ => None
          end
      | _, _ => None
      end
  | _ => None
  end.

(** The quantifier, if any, at the head of [s]: bounds, greediness, rest. *)
Definition parseQuantifier (s : str)
  : option (nat * option nat * bool * str) :=
  let lazy (lo : nat) (hi : option nat) (rest : str) :=
    match rest with
    | "?" :: rest' => Some (lo, hi, false, rest')
    | _ => Some (lo, hi, true, rest)
    end in
  match s with
  | "*" :: rest => lazy 0 None rest
  | "+" :: rest => lazy 1 None rest
  | "?" :: rest => lazy 0 (Some 1) rest
  | "{" :: _ =>
      match parseBraces s with
      | Some (lo, hi, rest) => lazy lo hi rest
      | None => None
      end
  | _ => None
  end.

Definition boundsOk (lo : nat) (hi : option nat) : bool :=
  match hi with Some h => lo <=? h | None => true end.

(** An escape outside a class, after the backslash. *)
Definition parseAtomEscape (s : str) : completion (regex * str) :=
  match s with
  | [] => Throw SyntaxError
  | c :: rest =>
      if Ascii.eqb c "d" then Normal (RClass false [CDigit false], rest)
      else if Ascii.eqb c "D" then Normal (RClass false [CDigit true], rest)
      else if Ascii.eqb c "s" then Normal (RClass false [CSpace false], rest)
      else if Ascii.eqb c "S" then Normal (RClass false [CSpace true], rest)
      else if Ascii.eqb c "w" then Normal (RClass false [CWord false], rest)
      else if Ascii.eqb c "W" then Normal (RClass false [CWord true], rest)
      else if Ascii.eqb c "f" then Normal (RChar (ascii_of_nat 12), rest)
      else if Ascii.eqb c "n" then Normal (RChar (ascii_of_nat 10), rest)
      else if Ascii.eqb c "r" then Normal (RChar (ascii_of_nat 13), rest)
      else if Ascii.eqb c "t" then Normal (RChar (ascii_of_nat 9), rest)
      else if Ascii.eqb c "v" then Normal (RChar (ascii_of_nat 11), rest)
      else if existsb (Ascii.eqb c) (chars "bBcxuk") || isDigit c
      then Unmodelled
      else Normal (RChar c, rest)
  end.

(** One class atom: a code unit or a class escape. *)
Definition parseClassAtom (s : str) : completion (citem * str) :=
  match s with
  | [] => Throw SyntaxError
  | "\" :: [] => Throw SyntaxError
  | "\" :: c :: rest =>
      if Ascii.eqb c "d" then Normal (CDigit false, rest)
      else if Ascii.eqb c "D" then Normal (CDigit true, rest)
      else if Ascii.eqb c "s" then Normal (CSpace false, rest)
      else if Ascii.eqb c "S" then Normal (CSpace true, rest)
      else if Ascii.eqb c "w" then Normal (CWord false, rest)
      else if Ascii.eqb c "W" then Normal (CWord true, rest)
      else if Ascii.eqb c "b" then Normal (CChar (ascii_of_nat 8), rest)
      else if Ascii.eqb c "f" then Normal (CChar (ascii_of_nat 12), rest)
      else if Ascii.eqb c "n" then Normal (CChar (ascii_of_nat 10), rest)
      else if Ascii.eqb c "r" then Normal (CChar (ascii_of_nat 13), rest)
      else if Ascii.eqb c "t" then Normal (CChar (ascii_of_nat 9), rest)
      else if Ascii.eqb c "v" then Normal (CChar (ascii_of_nat 11), rest)
      else if existsb (Ascii.eqb c) (chars "cxuk") || isDigit c
      then Unmodelled
      else Normal (CChar c, rest)
  | c :: rest => Normal (CChar c, rest)
  end.

(** The members of a class up to its closing bracket.  A range whose
    bounds are out of order is a syntax error; a [-] next to a class
    escape stands for itself. *)
Fixpoint parseClassItems (fuel : nat) (s : str) (acc : list citem)
  : completion (list citem * str) :=
  match fuel with
  | 0 => Unmodelled
  | S fuel' =>
      match s with
      | [] => Throw SyntaxError
      | "]" :: rest => Normal (rev acc, rest)
      | _ =>
          a <- parseClassAtom s ;;
          match snd a with
          | "-" :: "]" :: rest => Normal (rev (CChar "-" :: fst a :: acc), rest)
          | "-" :: s2 =>
              b <- parseClassAtom s2 ;;
              match fst a, fst b with
              | CChar lo, CChar hi =>
                  if code lo <=? code hi
                  then parseClassItems fuel' (snd b) (CRange lo hi :: acc)
                  else Throw SyntaxError
              | x, y => parseClassItems fuel' (snd b) (y :: CChar "-" :: x :: acc)
              end
          | s1 => parseClassItems fuel' s1 (fst a :: acc)
          end
      end
  end.

Definition parseClass (s : str) : completion (regex * str) :=
  match s with
  | "^" :: s' =>
      r <- parseClassItems (S (length s')) s' [] ;;
      Normal (RClass true (fst r), snd r)
  | _ =>
      r <- parseClassItems (S (length s)) s [] ;;
      Normal (RClass false (fst r), snd r)
  end.

Fixpoint seqOf (l : list regex) : regex :=
  match l with
  | [] => REmpty
  | r :: t => RSeq r (seqOf t)
  end.

(** What [parseDisjunction] returns: the expression, the rest of the
    pattern (empty, or starting at a closing parenthesis) and the number of
    capturing groups opened so far. *)
Definition parsed : Type := regex * str * nat.

(** Attach the quantifier that follows an atom, if there is one. *)
Definition quantified (atom : regex) (s : str) : completion (regex * str) :=
  match parseQuantifier s with
  | Some (lo, hi, greedy, rest) =>
      if boundsOk lo hi then Normal (RQuant lo hi greedy atom, rest)
      else Throw SyntaxError
  | None => Normal (atom, s)
  end.

(** A term that cannot be quantified must not be followed by a
    quantifier. *)
Definition unquantified (a : regex) (s : str) : completion (regex * str) :=
  match parseQuantifier s with
  | Some _ => Throw SyntaxError
  | None => Normal (a, s)
  end.

(** Disjunction: alternatives separated by [|], each a sequence of terms;
    [acc] holds the terms of the current alternative, last first, and [n]
    counts the groups opened to the left. *)
Fixpoint parseDisjunction (fuel : nat) (s : str) (n : nat) (acc : list regex)
  : completion parsed :=
  match fuel with
  | 0 => Unmodelled
  | S fuel' =>
      match s with
      | [] => Normal (seqOf (rev acc), [], n)
      | c :: s' =>
          if negb (isSyntaxChar c) then
            t <- quantified (RChar c) s' ;;
            parseDisjunction fuel' (snd t) n (fst t :: acc)
          else if Ascii.eqb c ")" then Normal (seqOf (rev acc), s, n)
          else if Ascii.eqb c "|" then
            r <- parseDisjunction fuel' s' n [] ;;
            let '(r2, rest, n2) := r in
            Normal (RAlt (seqOf (rev acc)) r2, rest, n2)
          else if Ascii.eqb c "^" then
            t <- unquantified RBol s' ;;
            parseDisjunction fuel' (snd t) n (fst t :: acc)
          else if Ascii.eqb c "$" then
            t <- unquantified REol s' ;;
            parseDisjunction fuel' (snd t) n (fst t :: acc)
          else if Ascii.eqb c "." then
            t <- quantified RDot s' ;;
            parseDisjunction fuel' (snd t) n (fst t :: acc)
          else if Ascii.eqb c "\" then
            a <- parseAtomEscape s' ;;
            t <- quantified (fst a) (snd a) ;;
            parseDisjunction fuel' (snd t) n (fst t :: acc)
          else if Ascii.eqb c "[" then
            a <- parseClass s' ;;
            t <- quantified (fst a) (snd a) ;;
            parseDisjunction fuel' (snd t) n (fst t :: acc)
          else if Ascii.eqb c "(" then
            let group (wrap : regex -> regex) (body : str) (n0 : nat) :=
              r <- parseDisjunction fuel' body n0 [] ;;
              let '(inner, rest, n1) := r in
              match rest with
              | ")" :: rest' =>
                  t <- quantified (wrap inner) rest' ;;
                  parseDisjunction fuel' (snd t) n1 (fst t :: acc)
              | _ => Throw SyntaxError
              end in
            match s' with
            | "?" :: ":" :: body => group (fun r => r) body n
            | "?" :: "=" :: body => group (RLook false) body n
            | "?" :: "!" :: body => group (RLook true) body n
            | "?" :: "<" :: _ => Unmodelled
            | "?" :: _ => Throw SyntaxError
            | _ => group (RGroup (S n)) s' (S n)
            end
          else if Ascii.eqb c "{" then
            match parseBraces s with
            | Some _ => Throw SyntaxError
            | None =>
                t <- quantified (RChar c) s' ;;
                parseDisjunction fuel' (snd t) n (fst t :: acc)
            end
          else if Ascii.eqb c "]" || Ascii.eqb c "}" then
            t <- quantified (RChar c) s' ;;
            parseDisjunction fuel' (snd t) n (fst t :: acc)
          else Throw SyntaxError
      end
  end.

(** A compiled regular expression: [new RegExp(pattern)] or a literal. *)
Record t : Type := mk {
  expr : regex;
  ngroups : nat
}.

Definition compile (pattern : str) : completion t :=
  r <- parseDisjunction (S (length pattern)) pattern 0 [] ;;
  let '(e, rest, n) := r in
  match rest with
  | [] => Normal (mk e n)
  | _ => Throw SyntaxError
  end.


(** ** Matching *)

(** The state of a match: the input from the current position on, the
    index of that position and the captures made so far. *)
Record mstate : Type := mkState {
  rest : str;
  idx : nat;
  caps : list (nat * str)
}.

Definition continuation : Type := mstate -> option mstate.

Definition advance (x : mstate) : mstate :=
  mkState (tl (rest x)) (S (idx x)) (caps x).

Definition matchChar (p : ascii -> bool) (x : mstate) (k : continuation)
  : option mstate :=
  match rest x with
  | c :: _ => if p c then k (advance x) else None
  | [] => None
  end.

Fixpoint getCap (i : nat) (l : list (nat * str)) : option str :=
  match l with
  | [] => None
  | (j, s) :: t => if i =? j then Some s else getCap i t
  end.

Definition setCap (i : nat) (s : str) (l : list (nat * str)) : list (nat * str) :=
  (i, s) :: filter (fun p => negb (fst p =? i)) l.

(** The capturing groups inside an expression. *)
Fixpoint groupsOf (r : regex) : list nat :=
  match r with
  | RSeq a b | RAlt a b => groupsOf a ++ groupsOf b
  | RQuant _ _ _ a | RLook _ a => groupsOf a
  | RGroup i a => i :: groupsOf a
  | _ => []
  end.

Definition clearCaps (gs : list nat) (l : list (nat * str)) : list (nat * str) :=
  filter (fun p => negb (existsb (Nat.eqb (fst p)) gs)) l.

Definition predMax (m : option nat) : option nat :=
  match m with Some h => Some (pred h) | None => None end.

Definition orElse (a : option mstate) (b : unit -> option mstate) : option mstate :=
  match a with Some z => Some z | None => b tt end.

(** RepeatMatcher: the iterations of a quantified expression whose
    matcher is [m] and whose groups are [gs].  A greedy quantifier tries
    one more iteration before it continues, a lazy one continues first; an
    iteration that is not required and consumes nothing is rejected, so
    [lo] plus the length of the input bounds the number of iterations. *)
Fixpoint repeatMatcher (m : mstate -> continuation -> option mstate)
    (gs : list nat) (greedy : bool) (fuel lo : nat) (hi : option nat)
    (x : mstate) (k : continuation) {struct fuel} : option mstate :=
  match fuel with
  | 0 => None
  | S fuel' =>
      match hi with
      | Some 0 => k x
      | _ =>
          let d := fun y : mstate =>
            if (lo =? 0) && (idx y =? idx x) then None
            else repeatMatcher m gs greedy fuel' (pred lo) (predMax hi) y k in
          let xr := mkState (rest x) (idx x) (clearCaps gs (caps x)) in
          if negb (lo =? 0) then m xr d
          else if greedy then orElse (m xr d) (fun _ => k x)
          else orElse (k x) (fun _ => m xr d)
      end
  end.

(** The matcher of a pattern: [matcher r x k] tries to match [r] at state
    [x] and to continue with [k]; of two alternatives the left one is
    tried first. *)
Fixpoint matcher (r : regex) (x : mstate) (k : continuation) : option mstate :=
  match r with
  | REmpty => k x
  | RChar c => matchChar (Ascii.eqb c) x k
  | RDot => matchChar dotMatches x k
  | RClass neg items => matchChar (classMatches neg items) x k
  | RSeq r1 r2 => matcher r1 x (fun y => matcher r2 y k)
  | RAlt r1 r2 => orElse (matcher r1 x k) (fun _ => matcher r2 x k)
  | RGroup i r1 =>
      matcher r1 x (fun y =>
        k (mkState (rest y) (idx y)
             (setCap i (firstn (idx y - idx x) (rest x)) (caps y))))
  | RLook neg r1 =>
      match matcher r1 x (fun y => Some y) with
      | Some y => if neg then None else k (mkState (rest x) (idx x) (caps y))
      | None => if neg then k x else None
      end
  | RBol => if idx x =? 0 then k x else None
  | REol => match rest x with [] => k x | _ => None end
  | RQuant lo hi greedy r1 =>
      repeatMatcher (matcher r1) (groupsOf r1) greedy
        (S (lo + length (rest x))) lo hi x k
  end.

(** A match: where it starts and ends, the matched text, the captures. *)
Record jsmatch : Type := mkMatch {
  index : nat;
  matched : str;
  captures : list (nat * str)
}.

Definition endIndex (m : jsmatch) : nat := index m + length (matched m).

(** One attempt at position [i], where the input continues with [s]. *)
Definition matchAt (re : t) (i : nat) (s : str) : option jsmatch :=
  match matcher (expr re) (mkState s i []) (fun y => Some y) with
  | Some y => Some (mkMatch i (firstn (idx y - i) s) (caps y))
  | None => None
  end.

(** [RegExp.prototype.exec] without the sticky flag: the first position,
    from the current one on, at which the pattern matches. *)
Fixpoint search (re : t) (i : nat) (s : str) : option jsmatch :=
  match matchAt re i s with
  | Some m => Some m
  | None =>
      match s with
      | [] => None
      | _ :: s' => search re (S i) s'
      end
  end.

Definition exec (re : t) (s : str) : option jsmatch := search re 0 s.

(** The successive matches of a global regular expression, as [matchAll]
    and a global [replace] enumerate them: each search resumes where the
    last match ended, one position further after an empty match.  [skip]
    counts the positions still covered by the last match. *)
Fixpoint scan (re : t) (i : nat) (s : str) (skip : nat) : list jsmatch :=
  match skip with
  | S skip' =>
      match s with
      | [] => []
      | _ :: s' => scan re (S i) s' skip'
      end
  | 0 =>
      match matchAt re i s with
      | Some m =>
          m :: match s with
               | [] => []
               | _ :: s' => scan re (S i) s' (pred (length (matched m)))
               end
      | None =>
          match s with
          | [] => []
          | _ :: s' => scan re (S i) s' 0
          end
      end
  end.

(** [String.prototype.matchAll] with a global regular expression. *)
Definition matchAll (re : t) (s : str) : list jsmatch := scan re 0 s 0.

(** The text of capture [i] of a match; a group that did not take part
    is [undefined]. *)
Definition capture (m : jsmatch) (i : nat) : option str := getCap i (captures m).

(** ** Replacement *)

(** GetSubstitution: the expansion of a replacement template.  [$$] is a
    dollar, [$&] the match, [$`] and [$'] the text before and after it,
    [$n] and [$nn] capture [n] when the expression has that many groups
    (empty when the group did not take part); everything else, a [$<]
    included since no expression here names its groups, stands for
    itself. *)
Fixpoint getSubstitution (fuel : nat) (re : t) (s : str) (m : jsmatch)
    (template : str) : str :=
  match fuel with
  | 0 => []
  | S fuel' =>
      let go := getSubstitution fuel' re s m in
      let capText (i : nat) : str :=
        match capture m i with Some c => c | None => [] end in
      match template with
      | [] => []
      | "$" :: "$" :: t => "$" :: go t
      | "$" :: "`" :: t => firstn (index m) s ++ go t
      | "$" :: "&" :: t => matched m ++ go t
      | "$" :: "'" :: t => skipn (endIndex m) s ++ go t
      | "$" :: d1 :: t =>
          if isDigit d1 then
            let one := code d1 - 48 in
            let single :=
              if (1 <=? one) && (one <=? ngroups re)
              then capText one ++ go t
              else "$" :: d1 :: go t in
            match t with
            | d2 :: t' =>
                if isDigit d2 then
                  let two := 10 * one + (code d2 - 48) in
                  if two <=? ngroups re then
                    if 1 <=? two then capText two ++ go t'
                    else "$" :: d1 :: d2 :: go t'
                  else single
                else single
            | [] => single
            end
          else "$" :: go (d1 :: t)
      | c :: t => c :: go t
      end
  end.

Definition expand (re : t) (s : str) (m : jsmatch) (template : str) : str :=
  getSubstitution (S (length template)) re s m template.

(** [String.prototype.replace] with a regular expression without the
    global flag and a replacement string: the first match is replaced by
    the expansion of the template. *)
Definition replaceFirst (re : t) (s : str) (template : str) : str :=
  match exec re s with
  | Some m =>
      firstn (index m) s ++ expand re s m template ++ skipn (endIndex m) s
  | None => s
  end.

(** The pieces a global replacement is made of: the text between the
    matches is kept and each match is replaced by [f] of it. *)
Fixpoint replacePieces (f : jsmatch -> str) (s : str) (pos : nat)
    (ms : list jsmatch) : str :=
  match ms with
  | [] => skipn pos s
  | m :: ms' =>
      firstn (index m - pos) (skipn pos s) ++ f m ++
      replacePieces f s (endIndex m) ms'
  end.

(** [String.prototype.replace] with a global regular expression and a
    replacement function. *)
Definition replaceAll (re : t) (s : str) (f : jsmatch -> str) : str :=
  replacePieces f s 0 (matchAll re s).

(** ** Splitting *)

(** [String.prototype.split] with a regular expression that has no
    capturing group: the input is cut at every match found by trying the
    positions from left to right, except at an empty match right where the
    current piece starts; no match is tried at the end of the input.
    [cur] holds the current piece, last code unit first. *)
Fixpoint splitScan (re : t) (i : nat) (s : str) (cur : str) (skip : nat)
  : list str :=
  match s with
  | [] => [rev cur]
  | c :: s' =>
      match skip with
      | S skip' => splitScan re (S i) s' cur skip'
      | 0 =>
          match matchAt re i s with
          | Some m =>
              match length (matched m), cur with
              | 0, [] => splitScan re (S i) s' [c] 0
              | 0, _ => rev cur :: splitScan re (S i) s' [c] 0
              | S n, _ => rev cur :: splitScan re (S i) s' [] n
              end
          | None => splitScan re (S i) s' (c :: cur) 0
          end
      end
  end.

Definition split (re : t) (s : str) : list str :=
  match s with
  | [] => match matchAt re 0 [] with Some _ => [] | None => [[]] end
  | _ => splitScan re 0 s [] 0
  end.

End RegExp.

(* ===================================================================== *)
(** * ECMAScript numbers *)
(* ===================================================================== *)

(** Numbers are the binary64 values of IEEE 754, in the executable
    specification of the Standard Library ([SpecFloat]); the product is
    its [SFmul], a decimal literal is rounded to the nearest value, ties
    to even, and [toString] prints the shortest decimal that reads back as
    the same value. *)

Module Number.

#[local] Open Scope Z_scope.

Definition prec : Z := 53.
Definition emax : Z := 1024.

Definition number : Type := spec_float.

Definition NaN : number := S754_nan.

(** The value nearest to the ratio of two positive integers. *)
Definition ofRatio (neg : bool) (p q : positive) : number :=
  let '(m, e, l) := SFdiv_core_binary prec emax (Zpos p) 0 (Zpos q) 0 in
  binary_round_aux prec emax neg m e l.

(** The value nearest to [digits * 10 ^ exp10]. *)
Definition ofDecimal (neg : bool) (digits : Z) (exp10 : Z) : number :=
  match digits with
  | Zpos d =>
      match exp10 with
      | Zneg k => ofRatio neg d (Pos.pow 10 k)
      | Zpos k => ofRatio neg (d * Pos.pow 10 k) 1
      | Z0 => ofRatio neg d 1
      end
  | _ => S754_zero neg
  end.

Definition mul (x y : number) : number := SFmul prec emax x y.

Definition eqb (x y : number) : bool :=
  match x, y with
  | S754_zero a, S754_zero b | S754_infinity a, S754_infinity b => Bool.eqb a b
  | S754_finite a m e, S754_finite b n f =>
      Bool.eqb a b && Pos.eqb m n && Z.eqb e f
  | _, _ => false
  end.

Fixpoint digitsZ (acc : Z) (s : str) : Z :=
  match s with
  | c :: t => digitsZ (10 * acc + Z.of_nat (code c - 48)) t
  | [] => acc
  end.

(** The exponent part [e], [e+] or [e-] followed by digits, if the
    string starts with one. *)
Definition exponentPart (s : str) : Z :=
  let value (neg : bool) (t : str) : Z :=
    match takeWhile isDigit t with
    | [] => 0
    | ds => if neg then - digitsZ 0 ds else digitsZ 0 ds
    end in
  match s with
  | c :: t =>
      if Ascii.eqb c "e" || Ascii.eqb c "E" then
        match t with
        | "+"%char :: t' => value false t'
        | "-"%char :: t' => value true t'
        | _ => value false t
        end
      else 0
  | [] => 0
  end.

(** [parseFloat]: the value of the longest prefix of the trimmed string
    that is a decimal literal, and [NaN] when there is none. *)
Definition parseFloat (input : str) : number :=
  let s := trimStart input in
  let '(neg, s) :=
    match s with
    | "-"%char :: t => (true, t)
    | "+"%char :: t => (false, t)
    | _ => (false, s)
    end in
  if startsWith (chars "Infinity") s then S754_infinity neg
  else
    let int := takeWhile isDigit s in
    let s1 := dropWhile isDigit s in
    let '(frac, s2) :=
      match s1 with
      | "."%char :: t => (takeWhile isDigit t, dropWhile isDigit t)
      | _ => ([], s1)
      end in
    match int ++ frac with
    | [] => NaN
    | ds => ofDecimal neg (digitsZ 0 ds)
              (exponentPart s2 - Z.of_nat (length frac))
    end.

(** The decimal digits of a positive integer. *)
Fixpoint digitsOf (fuel : nat) (n : Z) (acc : str) : str :=
  match fuel with
  | O => acc
  | S fuel' =>
      let acc' := ascii_of_nat (48 + Z.to_nat (n mod 10)) :: acc in
      if n <? 10 then acc' else digitsOf fuel' (n / 10) acc'
  end.

Definition decimal (n : Z) : str := digitsOf (S (Z.to_nat (Z.log2 n))) n [].

(** The least [n] with [m * 2 ^ e < 10 ^ n], for a positive [m]. *)
Fixpoint magnitudeFrom (fuel : nat) (m e : Z) (n : Z) : Z :=
  match fuel with
  | O => n
  | S fuel' =>
      let below :=
        if 0 <=? e
        then (if 0 <=? n then m * 2 ^ e <? 10 ^ n else false)
        else (if 0 <=? n then m <? 10 ^ n * 2 ^ (- e)
              else m * 10 ^ (- n) <? 2 ^ (- e)) in
      if below then n else magnitudeFrom fuel' m e (n + 1)
  end.

Definition magnitude (m e : Z) : Z := magnitudeFrom 700 m e (-330).

(** [floor (m * 2 ^ e / 10 ^ t)] *)
Definition scaledFloor (m e t : Z) : Z :=
  let num := m * (if 0 <=? e then 2 ^ e else 1) * (if t <? 0 then 10 ^ (- t) else 1) in
  let den := (if 0 <=? e then 1 else 2 ^ (- e)) * (if t <? 0 then 1 else 10 ^ t) in
  num / den.

(** Which of [s * 10 ^ t] and [(s + 1) * 10 ^ t] is nearer to [m * 2 ^ e]. *)
Definition nearerLow (m e s t : Z) : comparison :=
  let num := m * (if 0 <=? e then 2 ^ e else 1) * (if t <? 0 then 10 ^ (- t) else 1) in
  let den := (if 0 <=? e then 1 else 2 ^ (- e)) * (if t <? 0 then 1 else 10 ^ t) in
  (2 * (num - s * den)) ?= den.

(** The shortest digit string [s], with its exponent [t], such that
    [s * 10 ^ t] reads back as [x = m * 2 ^ e]; among the candidates of
    that length the nearest to [x], the even one in a tie. *)
Fixpoint shortest (fuel : nat) (x : number) (m e n : Z) (k : Z) : Z * Z :=
  let t := n - k in
  let lo := scaledFloor m e t in
  let okLo := eqb (ofDecimal false lo t) x in
  let okHi := eqb (ofDecimal false (lo + 1) t) x in
  let pick :=
    match okLo, okHi with
    | true, true =>
        match nearerLow m e lo t with
        | Lt => Some lo
        | Gt => Some (lo + 1)
        | Eq => Some (if Z.even lo then lo else lo + 1)
        end
    | true, false => Some lo
    | false, true => Some (lo + 1)
    | false, false => None
    end in
  match pick, fuel with
  | Some s, _ => (s, t)
  | None, S fuel' => shortest fuel' x m e n (k + 1)
  | None, O => (lo, t)
  end.

Fixpoint stripZeros (fuel : nat) (s t : Z) : Z * Z :=
  match fuel with
  | S fuel' => if (s mod 10 =? 0) && (0 <? s) then stripZeros fuel' (s / 10) (t + 1)
               else (s, t)
  | O => (s, t)
  end.

Definition zeros (n : Z) : str := repeat "0"%char (Z.to_nat n).

(** Number::toString in radix 10 for a positive finite value with digits
    [ds] and [n] digits before the decimal point. *)
Definition layout (ds : str) (n : Z) : str :=
  let k := Z.of_nat (length ds) in
  if (k <=? n) && (n <=? 21) then ds ++ zeros (n - k)
  else if (0 <? n) && (n <=? 21)
  then firstn (Z.to_nat n) ds ++ "."%char :: skipn (Z.to_nat n) ds
  else if (-6 <? n) && (n <=? 0)
  then "0"%char :: "."%char :: zeros (- n) ++ ds
  else
    let ex := n - 1 in
    let exs := (if ex <? 0 then "-"%char else "+"%char) :: decimal (Z.abs ex) in
    match ds with
    | [d] => d :: "e"%char :: exs
    | d :: more => d :: "."%char :: more ++ "e"%char :: exs
    | [] => []
    end.

Definition toString (x : number) : str :=
  match x with
  | S754_nan => chars "NaN"
  | S754_zero _ => chars "0"
  | S754_infinity neg =>
      (if neg then chars "-" else []) ++ chars "Infinity"
  | S754_finite neg m e =>
      let pos := S754_finite false m e in
      let n := magnitude (Zpos m) e in
      let '(s, t) := shortest 17 pos (Zpos m) e n 1 in
      let '(s, t) := stripZeros 400 s t in
      let ds := decimal s in
      (if neg then chars "-" else []) ++ layout ds (t + Z.of_nat (length ds))
  end.

End Number.

(* ===================================================================== *)
(** * ECMAScript objects used as records of strings *)
(* ===================================================================== *)

(** The style object of [toObject] is an ordinary object created by [{}].
    Its own properties are kept in creation order; a property holds a
    string or, when [collapseRule] found no value, [undefined]. *)

Module JSObject.

Inductive value : Type :=
| VUndefined
| VString (s : str).

Definition obj : Type := list (str * value).

Definition empty : obj := [].

Fixpoint lookup (o : obj) (k : str) : option value :=
  match o with
  | [] => None
  | (k', v) :: t => if str_eqb k' k then Some v else lookup t k
  end.

(** [o[k]] for a key that [Object.prototype] does not define (every key
    read by the program starts with two dashes). *)
Definition get (o : obj) (k : str) : value :=
  match lookup o k with Some v => v | None => VUndefined end.

Fixpoint update (o : obj) (k : str) (v : value) : obj :=
  match o with
  | [] => [(k, v)]
  | (k', v') :: t => if str_eqb k' k then (k', v) :: t else (k', v') :: update t k v
  end.

(** [o[k] = v].  An existing property keeps its place, a new one is added
    last.  The key [__proto__] is the accessor of [Object.prototype], whose
    setter ignores a value that is not an object: nothing is stored. *)
Definition set (o : obj) (k : str) (v : value) : obj :=
  if str_eqb k (chars "__proto__") then o else update o k v.

(** [delete o[k]] *)
Definition delete (o : obj) (k : str) : obj :=
  filter (fun p => negb (str_eqb (fst p) k)) o.

(** An array index: the canonical decimal form of an integer below
    [2^32 - 1]. *)
Definition arrayIndex (k : str) : option N :=
  match k with
  | [] => None
  | c :: t =>
      if forallb isDigit k && (negb (Ascii.eqb c "0") || negb (nonEmpty t))
         && (length k <=? 10)
      then
        let n := fold_left (fun a d => (10 * a + N.of_nat (code d - 48))%N) k 0%N in
        if (n <? 4294967295)%N then Some n else None
      else None
  end.

Fixpoint insertByIndex (e : N * (str * value)) (l : list (N * (str * value)))
  : list (N * (str * value)) :=
  match l with
  | [] => [e]
  | h :: t => if (fst e <? fst h)%N then e :: l else h :: insertByIndex e t
  end.

Fixpoint indexed (o : obj) : list (N * (str * value)) :=
  match o with
  | [] => []
  | (k, v) :: t =>
      match arrayIndex k with
      | Some n => insertByIndex (n, (k, v)) (indexed t)
      | None => indexed t
      end
  end.

Definition named (o : obj) : obj :=
  filter (fun p => match arrayIndex (fst p) with Some _ => false | None => true end) o.

(** [Object.entries]: the array indices in ascending order, then the
    other keys in creation order. *)
Definition entries (o : obj) : list (str * value) :=
  map snd (indexed o) ++ named o.

(** [Object.keys] *)
Definition keys (o : obj) : list str := map fst (entries o).

End JSObject.

(* ===================================================================== *)
(** * The CSS object model the runtime reads *)
(* ===================================================================== *)

Module CSSOM.

(** A declaration block, through the two members the program uses. *)
Record CSSStyleDeclaration : Type := {
  cssText : str;
  getPropertyValue : str -> str
}.

(** The rules of a style sheet.  [CSSStyleRule], [CSSLayerBlockRule] and
    the other grouping rules have a [cssRules] member; [CSSStyleRule] and
    [CSSNestedDeclarations] have the [style] that [collapseRule] reads. *)
#[warnings="-register-all"]
Inductive CSSRule : Type :=
| CSSStyleRule (selectorText : str) (style : CSSStyleDeclaration)
    (cssRules : list CSSRule)
| CSSNestedDeclarations (style : CSSStyleDeclaration)
| CSSLayerBlockRule (name : str) (cssRules : list CSSRule)
| CSSGroupingRule (cssRules : list CSSRule)
| CSSPropertyRule (name : str) (inherits : bool) (initialValue : option str)
| CSSOtherRule.

(** [CSSStyleSheet]: its [cssRules]. *)
Definition CSSStyleSheet : Type := list CSSRule.

End CSSOM.

(* ===================================================================== *)
(** * [src/index.ts] *)
(* ===================================================================== *)

Module Tailwind.

Import CSSOM.
Import JSObject.

(** The regular-expression literals of the module. *)
Definition literal (pattern : string) : RegExp.t :=
  match RegExp.compile (chars pattern) with
  | Normal re => re
  | _ => RegExp.mk RegExp.REmpty 0
  end.

Definition varReference : RegExp.t := Eval vm_compute in literal "var\((--[^),]+),?\)".
Definition calcProduct : RegExp.t :=
  Eval vm_compute in literal "calc\(([\d.]+)([a-z]+) \* ([\d.]+)\)".
Definition variantColon : RegExp.t := Eval vm_compute in literal "\:(?![^\[]*\])".
Definition dashLetter : RegExp.t := Eval vm_compute in literal "-([a-z])".
Definition upperLetter : RegExp.t := Eval vm_compute in literal "[A-Z]".
Definition backslash : RegExp.t := Eval vm_compute in literal "\\".

(** ** Utility functions *)

(** A captured substring passed to a replacement function, converted to
    a string as a template literal or [parseFloat] does. *)
Definition captured (m : RegExp.jsmatch) (i : nat) : str :=
  match RegExp.capture m i with
  | Some s => s
  | None => chars "undefined"
  end.

(** [simplify]: every [calc(<number><unit> * <number>)] becomes the
    product followed by the unit. *)
Definition simplify (cssValue : str) : str :=
  RegExp.replaceAll calcProduct cssValue (fun m =>
    let a := captured m 1 in
    let unit := captured m 2 in
    let b := captured m 3 in
    Number.toString (Number.mul (Number.parseFloat a) (Number.parseFloat b))
      ++ unit).

(** ['cssRules' in r] *)
Definition isGroupRule (r : CSSRule) : bool :=
  match r with
  | CSSStyleRule _ _ _ | CSSLayerBlockRule _ _ | CSSGroupingRule _ => true
  | _ => false
  end.

Definition isStyleRule (r : CSSRule) : bool :=
  match r with
  | CSSStyleRule _ _ _ | CSSNestedDeclarations _ => true
  | _ => false
  end.

(** The variant chain of a class name: the pieces between the colons that
    are not followed by a closing bracket with no opening bracket in
    between, without the last piece. *)
Definition variantsOf (className : str) : list str :=
  removelast (RegExp.split variantColon className).

(** [testVariants] *)
Definition testVariants (className : str) (state : list str) (strict : bool) : bool :=
  let parts := variantsOf className in
  if strict && negb (length parts =? length state) then false
  else forallb (fun variant => includes state variant) parts.

Definition toCamelCase (name : str) : str :=
  RegExp.replaceAll dashLetter name (fun m => map toUpper (captured m 1)).

Definition toKebabCase (name : str) : str :=
  RegExp.replaceAll upperLetter name (fun m =>
    "-" :: map toLower (RegExp.matched m)).

(** [cleanSelector]: the selector without its backslashes and without
    its first code unit. *)
Definition cleanSelector (selector : str) : str :=
  tl (RegExp.replaceAll backslash selector (fun _ => [])).

(** One declaration of a [cssText]: [part.split(':').map(trim)] gives the
    key and, when there is a colon, the value. *)
Definition declaration (part : str) : str * value :=
  match map trim (JSString.split ":" part) with
  | key :: v :: _ => (key, VString v)
  | key :: [] => (key, VUndefined)
  | [] => ([], VUndefined)
  end.

Definition storeDeclaration (target : obj) (part : str) : obj :=
  let '(key, v) := declaration part in
  let key := if startsWith (chars "--") key then key else toCamelCase key in
  set target key v.

(** The declarations of a [style] written into [target], in order. *)
Definition collapseStyle (style : CSSStyleDeclaration) (target : obj) : obj :=
  let lines := filter nonEmpty (JSString.split ";" (cssText style)) in
  fold_left storeDeclaration lines target.

(** [collapseRule]: when the rule is a grouping rule, its nested rules
    are collapsed one after the other (an empty [cssRules] gives nothing to
    do); then, when it is a style rule, its own declarations are written. *)
Fixpoint collapseRule (rule : CSSRule) (target : obj) : obj :=
  let each :=
    fix each (cssRules : list CSSRule) (target : obj) : obj :=
      match cssRules with
      | [] => target
      | subRule :: rest => each rest (collapseRule subRule target)
      end in
  let target :=
    if isGroupRule rule then
      match rule with
      | CSSStyleRule _ _ cssRules | CSSLayerBlockRule _ cssRules
      | CSSGroupingRule cssRules => each cssRules target
      | _ => target
      end
    else target in
  if isStyleRule rule then
    match rule with
    | CSSStyleRule _ style _ | CSSNestedDeclarations style =>
        collapseStyle style target
    | _ => target
    end
  else target.

(** ** [class TailwindRuntime] *)

Record TailwindRuntime : Type := {
  tailwind : CSSStyleSheet;
  themeDeclaration : option CSSStyleDeclaration;
  utilitiesLayer : option CSSRule
}.

Section Methods.

Variable this : TailwindRuntime.

(** The properties of a [CSSPropertyRule]. *)
Record PropertyRule : Type := {
  prop_name : str;
  prop_inherits : bool;
  prop_initialValue : option str
}.

Fixpoint findPropertyRuleIn (rules : list CSSRule) (name : str) : option PropertyRule :=
  match rules with
  | [] => None
  | CSSPropertyRule n i v :: rest =>
      if str_eqb n name then Some (Build_PropertyRule n i v)
      else findPropertyRuleIn rest name
  | _ :: rest => findPropertyRuleIn rest name
  end.

Definition findPropertyRule (name : str) : option PropertyRule :=
  findPropertyRuleIn (tailwind this) name.

(** [allUtilityRules]: the style rules of the utilities layer. *)
Definition allUtilityRules : list CSSRule :=
  match utilitiesLayer this with
  | Some (CSSStyleRule _ _ rules) | Some (CSSLayerBlockRule _ rules)
  | Some (CSSGroupingRule rules) =>
      filter (fun r => match r with CSSStyleRule _ _ _ => true | _ => false end) rules
  | _ => []
  end.

Definition selectorTextOf (r : CSSRule) : str :=
  match r with CSSStyleRule s _ _ => s | _ => [] end.

(** [findUtilityRule] *)
Definition findUtilityRule (name : str) : option CSSRule :=
  find (fun utility => str_eqb (cleanSelector (selectorTextOf utility)) name)
       allUtilityRules.

(** The message of the error of [getValue]; code unit 34 is the double
    quote. *)
Definition mustStartWithDashes : str :=
  chars "CSS variable name must start with " ++
  ascii_of_nat 34 :: chars "--" ++ [ascii_of_nat 34].

(** What [getValue] returns: a string, [null] (a registered property
    without initial value) or [undefined]. *)
Inductive lookupResult : Type :=
| Found (s : str)
| Null
| Undefined.

(** [getValue].  The method assigns nothing; the runtime it was called on
    is returned next to the completion to say so. *)
Definition getValue (name : str) : completion lookupResult * TailwindRuntime :=
  if negb (startsWith (chars "--") name)
  then (Throw (Error mustStartWithDashes), this)
  else
    let fromTheme :=
      match themeDeclaration this with
      | Some decl => getPropertyValue decl name
      | None => []
      end in
    if nonEmpty fromTheme then (Normal (Found fromTheme), this)
    else
      match findPropertyRule name with
      | Some prop =>
          if negb (prop_inherits prop) && str_eqb (prop_name prop) name
          then (Normal (match prop_initialValue prop with
                        | Some v => Found v
                        | None => Null
                        end), this)
          else (Normal Undefined, this)
      | None => (Normal Undefined, this)
      end.

(** The pattern handed to [new RegExp]: the name of the variable after
    the escaped opening of the reference, then an optional comma, the
    escaped closing parenthesis and a group of white space. *)
Definition referencePattern (varName : str) : str :=
  chars "var\(" ++ varName ++ chars ",?\)(\s*)".

(** [style[varName] ?? this.getValue(varName)] *)
Definition resolve (style : obj) (varName : str) : completion lookupResult :=
  match get style varName with
  | VString s => Normal (Found s)
  | VUndefined => fst (getValue varName)
  end.

(** The body of the inner loop of [substitute], for one match. *)
Definition substituteReference (style : obj) (value : str) (m : RegExp.jsmatch)
  : completion str :=
  let varName := captured m 1 in
  resolved <- resolve style varName ;;
  match resolved with
  | Undefined => Normal value
  | Found [] | Null =>
      regex <- RegExp.compile (referencePattern varName) ;;
      Normal (RegExp.replaceFirst regex value [])
  | Found r =>
      regex <- RegExp.compile (referencePattern varName) ;;
      Normal (RegExp.replaceFirst regex value (r ++ chars "$1"))
  end.

Fixpoint substituteReferences (style : obj) (value : str)
    (ms : list RegExp.jsmatch) : completion str :=
  match ms with
  | [] => Normal value
  | m :: ms' =>
      value' <- substituteReference style value m ;;
      substituteReferences style value' ms'
  end.

(** The first loop of [substitute], over the entries the object had when
    the loop started; reading [matchAll] of a value that is [undefined]
    is a [TypeError]. *)
Fixpoint substituteEntries (es : list (str * value)) (style : obj)
  : completion obj :=
  match es with
  | [] => Normal style
  | (key, VUndefined) :: _ => Throw TypeError
  | (key, VString value) :: es' =>
      value' <- substituteReferences style value
                  (RegExp.matchAll varReference value) ;;
      substituteEntries es' (set style key (VString (trim value')))
  end.

(** The second loop of [substitute]: the keys of registered properties
    that do not inherit are deleted. *)
Definition pruneKey (style : obj) (key : str) : obj :=
  match findPropertyRule key with
  | Some prop => if negb (prop_inherits prop) then delete style key else style
  | None => style
  end.

Definition prune (style : obj) : obj := fold_left pruneKey (keys style) style.

(** [substitute] *)
Definition substitute (style : obj) : completion obj :=
  style' <- substituteEntries (entries style) style ;;
  Normal (prune style').

(** The [classNames] argument: a string or an array of strings. *)
Inductive classList : Type :=
| OneString (s : str)
| Many (l : list str).

Definition normalize (classNames : classList) : list str :=
  let l := match classNames with
           | OneString s => JSString.split " " s
           | Many l => l
           end in
  filter nonEmpty (map trim l).

(** The loop of [toObject] over the utility rules. *)
Definition collapseActive (active : list str) (style : obj) : obj :=
  fold_left (fun style rule =>
               if includes active (cleanSelector (selectorTextOf rule))
               then collapseRule rule style else style)
            allUtilityRules style.

(** The last loop of [toObject]: every value is simplified. *)
Definition simplifyEntry (style : obj) (e : str * value) : completion obj :=
  match snd e with
  | VString v => Normal (set style (fst e) (VString (simplify v)))
  | VUndefined => Throw TypeError
  end.

Fixpoint simplifyEntries (es : list (str * value)) (style : obj) : completion obj :=
  match es with
  | [] => Normal style
  | e :: es' => style' <- simplifyEntry style e ;; simplifyEntries es' style'
  end.

(** [toObject] *)
Definition toObject (classNames : classList) (state : list str) (strict : bool)
  : completion obj :=
  let classNames := normalize classNames in
  let active := filter (fun c => testVariants c state strict) classNames in
  let style := collapseActive active empty in
  style <- substitute style ;;
  simplifyEntries (entries style) style.

Definition valueText (v : value) : str :=
  match v with VString s => s | VUndefined => chars "undefined" end.

(** [toCSS] *)
Definition toCSS (classNames : classList) (state : list str) (strict : bool)
  : completion str :=
  style <- toObject classNames state strict ;;
  let pairs := map (fun e => toKebabCase (fst e) ++ chars ": " ++ valueText (snd e))
                   (entries style) in
  Normal (join (chars "; ") pairs ++ chars ";").

End Methods.

(** ** The constructor, for a style sheet given by the caller *)

Fixpoint findLayerRule (rules : list CSSRule) (name : str) : option CSSRule :=
  match rules with
  | [] => None
  | CSSLayerBlockRule n sub :: rest =>
      if str_eqb n name then Some (CSSLayerBlockRule n sub)
      else findLayerRule rest name
  | _ :: rest => findLayerRule rest name
  end.

Definition construct (sheet : CSSStyleSheet) : TailwindRuntime :=
  {| tailwind := sheet;
     themeDeclaration :=
       match findLayerRule sheet (chars "theme") with
       | Some (CSSLayerBlockRule _ (CSSStyleRule _ style _ :: _)) => Some style
       | _ => None
       end;
     utilitiesLayer := findLayerRule sheet (chars "utilities") |}.

End Tailwind.

(* ===================================================================== *)
(** * Descriptions of the matches in terms of the text *)
(* ===================================================================== *)

(** What the regular expressions of the module match, written as plain
    functions on the text; the theorems below relate them to the compiled
    expressions. *)

Module Text.

Import RegExp.

(** A greedy iteration of a one-character pattern followed by [k]: the
    longest run first, then shorter ones. *)
Fixpoint starGreedy (p : ascii -> bool) (k : continuation) (s : str) (i : nat)
    (cs : list (nat * str)) : option mstate :=
  match s with
  | c :: t =>
      if p c
      then orElse (starGreedy p k t (S i) cs) (fun _ => k (mkState s i cs))
      else k (mkState s i cs)
  | [] => k (mkState [] i cs)
  end.

(** The rest of [s] after the prefix [p], if [s] starts with [p]. *)
Fixpoint stripPrefix (p s : str) : option str :=
  match p, s with
  | [], _ => Some s
  | a :: p', b :: s' => if Ascii.eqb a b then stripPrefix p' s' else None
  | _ :: _, [] => None
  end.

(** *** The colon of a variant *)

(** A closing bracket comes before any opening bracket. *)
Fixpoint closesFirst (s : str) : bool :=
  match s with
  | c :: t =>
      if Ascii.eqb "[" c then false
      else if Ascii.eqb "]" c then true
      else closesFirst t
  | [] => false
  end.

(** The text is cut at each colon after which no bracket closes first. *)
Fixpoint cutAtColons (s : str) (cur : str) : list str :=
  match s with
  | [] => [rev cur]
  | c :: t =>
      if Ascii.eqb ":" c && negb (closesFirst t)
      then rev cur :: cutAtColons t []
      else cutAtColons t (c :: cur)
  end.

(** The brackets of the text pair up without nesting; [inside] tells
    whether a bracket is open where the text starts. *)
Fixpoint flatBrackets (inside : bool) (s : str) : bool :=
  match s with
  | [] => negb inside
  | c :: t =>
      if Ascii.eqb "[" c then negb inside && flatBrackets true t
      else if Ascii.eqb "]" c then inside && flatBrackets false t
      else flatBrackets inside t
  end.

(** The text is cut at each colon outside the brackets: [depth] counts
    the brackets open where the text starts. *)
Fixpoint cutOutsideBrackets (depth : nat) (s : str) (cur : str) : list str :=
  match s with
  | [] => [rev cur]
  | c :: t =>
      if Ascii.eqb "[" c then cutOutsideBrackets (S depth) t (c :: cur)
      else if Ascii.eqb "]" c then cutOutsideBrackets (pred depth) t (c :: cur)
      else if Ascii.eqb ":" c && (depth =? 0)
      then rev cur :: cutOutsideBrackets depth t []
      else cutOutsideBrackets depth t (c :: cur)
  end.

(** *** References to variables *)

Definition nameChar (c : ascii) : bool :=
  negb (Ascii.eqb ")" c || Ascii.eqb "," c).

(** The end of a reference: a closing parenthesis, or a comma and a
    closing parenthesis.  The result is its length and the text after. *)
Definition closingAt (s : str) : option (nat * str) :=
  match s with
  | c :: t =>
      if Ascii.eqb "," c then
        match t with
        | d :: u => if Ascii.eqb ")" d then Some (2, u) else None
        | [] => None
        end
      else if Ascii.eqb ")" c then Some (1, t)
      else None
  | [] => None
  end.

(** A reference at the head of the text: [var(], a name made of two
    dashes and at least one more code unit other than [)] and [,], an
    optional comma and [)].  The result is the name and the length of the
    reference. *)
Definition referenceAt (s : str) : option (str * nat) :=
  match stripPrefix (chars "var(--") s with
  | Some t =>
      let run := takeWhile nameChar t in
      match run, closingAt (dropWhile nameChar t) with
      | _ :: _, Some (n, _) => Some ("-" :: "-" :: run, 6 + length run + n)
      | _, _ => None
      end
  | None => None
  end.

(** The names of the references of a text, from left to right; a
    reference starts where the previous one ended or later. *)
Fixpoint referencesFrom (s : str) (skip : nat) : list str :=
  match skip with
  | S skip' =>
      match s with
      | [] => []
      | _ :: t => referencesFrom t skip'
      end
  | 0 =>
      match s with
      | [] => []
      | _ :: t =>
          match referenceAt s with
          | Some (name, len) => name :: referencesFrom t (pred len)
          | None => referencesFrom t 0
          end
      end
  end.

Definition references (s : str) : list str := referencesFrom s 0.

(** An occurrence of [var(name)] or [var(name,)] at the head of the text,
    with the white space that follows it: the length of the occurrence and
    the white space. *)
Definition occurrenceAt (name : str) (s : str) : option (nat * str) :=
  match stripPrefix (chars "var(" ++ name) s with
  | Some t =>
      match closingAt t with
      | Some (n, u) => Some (4 + length name + n, takeWhile isWhiteSpace u)
      | None => None
      end
  | None => None
  end.

(** The first occurrence is replaced by [new] followed by the white
    space that followed it, or removed with that white space when [new]
    is empty. *)
Fixpoint rewriteFirst (name new : str) (s : str) : str :=
  match occurrenceAt name s with
  | Some (len, ws) =>
      match new with
      | [] => skipn (len + length ws) s
      | _ => new ++ skipn len s
      end
  | None =>
      match s with
      | [] => []
      | c :: t => c :: rewriteFirst name new t
      end
  end.

(** A name in which no code unit has a meaning in a pattern. *)
Definition plainName (name : str) : bool :=
  forallb (fun c => negb (isSyntaxChar c)) name.

Definition dollarFree (s : str) : bool :=
  forallb (fun c => negb (Ascii.eqb "$" c)) s.

(** *** Products *)

Definition numberChar (c : ascii) : bool := isDigit c || Ascii.eqb "." c.

(** A product at the head of the text: the two numbers, the unit and the
    length of the whole. *)
Definition productAt (s : str) : option (str * str * str * nat) :=
  match stripPrefix (chars "calc(") s with
  | Some t =>
      let a := takeWhile numberChar t in
      let t1 := dropWhile numberChar t in
      let unit := takeWhile isLower t1 in
      match a, unit, stripPrefix (chars " * ") (dropWhile isLower t1) with
      | _ :: _, _ :: _, Some t2 =>
          let b := takeWhile numberChar t2 in
          match b, stripPrefix (chars ")") (dropWhile numberChar t2) with
          | _ :: _, Some _ =>
              Some (a, unit, b, 9 + length a + length unit + length b)
          | _, _ => None
          end
      | _, _, _ => None
      end
  | None => None
  end.

Definition product (a unit b : str) : str :=
  Number.toString (Number.mul (Number.parseFloat a) (Number.parseFloat b)) ++ unit.

(** Every product of the text, from left to right, replaced by its
    value; the rest of the text is kept. *)
Fixpoint simplifyFrom (s : str) (skip : nat) : str :=
  match skip with
  | S skip' =>
      match s with
      | [] => []
      | _ :: t => simplifyFrom t skip'
      end
  | 0 =>
      match s with
      | [] => []
      | c :: t =>
          match productAt s with
          | Some (a, unit, b, len) => product a unit b ++ simplifyFrom t (pred len)
          | None => c :: simplifyFrom t 0
          end
      end
  end.

(** No product starts anywhere in the text, a product being what
    [productAt] finds: its numbers are runs of digits and dots. *)
Fixpoint noProduct (s : str) : bool :=
  match s with
  | [] => true
  | _ :: t => match productAt s with Some _ => false | None => noProduct t end
  end.

(** The expression that [new RegExp] builds for the name of a variable
    in which every code unit stands for itself. *)
Definition whiteSpaceGroup : regex :=
  RGroup 1 (RSeq (RQuant 0 None true (RClass false [CSpace false])) REmpty).

Definition referenceRegex (name : str) : RegExp.t :=
  mk (seqOf (map RChar (chars "var(") ++ map RChar name ++
             [RQuant 0 (Some 1) true (RChar ","); RChar ")"; whiteSpaceGroup]))
     1.

Definition isSome {A} (o : option A) : bool :=
  match o with Some _ => true | None => false end.

(** *** The substitution of one value *)

Section Substitution.

Import JSObject Tailwind.

Variable this : TailwindRuntime.

(** The two tiers of the value namespace, for a name that starts with
    two dashes: the style set first, then the theme declaration, then a
    registered property that does not inherit. *)
Definition lookupName (style : obj) (name : str) : lookupResult :=
  match get style name with
  | VString s => Found s
  | VUndefined =>
      let fromTheme :=
        match themeDeclaration this with
        | Some decl => CSSOM.getPropertyValue decl name
        | None => []
        end in
      if nonEmpty fromTheme then Found fromTheme
      else
        match findPropertyRule this name with
        | Some prop =>
            if negb (prop_inherits prop) then
              match prop_initialValue prop with
              | Some v => Found v
              | None => Null
              end
            else Undefined
        | None => Undefined
        end
  end.

(** What the engine does with a value: for each reference of the
    original text, from left to right, whose name resolves, the first
    occurrence of that reference in the current text is rewritten. *)
Fixpoint rewriteReferences (style : obj) (value : str) (names : list str) : str :=
  match names with
  | [] => value
  | name :: names' =>
      let value' :=
        match lookupName style name with
        | Undefined => value
        | Found new => rewriteFirst name new value
        | Null => rewriteFirst name [] value
        end in
      rewriteReferences style value' names'
  end.

Definition rewritten (style : obj) (value : str) : str :=
  trim (rewriteReferences style value (references value)).

(** One pass over the text in which every reference is handled where it
    stands: replaced by the string it resolves to, removed with the white
    space after it when that string is empty, kept when it does not
    resolve; nothing that a replacement wrote is looked at again. *)
Fixpoint onePassFrom (style : obj) (s : str) (skip : nat) (dropSpace : bool) : str :=
  match skip with
  | S skip' =>
      match s with
      | [] => []
      | _ :: t => onePassFrom style t skip' dropSpace
      end
  | 0 =>
      match s with
      | [] => []
      | c :: t =>
          if dropSpace && isWhiteSpace c then onePassFrom style t 0 true
          else
            match referenceAt s with
            | Some (name, len) =>
                match lookupName style name with
                | Undefined => firstn len s ++ onePassFrom style t (pred len) false
                | Found [] | Null => onePassFrom style t (pred len) true
                | Found new => new ++ onePassFrom style t (pred len) false
                end
            | None => c :: onePassFrom style t 0 false
            end
      end
  end.

Definition onePass (style : obj) (value : str) : str :=
  trim (onePassFrom style value 0 false).

(** The keys that the second loop of [substitute] deletes. *)
Definition internalProperty (key : str) : bool :=
  match findPropertyRule this key with
  | Some prop => negb (prop_inherits prop)
  | None => false
  end.

End Substitution.

(** *** The declarations of a rule *)

Import JSObject Tailwind CSSOM.

(** The assignments [target[key] = value] that [collapseRule] makes for
    a declaration block, in order. *)
Definition assignment (part : str) : str * value :=
  let '(key, v) := declaration part in
  (if startsWith (chars "--") key then key else toCamelCase key, v).

Definition styleAssignments (style : CSSStyleDeclaration) : list (str * value) :=
  map assignment (filter nonEmpty (JSString.split ";" (cssText style))).

(** The assignments of a rule in the order in which [collapseRule]
    makes them: those of its nested rules, in order, then those of its own
    declarations. *)
Fixpoint assignments (rule : CSSRule) : list (str * value) :=
  let nested :=
    fix nested (rules : list CSSRule) : list (str * value) :=
      match rules with
      | [] => []
      | r :: rest => assignments r ++ nested rest
      end in
  match rule with
  | CSSStyleRule _ style cssRules => nested cssRules ++ styleAssignments style
  | CSSNestedDeclarations style => styleAssignments style
  | CSSLayerBlockRule _ cssRules => nested cssRules
  | CSSGroupingRule cssRules => nested cssRules
  | _ => []
  end.

Definition assign (target : obj) (a : str * value) : obj :=
  set target (fst a) (snd a).

(** The value a list of assignments leaves in a property: the last one
    written. *)
Fixpoint lastAssigned (key : str) (l : list (str * value)) : option value :=
  match l with
  | [] => None
  | (k, v) :: t =>
      match lastAssigned key t with
      | Some w => Some w
      | None => if str_eqb k key then Some v else None
      end
  end.

(** The rule is one of the active classes. *)
Definition isActive (active : list str) (rule : CSSRule) : bool :=
  includes active (cleanSelector (selectorTextOf rule)).

(** An object in which no key occurs twice and [__proto__] is no key:
    what assignments build from the empty object. *)
Definition wellFormed (o : obj) : Prop :=
  NoDup (map fst o) /\ ~ In (chars "__proto__") (map fst o).

(** *** Rewriting by a global regular expression *)

(** A global replacement as one pass over the text. *)
Fixpoint rewriteScan (re : RegExp.t) (f : jsmatch -> str) (i : nat) (s : str)
    (skip : nat) : str :=
  match skip with
  | S skip' =>
      match s with
      | [] => []
      | _ :: t => rewriteScan re f (S i) t skip'
      end
  | 0 =>
      match matchAt re i s with
      | Some m =>
          f m ++ match s with
                 | [] => []
                 | c :: t =>
                     match length (matched m) with
                     | 0 => c :: rewriteScan re f (S i) t 0
                     | S n => rewriteScan re f (S i) t n
                     end
                 end
      | None =>
          match s with
          | [] => []
          | c :: t => c :: rewriteScan re f (S i) t 0
          end
      end
  end.

End Text.
(* ===================================================================== *)
(** * A style sheet to run the program on *)
(* ===================================================================== *)

Module Examples.

Import CSSOM JSObject Tailwind.

#[local] Open Scope string_scope.

(** A declaration block with the given declarations: its text, one
    [name: value;] per declaration, and the lookup of a value by name. *)
Definition block (l : list (string * string)) : CSSStyleDeclaration :=
  {| cssText :=
       join (chars " ")
         (map (fun p => (chars (fst p) ++ chars ": " ++ chars (snd p) ++ chars ";")%list)
              l);
     getPropertyValue := fun name =>
       match find (fun p => str_eqb (chars (fst p)) name) l with
       | Some p => chars (snd p)
       | None => []
       end |}.

Definition utility (selector : string) (l : list (string * string)) : CSSRule :=
  CSSStyleRule (chars selector) (block l) [].

Definition sheet : CSSStyleSheet :=
  [ CSSLayerBlockRule (chars "theme")
      [ CSSStyleRule (chars ":root, :host")
          (block [ ("--spacing", "0.25rem");
                   ("--color-red-500", "#ef4444");
                   ("--unit", "1px");
                   ("--gap", "var(--unit) solid") ]) [] ];
    CSSLayerBlockRule (chars "utilities")
      [ utility ".m-4" [("margin", "calc(var(--spacing) * 4)")];
        utility ".text-red" [("color", "red")];
        utility ".text-blue" [("color", "blue")];
        utility ".scale-x-50"
          [ ("--tw-scale-x", "50%");
            ("--color-red-500", "#f00");
            ("scale", "var(--tw-scale-x) var(--tw-scale-y)") ];
        utility ".edge" [("border", "var(--gap) var(--unit)")];
        utility ".icon" [("--icon", "url(data:image/png;base64,AAAA)")];
        CSSStyleRule (chars ".hover\:text-red-500") (block [])
          [ CSSStyleRule (chars "&:hover") (block [])
              [ CSSGroupingRule
                  [ CSSNestedDeclarations
                      (block [("color", "var(--color-red-500)")]) ] ] ] ];
    CSSPropertyRule (chars "--tw-scale-x") false (Some (chars "1"));
    CSSPropertyRule (chars "--tw-scale-y") false (Some (chars "1")) ].

Definition tw : TailwindRuntime := construct sheet.

Definition textRed : CSSRule := utility ".text-red" [("color", "red")].
Definition textBlue : CSSRule := utility ".text-blue" [("color", "blue")].

(** A runtime whose utilities are the two rules that set [color]. *)
Definition twColors : TailwindRuntime :=
  construct [CSSLayerBlockRule (chars "utilities") [textRed; textBlue]].

End Examples.

(* ===================================================================== *)
(** * Proxy objects *)
(* ===================================================================== *)

(** A proxy of an empty, extensible target whose handler defines the
    traps [get], [has], [ownKeys] and [getOwnPropertyDescriptor], every
    key being a string.  The value of a property is a string or
    [undefined] ([None]); the descriptor that the handler returns is
    either [undefined] or an enumerable, configurable one. *)

Module JSProxy.

Record handler : Type := {
  trapGet : str -> option str;
  trapHas : str -> bool;
  trapOwnKeys : list str;
  trapGetOwnPropertyDescriptor : str -> bool
}.

Fixpoint hasDuplicate (l : list str) : bool :=
  match l with
  | [] => false
  | k :: t => includes t k || hasDuplicate t
  end.

(** The internal method that lists the own keys: the list of the trap,
    which must not name a key twice. *)
Definition ownPropertyKeys (h : handler) : completion (list str) :=
  if hasDuplicate (trapOwnKeys h) then Throw TypeError
  else Normal (trapOwnKeys h).

(** [Object.keys]: the own keys whose descriptor is defined and
    enumerable. *)
Definition keys (h : handler) : completion (list str) :=
  ks <- ownPropertyKeys h ;;
  Normal (filter (trapGetOwnPropertyDescriptor h) ks).

(** [Object.entries]: these keys, each with the value read through the
    [get] trap. *)
Definition entries (h : handler) : completion (list (str * option str)) :=
  ks <- keys h ;;
  Normal (map (fun k => (k, trapGet h k)) ks).

End JSProxy.

(* ===================================================================== *)
(** * [src/index.ts]: the constructor and the theme namespaces *)
(* ===================================================================== *)

Module TailwindTheme.

Import CSSOM JSObject Tailwind.

(** The callback of [rules.some]: a layer block named [utilities] or
    [theme]. *)
Definition isTailwindLayer (rule : CSSRule) : bool :=
  match rule with
  | CSSLayerBlockRule name _ =>
      str_eqb name (chars "utilities") || str_eqb name (chars "theme")
  | _ => false
  end.

Definition notFoundAutomatically : str :=
  chars "Tailwind stylesheet could not be found automatically".

Definition requiresStylesheet : str :=
  chars "Tailwind runtime requires a tailwind stylesheet".

(** [new TailwindRuntime(options)].  [tailwind] is the style sheet of the
    options, if they give one; [styleSheets] are the style sheets of the
    document, each with its rules readable. *)
Definition constructor (tailwind : option CSSStyleSheet)
    (styleSheets : list CSSStyleSheet) : completion TailwindRuntime :=
  tailwind <-
    match tailwind with
    | Some sheet => Normal (Some sheet)
    | None =>
        match find (fun sheet => existsb isTailwindLayer sheet) styleSheets with
        | Some sheet => Normal (Some sheet)
        | None => Throw (Error notFoundAutomatically)
        end
    end ;;
  match tailwind with
  | None => Throw (Error requiresStylesheet)
  | Some sheet => Normal (construct sheet)
  end.

Section Namespaces.

Variable this : TailwindRuntime.

(** [Array.from(declaration)]: the names of the properties that a
    declaration block holds, in the order of the block. *)
Variable items : CSSStyleDeclaration -> list str.

(** [window.matchMedia(query).matches] *)
Variable matchMedia : str -> bool.

(** [themeNamespace]: the handler of the proxy that the method returns. *)
Definition themeNamespace (name : str) : JSProxy.handler :=
  let prefix := chars "--" ++ name ++ chars "-" in
  let get := fun key : str =>
    match themeDeclaration this with
    | Some declaration => Some (getPropertyValue declaration (prefix ++ key))
    | None => None
    end in
  {| JSProxy.trapGet := get;
     JSProxy.trapHas := fun key =>
       match get key with Some _ => true | None => false end;
     JSProxy.trapOwnKeys :=
       match themeDeclaration this with
       | Some declaration =>
           map (skipn (length prefix))
               (filter (startsWith prefix) (items declaration))
       | None => []
       end;
     JSProxy.trapGetOwnPropertyDescriptor := fun key =>
       match get key with
       | Some value => nonEmpty value
       | None => false
       end |}.

(** [Object.entries(this.breakpoints)].  The field holds the proxy of the
    namespace [breakpoint] when the constructor found a theme, and the
    empty object it was initialised with otherwise. *)
Definition breakpointEntries : completion (list (str * option str)) :=
  match themeDeclaration this with
  | Some _ => JSProxy.entries (themeNamespace (chars "breakpoint"))
  | None => Normal []
  end.

Definition minWidth (size : option str) : str :=
  chars "(min-width: " ++
  match size with Some s => s | None => chars "undefined" end ++ chars ")".

(** The getter [activeBreakpoints]. *)
Definition activeBreakpoints : completion (list str) :=
  es <- breakpointEntries ;;
  Normal (fold_left (fun active e =>
                       if matchMedia (minWidth (snd e)) then active ++ [fst e]
                       else active)
                    es []).

End Namespaces.

End TailwindTheme.

(* ===================================================================== *)
(** * [src/test-app/main.ts]: the code blocks of the README *)
(* ===================================================================== *)

Module TestApp.

Definition lineFeed : ascii := ascii_of_nat 10.

Definition tsFence : str := chars "```ts".
Definition fence : str := chars "```".
Definition resultMark : str := chars "// ->".

(** A block: the number of the line that opens it and its lines. *)
Definition block : Type := nat * list str.

Record collector : Type := {
  blocks : list block;
  currentBlock : option block
}.

(** The body of the loop over the lines. *)
Definition collect (st : collector) (i : nat) (line : str) : collector :=
  match currentBlock st with
  | None =>
      if startsWith tsFence line
      then {| blocks := blocks st; currentBlock := Some (i, []) |}
      else st
  | Some (start, body) =>
      if startsWith fence line
      then {| blocks := blocks st ++ [(start, body)]; currentBlock := None |}
      else {| blocks := blocks st; currentBlock := Some (start, body ++ [line]) |}
  end.

Fixpoint collectFrom (i : nat) (lines : list str) (st : collector) : collector :=
  match lines with
  | [] => st
  | line :: rest => collectFrom (S i) rest (collect st i line)
  end.

Definition linesOf (readme : str) : list str := JSString.split lineFeed readme.

(** The blocks of the README that hold a result comment. *)
Definition codeBlocks (readme : str) : list block :=
  let all := blocks (collectFrom 0 (linesOf readme)
                       {| blocks := []; currentBlock := None |}) in
  filter (fun b => existsb (startsWith resultMark) (snd b)) all.

(** [s.replace(c, '')] for a pattern of one code unit: its first
    occurrence is removed. *)
Definition removeFirst (c : ascii) (s : str) : str :=
  takeWhile (fun d => negb (Ascii.eqb c d)) s
  ++ tl (dropWhile (fun d => negb (Ascii.eqb c d)) s).

(** The call that replaces the statement before a result comment. *)
Definition logCall (statement : str) (line : nat) : str :=
  chars "log(" ++ removeFirst ";" statement ++ chars ", "
  ++ Number.decimal (Z.of_nat line) ++ chars ");".

(** [block[j] = line] for an index inside the array. *)
Fixpoint assignAt (j : nat) (line : str) (block : list str) : list str :=
  match block, j with
  | [], _ => []
  | _ :: rest, 0 => line :: rest
  | first :: rest, S j' => first :: assignAt j' line rest
  end.

(** The loop that wraps the statements: [n] iterations are left, the
    next one for the index [i], which is inside the array.  Reading
    [replace] of the element before the first one, which is [undefined],
    is a [TypeError]. *)
Fixpoint wrapFrom (n i : nat) (block : list str) : completion (list str) :=
  match n with
  | 0 => Normal block
  | S n' =>
      match nth_error block i with
      | Some line =>
          if startsWith resultMark line then
            match i with
            | 0 => Throw TypeError
            | S j =>
                match nth_error block j with
                | Some statement =>
                    wrapFrom n' (S i) (assignAt j (logCall statement (i + 1)) block)
                | None => Throw TypeError
                end
            end
          else wrapFrom n' (S i) block
      | None => Throw TypeError
      end
  end.

Definition wrap (block : list str) : completion (list str) :=
  wrapFrom (length block) 0 block.

(** The values that [serialize] is given: [undefined], [null],
    booleans, numbers, strings, arrays without holes and ordinary objects,
    an object being the list of its own enumerable properties in the
    order of [Object.entries]. *)
#[warnings="-register-all"]
Inductive jsvalue : Type :=
| JUndefined
| JNull
| JBoolean (b : bool)
| JNumber (x : Number.number)
| JString (s : str)
| JArray (elements : list jsvalue)
| JObject (properties : list (str * jsvalue)).

(** What [serialize] returns: a string, or the value it was given when
    that is [undefined], a boolean or a number. *)
Inductive primitive : Type :=
| PUndefined
| PBoolean (b : bool)
| PNumber (x : Number.number)
| PString (s : str).

(** The conversion to a string that a template literal makes. *)
Definition toStr (p : primitive) : str :=
  match p with
  | PUndefined => chars "undefined"
  | PBoolean true => chars "true"
  | PBoolean false => chars "false"
  | PNumber x => Number.toString x
  | PString s => s
  end.

(** The conversion that [join] makes: [undefined] gives the empty
    string. *)
Definition joined (p : primitive) : str :=
  match p with
  | PUndefined => []
  | _ => toStr p
  end.

(** [serialize].  [Object.entries(null)] is a [TypeError]. *)
Fixpoint serialize (value : jsvalue) : completion primitive :=
  match value with
  | JArray elements =>
      let fix each (l : list jsvalue) : completion (list primitive) :=
        match l with
        | [] => Normal []
        | element :: rest =>
            p <- serialize element ;;
            ps <- each rest ;;
            Normal (p :: ps)
        end in
      items <- each elements ;;
      Normal (PString ("[" :: join (chars ", ") (map joined items) ++ chars "]"))
  | JNull => Throw TypeError
  | JObject properties =>
      let fix each (l : list (str * jsvalue)) : completion (list str) :=
        match l with
        | [] => Normal []
        | (key, v) :: rest =>
            p <- serialize v ;;
            pairs <- each rest ;;
            Normal ((key ++ chars ": " ++ toStr p) :: pairs)
        end in
      pairs <- each properties ;;
      Normal (PString ("{" :: join (chars ", ") pairs ++ chars "}"))
  | JString s => Normal (PString ("'" :: s ++ chars "'"))
  | JUndefined => Normal PUndefined
  | JBoolean b => Normal (PBoolean b)
  | JNumber x => Normal (PNumber x)
  end.

(** The line that [log] writes for a value. *)
Definition logText (value : jsvalue) : completion str :=
  p <- serialize value ;;
  Normal (chars "// -> " ++ toStr p).

(** *** Descriptions *)

(** [null] occurs in the value. *)
Fixpoint hasNull (value : jsvalue) : bool :=
  match value with
  | JNull => true
  | JArray elements => existsb hasNull elements
  | JObject properties => existsb (fun p => hasNull (snd p)) properties
  | _ => false
  end.

(** The block as it stands in the text: the line with its number opens
    a block, and each line of the block is the line of the text that comes
    that far after the opening line; none of them starts with a fence. *)
Definition inPlace (lines : list str) (b : block) : Prop :=
  (exists opening,
     nth_error lines (fst b) = Some opening /\
     startsWith tsFence opening = true)
  /\ (forall j line,
        nth_error (snd b) j = Some line ->
        nth_error lines (fst b + (j + 1)) = Some line /\
        startsWith fence line = false).

(** The line after the last line of the block closes it. *)
Definition closed (lines : list str) (b : block) : Prop :=
  exists closing,
    nth_error lines (fst b + (length (snd b) + 1)) = Some closing /\
    startsWith fence closing = true.

(** The lines of a block after the wrapping, the first one having the
    index [j]: a line followed by a result comment becomes a call of [log]
    with the number of the comment, counted from one. *)
Fixpoint wrapped (j : nat) (block : list str) : list str :=
  match block with
  | [] => []
  | line :: rest =>
      match rest with
      | next :: _ =>
          if startsWith resultMark next then logCall line (j + 2) else line
      | [] => line
      end :: wrapped (S j) rest
  end.

(** What the loop over the lines keeps true, [seen] being the lines gone
    through: the blocks collected stand in place and are closed; the open
    block stands in place and ends with the last line seen. *)
Definition collected (seen : list str) (st : collector) : Prop :=
  (forall b, In b (blocks st) -> inPlace seen b /\ closed seen b)
  /\ match currentBlock st with
     | Some b => inPlace seen b /\ fst b + (length (snd b) + 1) = length seen
     | None => True
     end.

(** A README with a block that holds a result comment and a block that
    no fence closes. *)
Definition readmeText : str :=
  chars "# Use" ++ lineFeed :: chars "```ts" ++ lineFeed ::
  chars "tw.toCSS('m-4');" ++ lineFeed :: chars "// ->" ++ lineFeed ::
  chars "```" ++ lineFeed :: chars "```ts" ++ lineFeed :: chars "// -> open".

End TestApp.

(* ===================================================================== *)
(** * Descriptions of the conversions between the two spellings *)
(* ===================================================================== *)

Module Casing.

(** Every dash followed by a lower-case letter is dropped and the letter
    written in upper case. *)
Fixpoint camelCase (s : str) : str :=
  match s with
  | [] => []
  | c :: t =>
      match t with
      | d :: u =>
          if Ascii.eqb "-" c && isLower d then toUpper d :: camelCase u
          else c :: camelCase t
      | [] => [c]
      end
  end.

(** Every upper-case letter becomes a dash and the letter in lower
    case. *)
Fixpoint kebabCase (s : str) : str :=
  match s with
  | [] => []
  | c :: t =>
      if isUpper c then "-" :: toLower c :: kebabCase t
      else c :: kebabCase t
  end.

(** No dash of the text is followed by a lower-case letter. *)
Fixpoint noDashLetter (s : str) : bool :=
  match s with
  | [] => true
  | c :: t =>
      match t with
      | d :: _ => negb (Ascii.eqb "-" c && isLower d) && noDashLetter t
      | [] => true
      end
  end.

End Casing.

(* ===================================================================== *)
(** * Descriptions of style objects *)
(* ===================================================================== *)

Module StyleSets.

Import JSObject.

(** Every property of the object holds a string. *)
Definition allStrings (o : obj) : Prop :=
  forall key v, In (key, v) o -> exists text, v = VString text.

(** The value is [undefined]. *)
Definition isUndefined (v : value) : bool :=
  match v with VUndefined => true | VString _ => false end.

(** No rule of the list is a layer block with the given name. *)
Definition noLayer (name : str) (rules : list CSSOM.CSSRule) : Prop :=
  forall rule, In rule rules ->
    match rule with
    | CSSOM.CSSLayerBlockRule n _ => n <> name
    | _ => True
    end.

(** The rule is a style rule. *)
Definition isCSSStyleRule (rule : CSSOM.CSSRule) : bool :=
  match rule with CSSOM.CSSStyleRule _ _ _ => true | _ => false end.

End StyleSets.

(* ===================================================================== *)
(** * A theme with breakpoints *)
(* ===================================================================== *)

Module ThemeExamples.

Import CSSOM Tailwind Examples.

#[local] Open Scope string_scope.

Definition themeBlock : CSSStyleDeclaration :=
  block [ ("--color-red-500", "#ef4444");
          ("--breakpoint-sm", "40rem");
          ("--breakpoint-md", "48rem");
          ("--breakpoint-lg", "64rem");
          ("--color-none", "") ].

Definition responsive : TailwindRuntime :=
  construct [ CSSLayerBlockRule (chars "theme")
                [ CSSStyleRule (chars ":root, :host") themeBlock [] ] ].

(** The names of the properties of [themeBlock]. *)
Definition themeItems (declaration : CSSStyleDeclaration) : list str :=
  [ chars "--color-red-500"; chars "--breakpoint-sm"; chars "--breakpoint-md";
    chars "--breakpoint-lg"; chars "--color-none" ].

(** A window fifty rem wide. *)
Definition fiftyRem (query : str) : bool :=
  str_eqb query (chars "(min-width: 40rem)")
  || str_eqb query (chars "(min-width: 48rem)").

End ThemeExamples.

(* ===================================================================== *)
(** * The words of the specification *)
(* ===================================================================== *)

(** Where the specification describes a behaviour in words of its own,
    the description is written here as the words say it, to be compared
    with the code. *)

Module Specification.

Import JSObject CSSOM Tailwind Text.

(** The declarations of a rule in the order of the document: the
    declarations of the rule itself, which stand before its nested rules,
    then those of the nested rules, in their order. *)
Fixpoint documentAssignments (rule : CSSRule) : list (str * value) :=
  let nested :=
    fix nested (rules : list CSSRule) : list (str * value) :=
      match rules with
      | [] => []
      | r :: rest => documentAssignments r ++ nested rest
      end in
  match rule with
  | CSSStyleRule _ style cssRules => styleAssignments style ++ nested cssRules
  | CSSNestedDeclarations style => styleAssignments style
  | CSSLayerBlockRule _ cssRules => nested cssRules
  | CSSGroupingRule cssRules => nested cssRules
  | _ => []
  end.

(** A decimal, optionally fractional: digits, then possibly a dot and
    digits. *)
Definition isDecimal (s : str) : bool :=
  match takeWhile isDigit s, dropWhile isDigit s with
  | _ :: _, [] => true
  | _ :: _, c :: fraction =>
      Ascii.eqb "." c && nonEmpty fraction && forallb isDigit fraction
  | [], _ => false
  end.

(** A text of the form [calc(<decimal><unit> * <decimal>)] at the head
    of the text.  The first number ends where the unit starts and the
    second where the parenthesis closes, so they are the runs that
    [productAt] finds. *)
Definition decimalProductAt (s : str) : bool :=
  match productAt s with
  | Some (a, _, b, _) => isDecimal a && isDecimal b
  | None => false
  end.

(** No such text starts anywhere: the input matches nowhere. *)
Fixpoint noDecimalProduct (s : str) : bool :=
  match s with
  | [] => true
  | _ :: t => negb (decimalProductAt s) && noDecimalProduct t
  end.

(** No rule of the list registers a property with the given name. *)
Definition noPropertyRule (name : str) (rules : list CSSRule) : Prop :=
  forall rule, In rule rules ->
    match rule with
    | CSSPropertyRule n _ _ => n <> name
    | _ => True
    end.

End Specification.

(* ===================================================================== *)
(** * Style sheets with a nested rule and with a screen variant *)
(* ===================================================================== *)

Module RuleExamples.

Import CSSOM Tailwind Examples.

#[local] Open Scope string_scope.

(** A rule that sets [color] itself and, once more, in a nested rule. *)
Definition ownAndNested : CSSRule :=
  CSSStyleRule (chars ".x") (block [("color", "red")])
    [ CSSStyleRule (chars "&:hover") (block [("color", "blue")]) [] ].

Definition twNested : TailwindRuntime :=
  construct [CSSLayerBlockRule (chars "utilities") [ownAndNested]].

(** The utility of the class [2xl:p-1]: the selector text escapes the
    leading digit by its code point, [32] in hexadecimal, followed by a
    space. *)
Definition twScreens : TailwindRuntime :=
  construct [CSSLayerBlockRule (chars "utilities")
               [utility ".\32 xl\:p-1" [("padding", "0.25rem")]]].

End RuleExamples.

(* ===================================================================== *)
(** * Facts about strings *)
(* ===================================================================== *)

Module JSStringFacts.

Lemma str_eqb_eq (a b : str) : str_eqb a b = true <-> a = b.
Proof.
  unfold str_eqb. destruct (list_eq_dec ascii_dec a b); split; congruence.
Qed.

Lemma str_eqb_refl (a : str) : str_eqb a a = true.
Proof. apply str_eqb_eq. reflexivity. Qed.

Lemma str_eqb_neq (a b : str) : str_eqb a b = false <-> a <> b.
Proof.
  unfold str_eqb. destruct (list_eq_dec ascii_dec a b); split; congruence.
Qed.

Lemma str_eqb_sym (a b : str) : str_eqb a b = str_eqb b a.
Proof.
  destruct (str_eqb b a) eqn:E.
  - apply str_eqb_eq in E. subst. apply str_eqb_refl.
  - apply str_eqb_neq in E. apply str_eqb_neq. congruence.
Qed.

Lemma includes_In (l : list str) (x : str) : includes l x = true <-> In x l.
Proof.
  unfold includes. rewrite existsb_exists. split.
  - intros [y [Hy E]]. apply str_eqb_eq in E. subst. exact Hy.
  - intros H. exists x. split; [exact H | apply str_eqb_refl].
Qed.

Lemma takeWhile_dropWhile (p : ascii -> bool) (s : str) :
  takeWhile p s ++ dropWhile p s = s.
Proof.
  induction s as [|c t IH]; simpl; [reflexivity|].
  destruct (p c); simpl; [rewrite IH|]; reflexivity.
Qed.

Lemma dropWhile_head (p : ascii -> bool) (s : str) c t :
  dropWhile p s = c :: t -> p c = false.
Proof.
  induction s as [|a s IH]; simpl; [discriminate|].
  destruct (p a) eqn:E; [exact IH|]. intros H. injection H as -> _. exact E.
Qed.

Lemma dropWhile_idem (p : ascii -> bool) (s : str) :
  dropWhile p (dropWhile p s) = dropWhile p s.
Proof.
  induction s as [|a s IH]; simpl; [reflexivity|].
  destruct (p a) eqn:E; [exact IH|]. simpl. rewrite E. reflexivity.
Qed.

Lemma dropWhile_app_keep (p : ascii -> bool) (s u : str) c t :
  dropWhile p s = c :: t -> dropWhile p (s ++ u) = (c :: t) ++ u.
Proof.
  induction s as [|a s IH]; simpl; [discriminate|].
  destruct (p a) eqn:E; [exact IH|]. intros H. injection H as -> ->. reflexivity.
Qed.

Lemma dropWhile_all (p : ascii -> bool) (s : str) :
  dropWhile p s = [] -> forallb p s = true.
Proof.
  induction s as [|a s IH]; simpl; [reflexivity|].
  destruct (p a); [exact IH | discriminate].
Qed.

(** The last code unit of [trimEnd s] is no white space. *)
Lemma trimEnd_start (s : str) c :
  isWhiteSpace c = false -> trimEnd (c :: s) = c :: trimEnd s.
Proof.
  intros Hc. unfold trimEnd. simpl.
  destruct (dropWhile isWhiteSpace (rev s)) as [|d u] eqn:E.
  - apply dropWhile_all in E.
    assert (H : dropWhile isWhiteSpace (rev s ++ [c]) = [c]).
    { induction (rev s) as [|a r IH]; simpl in *.
      - rewrite Hc. reflexivity.
      - apply andb_prop in E. destruct E as [Ea Er]. rewrite Ea. auto. }
    rewrite H. reflexivity.
  - rewrite (dropWhile_app_keep _ _ [c] _ _ E). rewrite rev_app_distr. reflexivity.
Qed.

Lemma trimEnd_idem (s : str) : trimEnd (trimEnd s) = trimEnd s.
Proof.
  unfold trimEnd. rewrite rev_involutive, dropWhile_idem. reflexivity.
Qed.

Lemma trimStart_trimEnd (s : str) :
  trimStart (trimEnd (trimStart s)) = trimEnd (trimStart s).
Proof.
  unfold trimStart.
  destruct (dropWhile isWhiteSpace s) as [|c t] eqn:E; [reflexivity|].
  pose proof (dropWhile_head _ _ _ _ E) as Hc.
  rewrite (trimEnd_start t c Hc). simpl. rewrite Hc. reflexivity.
Qed.

(** [trim] is idempotent. *)
Lemma trim_idem (s : str) : trim (trim s) = trim s.
Proof.
  unfold trim. rewrite trimStart_trimEnd, trimEnd_idem. reflexivity.
Qed.

Lemma startsWith_app (p s : str) : startsWith p (p ++ s) = true.
Proof.
  induction p as [|a p IH]; simpl; [reflexivity|].
  rewrite Ascii.eqb_refl. exact IH.
Qed.

End JSStringFacts.
Import JSStringFacts.

(* ===================================================================== *)
(** * Facts about objects *)
(* ===================================================================== *)

Module JSObjectFacts.
Import JSObject.

Lemma lookup_In_keys (o : obj) k : lookup o k <> None <-> In k (map fst o).
Proof.
  induction o as [|[k' v] o IH]; cbn [lookup map fst In].
  - split; [congruence | tauto].
  - destruct (str_eqb k' k) eqn:E.
    + apply str_eqb_eq in E. subst. split; [auto | discriminate].
    + apply str_eqb_neq in E. rewrite IH. split; [auto | intros [H|H]; congruence].
Qed.

Lemma lookup_In (o : obj) k v : lookup o k = Some v -> In (k, v) o.
Proof.
  induction o as [|[k' v'] o IH]; cbn [lookup In]; [discriminate|].
  destruct (str_eqb k' k) eqn:E.
  - apply str_eqb_eq in E. subst. intros H. injection H as ->. auto.
  - auto.
Qed.

Lemma In_lookup (o : obj) k v :
  NoDup (map fst o) -> In (k, v) o -> lookup o k = Some v.
Proof.
  induction o as [|[k' v'] o IH]; cbn [lookup In map fst]; [tauto|].
  intros Hn [H|H].
  - injection H as -> ->. rewrite str_eqb_refl. reflexivity.
  - inversion Hn as [|? ? Hk Hn']; subst.
    destruct (str_eqb k' k) eqn:E.
    + apply str_eqb_eq in E. subst. exfalso. apply Hk.
      apply (in_map fst) in H. exact H.
    + auto.
Qed.

Lemma update_keys (o : obj) k v :
  In k (map fst o) -> map fst (update o k v) = map fst o.
Proof.
  induction o as [|[k' v'] o IH]; cbn [update map fst In]; [tauto|].
  intros H. destruct (str_eqb k' k) eqn:E; [reflexivity|].
  cbn [map fst]. f_equal. apply IH. destruct H as [H|H]; [|exact H].
  apply str_eqb_neq in E. congruence.
Qed.

Lemma set_keys (o : obj) k v :
  In k (map fst o) -> map fst (set o k v) = map fst o.
Proof.
  intros H. unfold set. destruct (str_eqb k _); [reflexivity|].
  apply update_keys. exact H.
Qed.

Lemma lookup_update (o : obj) k v k' :
  lookup (update o k v) k' = if str_eqb k k' then Some v else lookup o k'.
Proof.
  induction o as [|[k0 v0] o IH]; cbn [update lookup].
  - reflexivity.
  - destruct (str_eqb k0 k) eqn:E.
    + apply str_eqb_eq in E. subst k0. cbn [lookup].
      destruct (str_eqb k k'); reflexivity.
    + cbn [lookup]. destruct (str_eqb k0 k') eqn:E'.
      * apply str_eqb_eq in E'. subst k0.
        rewrite str_eqb_sym, E. reflexivity.
      * exact IH.
Qed.

Lemma update_same (o : obj) k v : lookup o k = Some v -> update o k v = o.
Proof.
  induction o as [|[k0 v0] o IH]; cbn [update lookup]; [discriminate|].
  destruct (str_eqb k0 k) eqn:E.
  - intros H. injection H as ->. reflexivity.
  - intros H. rewrite IH by exact H. reflexivity.
Qed.

Lemma set_same (o : obj) k v : lookup o k = Some v -> set o k v = o.
Proof.
  intros H. unfold set. destruct (str_eqb k _); [reflexivity|].
  apply update_same. exact H.
Qed.

Lemma lookup_set (o : obj) k v k' :
  k <> chars "__proto__" ->
  lookup (set o k v) k' = if str_eqb k k' then Some v else lookup o k'.
Proof.
  intros H. unfold set. apply str_eqb_neq in H. rewrite H. apply lookup_update.
Qed.

Lemma lookup_set_other (o : obj) k v k' :
  k <> k' -> lookup (set o k v) k' = lookup o k'.
Proof.
  intros H. unfold set. destruct (str_eqb k _); [reflexivity|].
  rewrite lookup_update. apply str_eqb_neq in H. rewrite H. reflexivity.
Qed.

Lemma lookup_filter_key (f : str -> bool) (o : obj) k :
  lookup (filter (fun p => f (fst p)) o) k = if f k then lookup o k else None.
Proof.
  induction o as [|[k0 v0] o IH]; cbn [filter lookup fst].
  - destruct (f k); reflexivity.
  - destruct (f k0) eqn:F; cbn [lookup].
    + destruct (str_eqb k0 k) eqn:E; [|exact IH].
      apply str_eqb_eq in E. subst. rewrite F. reflexivity.
    + destruct (str_eqb k0 k) eqn:E; [|exact IH].
      apply str_eqb_eq in E. subst. rewrite IH, F. reflexivity.
Qed.

(** [Object.entries] lists every own property once. *)
Lemma In_insertByIndex e x l :
  In x (insertByIndex e l) <-> x = e \/ In x l.
Proof.
  induction l as [|h l IH]; cbn [insertByIndex In].
  - split; intros [H|H]; auto.
  - destruct (fst e <? fst h)%N; cbn [In]; [split; intros [H|H]; auto|].
    rewrite IH. tauto.
Qed.

Lemma In_indexed (o : obj) n p :
  In (n, p) (indexed o) <-> In p o /\ arrayIndex (fst p) = Some n.
Proof.
  induction o as [|[k v] o IH]; cbn [indexed In].
  - tauto.
  - destruct (arrayIndex k) as [m|] eqn:E.
    + rewrite In_insertByIndex, IH. split.
      * intros [H|[H1 H2]]; [injection H as -> ->; auto | auto].
      * intros [[H|H] H2]; [subst p; cbn [fst] in H2; left; congruence | auto].
    + rewrite IH. split; [tauto|].
      intros [[H|H] H2]; [subst p; cbn [fst] in H2; congruence | auto].
Qed.

Lemma In_entries (o : obj) p : In p (entries o) <-> In p o.
Proof.
  unfold entries, named. rewrite in_app_iff, in_map_iff, filter_In. split.
  - intros [[[n q] [H1 H2]]|[H _]]; [|exact H].
    cbn [snd] in H1. subst q. apply In_indexed in H2. tauto.
  - intros H. destruct (arrayIndex (fst p)) as [n|] eqn:E.
    + left. exists (n, p). split; [reflexivity|]. apply In_indexed. auto.
    + right. auto.
Qed.

Lemma In_keys (o : obj) k : In k (keys o) <-> In k (map fst o).
Proof.
  unfold keys. rewrite !in_map_iff. split; intros [p [H1 H2]]; exists p;
    (split; [exact H1 | apply In_entries; exact H2]).
Qed.

End JSObjectFacts.

(* ===================================================================== *)
(** * Facts about the regular expressions *)
(* ===================================================================== *)

Module RegExpFacts.

Import RegExp Text.

(** The literals of the module are what their patterns compile to. *)
Example literals_compile :
  compile (chars "var\((--[^),]+),?\)") = Normal Tailwind.varReference /\
  compile (chars "calc\(([\d.]+)([a-z]+) \* ([\d.]+)\)") = Normal Tailwind.calcProduct /\
  compile (chars "\:(?![^\[]*\])") = Normal Tailwind.variantColon /\
  compile (chars "-([a-z])") = Normal Tailwind.dashLetter /\
  compile (chars "[A-Z]") = Normal Tailwind.upperLetter /\
  compile (chars "\\") = Normal Tailwind.backslash.
Proof. vm_compute. repeat split. Qed.

Lemma clearCaps_nil (l : list (nat * str)) : clearCaps [] l = l.
Proof.
  unfold clearCaps. induction l as [|a l IH]; simpl; [reflexivity|].
  simpl in IH. rewrite IH. reflexivity.
Qed.

Lemma succ_neqb (i : nat) : (S i =? i) = false.
Proof. apply Nat.eqb_neq. lia. Qed.

Lemma orElse_none (a : option mstate) : orElse a (fun _ => None) = a.
Proof. destruct a; reflexivity. Qed.

Lemma repeatMatcher_step m gs greedy fuel lo hi x k :
  repeatMatcher m gs greedy (S fuel) lo hi x k
  = match hi with
    | Some 0 => k x
    | _ =>
        let d := fun y : mstate =>
          if (lo =? 0) && (idx y =? idx x) then None
          else repeatMatcher m gs greedy fuel (pred lo) (predMax hi) y k in
        let xr := mkState (rest x) (idx x) (clearCaps gs (caps x)) in
        if negb (lo =? 0) then m xr d
        else if greedy then orElse (m xr d) (fun _ => k x)
        else orElse (k x) (fun _ => m xr d)
    end.
Proof. reflexivity. Qed.

(** A greedy star over a one-character pattern. *)
Lemma repeat_star (p : ascii -> bool) (k : continuation) :
  forall fuel s i cs,
    length s < fuel ->
    repeatMatcher (matchChar p) [] true fuel 0 None (mkState s i cs) k
    = starGreedy p k s i cs.
Proof.
  induction fuel as [|fuel IH]; intros s i cs Hf; [lia|].
  rewrite repeatMatcher_step. cbv zeta. cbn [rest idx caps negb Nat.eqb andb pred predMax].
  rewrite clearCaps_nil. unfold matchChar at 1. cbn [rest].
  destruct s as [|c t]; [reflexivity|]. cbn [starGreedy].
  destruct (p c); [|reflexivity].
  unfold advance. cbn [rest idx caps tl].
  rewrite succ_neqb.
  rewrite IH by (simpl in Hf; lia). reflexivity.
Qed.

(** A greedy plus over a one-character pattern. *)
Lemma repeat_plus (p : ascii -> bool) (k : continuation) s i cs :
  repeatMatcher (matchChar p) [] true (S (1 + length s)) 1 None (mkState s i cs) k
  = match s with
    | c :: t => if p c then starGreedy p k t (S i) cs else None
    | [] => None
    end.
Proof.
  rewrite repeatMatcher_step. cbv zeta. cbn [rest idx caps negb Nat.eqb andb pred predMax].
  rewrite clearCaps_nil. unfold matchChar at 1. cbn [rest].
  destruct s as [|c t]; [reflexivity|].
  destruct (p c); [|reflexivity].
  unfold advance. cbn [rest idx caps tl].
  apply (repeat_star p k). simpl. lia.
Qed.

(** A greedy optional one-character pattern. *)
Lemma repeat_opt (p : ascii -> bool) (k : continuation) s i cs :
  repeatMatcher (matchChar p) [] true (S (0 + length s)) 0 (Some 1) (mkState s i cs) k
  = match s with
    | c :: t =>
        if p c then orElse (k (mkState t (S i) cs)) (fun _ => k (mkState s i cs))
        else k (mkState s i cs)
    | [] => k (mkState [] i cs)
    end.
Proof.
  rewrite repeatMatcher_step. cbv zeta. cbn [rest idx caps negb Nat.eqb andb pred predMax].
  rewrite clearCaps_nil. unfold matchChar at 1. cbn [rest].
  destruct s as [|c t]; [reflexivity|].
  destruct (p c); [|reflexivity].
  unfold advance. cbn [rest idx caps tl].
  rewrite succ_neqb. cbn [length Nat.add].
  rewrite repeatMatcher_step. reflexivity.
Qed.

(** When the continuation fails wherever the iterated character could
    still be taken, the star takes the whole run. *)
Lemma starGreedy_run (p : ascii -> bool) (k : continuation) :
  (forall c t i cs, p c = true -> k (mkState (c :: t) i cs) = None) ->
  forall s i cs,
    starGreedy p k s i cs
    = k (mkState (dropWhile p s) (i + length (takeWhile p s)) cs).
Proof.
  intros Hk. induction s as [|c t IH]; intros i cs; simpl.
  - rewrite Nat.add_0_r. reflexivity.
  - destruct (p c) eqn:E.
    + rewrite IH. rewrite (Hk c t i cs E). rewrite orElse_none.
      simpl. rewrite Nat.add_succ_r. reflexivity.
    + rewrite Nat.add_0_r. reflexivity.
Qed.


Import Tailwind.

Lemma starGreedy_ext (p q : ascii -> bool) (k : continuation) :
  (forall c, p c = q c) ->
  forall s i cs, starGreedy p k s i cs = starGreedy q k s i cs.
Proof.
  intros H. induction s as [|c t IH]; intros i cs; simpl; [reflexivity|].
  rewrite H, IH. reflexivity.
Qed.

Lemma firstn_takeWhile (p : ascii -> bool) (s : str) :
  firstn (length (takeWhile p s)) s = takeWhile p s.
Proof.
  induction s as [|c t IH]; simpl; [reflexivity|].
  destruct (p c); simpl; [rewrite IH|]; reflexivity.
Qed.

Lemma skipn_takeWhile (p : ascii -> bool) (s : str) :
  skipn (length (takeWhile p s)) s = dropWhile p s.
Proof.
  induction s as [|c t IH]; simpl; [reflexivity|].
  destruct (p c); simpl; [rewrite IH|]; reflexivity.
Qed.

Lemma closing_matcher (k : continuation) s i cs :
  repeatMatcher (matchChar (Ascii.eqb ",")) [] true
    (S (0 + length s)) 0 (Some 1) (mkState s i cs)
    (fun y => matchChar (Ascii.eqb ")") y k)
  = match closingAt s with
    | Some (n, u) => k (mkState u (i + n) cs)
    | None => None
    end.
Proof.
  etransitivity; [apply (repeat_opt (Ascii.eqb ",")) |].
  unfold closingAt, matchChar. cbn [rest].
  destruct s as [|c t]; [reflexivity|].
  destruct (Ascii.eqb "," c) eqn:Ec.
  - assert (Ep : Ascii.eqb ")" c = false)
      by (apply Ascii.eqb_eq in Ec; subst c; reflexivity).
    rewrite Ep. rewrite orElse_none.
    destruct t as [|d u]; [reflexivity|].
    unfold advance; cbn [rest idx caps tl].
    destruct (Ascii.eqb ")" d); [|reflexivity].
    do 2 f_equal. lia.
  - destruct (Ascii.eqb ")" c); [|reflexivity].
    unfold advance; cbn [rest idx caps tl]. do 2 f_equal. lia.
Qed.

Lemma nameChar_class c :
  classMatches true [CChar ")"; CChar ","] c = nameChar c.
Proof.
  unfold classMatches, nameChar. cbn [existsb citemMatches].
  rewrite orb_false_r. destruct (_ || _); reflexivity.
Qed.

Lemma matchAt_varReference i s :
  matchAt varReference i s
  = match referenceAt s with
    | Some (name, len) => Some (mkMatch i (firstn len s) [(1, name)])
    | None => None
    end.
Proof.
  unfold matchAt, varReference, referenceAt. cbn [expr matcher].
  unfold chars. cbn [list_ascii_of_string stripPrefix].
  repeat (unfold matchChar at 1; cbn [rest];
          destruct s as [|? s]; [reflexivity|];
          match goal with |- context [Ascii.eqb ?a ?c] =>
            destruct (Ascii.eqb a c) eqn:?; [|reflexivity] end;
          unfold advance at 1; cbn [rest idx caps tl]).
  unfold advance. cbn [rest idx caps tl groupsOf].
  change (fun (x : mstate) (k : continuation) => matchChar ?p x k)
    with (matchChar p).
  rewrite repeat_plus.
  destruct s as [|c t]; [reflexivity|].
  rewrite nameChar_class. cbn [takeWhile dropWhile].
  destruct (nameChar c) eqn:Ec; [|reflexivity].
  rewrite (starGreedy_ext _ nameChar _ nameChar_class).
  rewrite starGreedy_run.
  2:{ intros c' t' i' cs' Hc'. cbn [rest idx caps].
      rewrite closing_matcher. unfold closingAt.
      unfold nameChar in Hc'. apply negb_true_iff, orb_false_elim in Hc'.
      destruct Hc' as [H1 H2]. rewrite H1, H2. reflexivity. }
  cbn [rest idx caps]. rewrite closing_matcher.
  destruct (closingAt (dropWhile nameChar t)) as [[n u]|]; [|reflexivity].
  cbn [idx caps setCap filter].
  apply Ascii.eqb_eq in Heqb3, Heqb4. subst.
  f_equal. f_equal.
  - f_equal. cbn [length]. lia.
  - replace (S (S (S (S (S (S (S i)))))) + length (takeWhile nameChar t)
             - S (S (S (S i)))) with (3 + length (takeWhile nameChar t)) by lia.
    cbn [Nat.add firstn]. rewrite firstn_takeWhile. reflexivity.
Qed.


Lemma lookahead_closes s i cs :
  isSome (starGreedy (classMatches true [CChar "["])
            (fun y => matchChar (Ascii.eqb "]") y (fun z => Some z)) s i cs)
  = closesFirst s.
Proof.
  revert i. induction s as [|c t IH]; intros i; [reflexivity|].
  cbn [starGreedy closesFirst].
  unfold classMatches. cbn [existsb citemMatches]. rewrite orb_false_r.
  destruct (Ascii.eqb "[" c) eqn:Eo; cbn [xorb negb].
  - unfold matchChar. cbn [rest].
    assert (E : Ascii.eqb "]" c = false)
      by (apply Ascii.eqb_eq in Eo; subst c; reflexivity).
    rewrite E. reflexivity.
  - specialize (IH (S i)).
    destruct (starGreedy _ _ t (S i) cs) eqn:Es; cbn [orElse isSome] in *.
    + rewrite <- IH. destruct (Ascii.eqb "]" c); reflexivity.
    + unfold matchChar. cbn [rest]. rewrite <- IH.
      destruct (Ascii.eqb "]" c); reflexivity.
Qed.

Lemma matchAt_variantColon i s :
  matchAt variantColon i s
  = match s with
    | c :: t =>
        if Ascii.eqb ":" c && negb (closesFirst t)
        then Some (mkMatch i [c] [])
        else None
    | [] => None
    end.
Proof.
  unfold matchAt, variantColon. cbn [expr matcher].
  unfold matchChar at 1. cbn [rest].
  destruct s as [|c t]; [reflexivity|].
  destruct (Ascii.eqb ":" c); [|reflexivity]. cbn [andb].
  unfold advance. cbn [rest idx caps tl groupsOf].
  change (fun (x : mstate) (k : continuation) => matchChar ?p x k)
    with (matchChar p).
  rewrite repeat_star by (cbn [length]; lia).
  rewrite <- (lookahead_closes t (S i) []).
  destruct (starGreedy _ _ t (S i) []); cbn [isSome negb]; [reflexivity|].
  cbn [idx caps]. replace (S i - i) with 1 by lia. reflexivity.
Qed.

Lemma matchAt_backslash i s :
  matchAt backslash i s
  = match s with
    | c :: t => if Ascii.eqb "\" c then Some (mkMatch i [c] []) else None
    | [] => None
    end.
Proof.
  unfold matchAt, backslash. cbn [expr matcher].
  unfold matchChar at 1. cbn [rest].
  destruct s as [|c t]; [reflexivity|].
  destruct (Ascii.eqb "\" c); [|reflexivity].
  unfold advance. cbn [rest idx caps tl].
  replace (S i - i) with 1 by lia. reflexivity.
Qed.


Lemma numberChar_class c :
  classMatches false [CDigit false; CChar "."] c = numberChar c.
Proof.
  unfold classMatches, numberChar. cbn [existsb citemMatches xorb].
  rewrite orb_false_r. destruct (isDigit c), (Ascii.eqb "." c); reflexivity.
Qed.

Lemma lower_class c : classMatches false [CRange "a" "z"] c = isLower c.
Proof.
  unfold classMatches, isLower. cbn [existsb citemMatches xorb].
  rewrite orb_false_r. destruct (inRange "a" "z" c); reflexivity.
Qed.

Lemma numberChar_not_lower c : numberChar c = true -> isLower c = false.
Proof.
  unfold numberChar, isLower, isDigit, inRange. intros H.
  apply orb_true_iff in H. destruct H as [H|H].
  - apply andb_true_iff in H. destruct H as [_ H]. apply Nat.leb_le in H.
    apply andb_false_iff. left. apply Nat.leb_gt.
    change (code "9") with 57 in H. change (code "a") with 97. lia.
  - apply Ascii.eqb_eq in H. subst c. reflexivity.
Qed.

Lemma lower_not_space c : isLower c = true -> Ascii.eqb " " c = false.
Proof.
  intros H. destruct (Ascii.eqb " " c) eqn:E; [|reflexivity].
  apply Ascii.eqb_eq in E. subst c. discriminate H.
Qed.

Lemma numberChar_not_close c : numberChar c = true -> Ascii.eqb ")" c = false.
Proof.
  intros H. destruct (Ascii.eqb ")" c) eqn:E; [|reflexivity].
  apply Ascii.eqb_eq in E. subst c. discriminate H.
Qed.

Lemma matchAt_calcProduct i s :
  matchAt calcProduct i s
  = match productAt s with
    | Some (a, unit, b, len) =>
        Some (mkMatch i (firstn len s) [(3, b); (2, unit); (1, a)])
    | None => None
    end.
Proof.
  unfold matchAt, calcProduct, productAt. cbn [expr matcher].
  unfold chars. cbn [list_ascii_of_string stripPrefix].
  do 5 (unfold matchChar at 1; cbn [rest];
          destruct s as [|? s]; [reflexivity|];
          match goal with |- context [Ascii.eqb ?a ?c] =>
            destruct (Ascii.eqb a c) eqn:?; [|reflexivity] end;
          unfold advance at 1; cbn [rest idx caps tl]).
  unfold advance. cbn [rest idx caps tl groupsOf].
  change (fun (x : mstate) (k : continuation) => matchChar ?p x k)
    with (matchChar p).
  rewrite repeat_plus.
  destruct s as [|c t]; [reflexivity|].
  rewrite numberChar_class. cbn [takeWhile dropWhile].
  destruct (numberChar c) eqn:Ec; [|reflexivity].
  rewrite (starGreedy_ext _ numberChar _ numberChar_class).
  rewrite starGreedy_run.
  2:{ intros c' t' i' cs' Hc'. cbn [rest idx caps].
      rewrite repeat_plus. rewrite lower_class.
      rewrite (numberChar_not_lower _ Hc'). reflexivity. }
  cbn [rest idx caps]. rewrite repeat_plus.
  set (t1 := dropWhile numberChar t).
  set (la := length (takeWhile numberChar t)).
  destruct t1 as [|c1 u1] eqn:Et1; [reflexivity|].
  rewrite lower_class. cbn [takeWhile dropWhile].
  destruct (isLower c1) eqn:Ec1; [|reflexivity].
  rewrite (starGreedy_ext _ isLower _ lower_class).
  rewrite starGreedy_run.
  2:{ intros c' t' i' cs' Hc'. cbn [rest idx caps].
      unfold matchChar at 1. cbn [rest].
      rewrite (lower_not_space _ Hc'). reflexivity. }
  cbn [rest idx caps].
  set (t2 := dropWhile isLower u1).
  set (lu := length (takeWhile isLower u1)).
  do 3 (unfold matchChar at 1; cbn [rest];
          destruct t2 as [|? t2]; [reflexivity|];
          match goal with |- context [Ascii.eqb ?a ?c] =>
            destruct (Ascii.eqb a c) eqn:?; [|reflexivity] end;
          unfold advance at 1; cbn [rest idx caps tl]).
  unfold advance. cbn [rest idx caps tl].
  rewrite repeat_plus.
  destruct t2 as [|c2 u2]; [reflexivity|].
  rewrite numberChar_class. cbn [takeWhile dropWhile].
  destruct (numberChar c2) eqn:Ec2; [|reflexivity].
  rewrite (starGreedy_ext _ numberChar _ numberChar_class).
  rewrite starGreedy_run.
  2:{ intros c' t' i' cs' Hc'. cbn [rest idx caps].
      unfold matchChar at 1. cbn [rest].
      rewrite (numberChar_not_close _ Hc'). reflexivity. }
  cbn [rest idx caps].
  set (t3 := dropWhile numberChar u2).
  set (lb := length (takeWhile numberChar u2)).
  unfold matchChar at 1. cbn [rest].
  destruct t3 as [|c3 u3] eqn:Et3; [reflexivity|].
  destruct (Ascii.eqb ")" c3); [|reflexivity].
  unfold advance. cbn [rest idx caps tl setCap filter fst Nat.eqb negb].
  f_equal. f_equal.
  - f_equal. cbn [length]. subst la lu lb. lia.
  - assert (F : forall (n : nat) (x x' : str) (l l' : list (nat * str)),
               x = x' -> l = l' -> (n, x) :: l = (n, x') :: l')
      by (intros; subst; reflexivity).
    apply F; [|apply F; [|apply F; [|reflexivity]]].
    + match goal with |- firstn ?n _ = _ => replace n with (S lb) by lia end.
      cbn [firstn]. subst lb. rewrite firstn_takeWhile. reflexivity.
    + match goal with |- firstn ?n _ = _ => replace n with (S lu) by lia end.
      cbn [firstn]. subst lu. rewrite firstn_takeWhile. reflexivity.
    + match goal with |- firstn ?n _ = _ => replace n with (S la) by lia end.
      cbn [firstn]. subst la. rewrite firstn_takeWhile. reflexivity.
Qed.

(** ** Global replacement as one pass *)

Lemma matchAt_index re i s m : matchAt re i s = Some m -> index m = i.
Proof.
  unfold matchAt. destruct (matcher _ _ _); intros H; [|discriminate].
  injection H as <-. reflexivity.
Qed.

Lemma scan_index re : forall s i k m ms,
  scan re i s k = m :: ms -> i <= index m.
Proof.
  induction s as [|c t IH]; intros i k m ms H.
  - destruct k; cbn [scan] in H; [|discriminate].
    destruct (matchAt re i []) eqn:E; [|discriminate].
    injection H as <- _. rewrite (matchAt_index _ _ _ _ E). lia.
  - destruct k; cbn [scan] in H.
    + destruct (matchAt re i (c :: t)) eqn:E.
      * injection H as <- _. rewrite (matchAt_index _ _ _ _ E). lia.
      * apply IH in H. lia.
    + apply IH in H. lia.
Qed.

Lemma replacePieces_shift f (s : str) pos c ms :
  nth_error s pos = Some c ->
  (forall m ms', ms = m :: ms' -> S pos <= index m) ->
  replacePieces f s pos ms = c :: replacePieces f s (S pos) ms.
Proof.
  intros Hc Hm.
  assert (Hs : skipn pos s = c :: skipn (S pos) s).
  { clear Hm. revert pos Hc. induction s as [|a s IH]; intros [|pos] Hc;
      try discriminate.
    - injection Hc as ->. reflexivity.
    - cbn [nth_error] in Hc. apply IH in Hc. exact Hc. }
  destruct ms as [|m ms']; cbn [replacePieces].
  - exact Hs.
  - specialize (Hm m ms' eq_refl). rewrite Hs.
    replace (index m - pos) with (S (index m - S pos)) by lia.
    reflexivity.
Qed.

Lemma replacePieces_scan re f : forall s pre k,
  replacePieces f (pre ++ s) (length pre + k) (scan re (length pre) s k)
  = rewriteScan re f (length pre) s k.
Proof.
  induction s as [|c t IH]; intros pre k.
  - destruct k; cbn [scan rewriteScan].
    + destruct (matchAt re (length pre) []) as [m|] eqn:E; cbn [replacePieces].
      * rewrite (matchAt_index _ _ _ _ E). rewrite Nat.add_0_r, Nat.sub_diag.
        cbn [firstn app]. unfold endIndex. rewrite (matchAt_index _ _ _ _ E).
        rewrite app_nil_r. rewrite skipn_all2 by lia. rewrite app_nil_r.
        reflexivity.
      * rewrite app_nil_r, Nat.add_0_r. apply skipn_all.
    + cbn [replacePieces]. rewrite app_nil_r. apply skipn_all2. lia.
  - assert (Hpre : pre ++ c :: t = (pre ++ [c]) ++ t)
      by (rewrite <- app_assoc; reflexivity).
    assert (Hlen : length (pre ++ [c]) = S (length pre))
      by (rewrite length_app; cbn [length]; lia).
    assert (Hnth : nth_error (pre ++ c :: t) (length pre) = Some c).
    { rewrite nth_error_app2 by lia. rewrite Nat.sub_diag. reflexivity. }
    destruct k; cbn [scan rewriteScan].
    + rewrite Nat.add_0_r.
      destruct (matchAt re (length pre) (c :: t)) as [m|] eqn:E.
      * cbn [replacePieces]. rewrite (matchAt_index _ _ _ _ E).
        rewrite Nat.sub_diag. cbn [firstn app]. f_equal.
        unfold endIndex. rewrite (matchAt_index _ _ _ _ E).
        destruct (length (matched m)) as [|n]; cbn [pred].
        -- rewrite Nat.add_0_r.
           rewrite (replacePieces_shift f _ _ c _ Hnth).
           ++ f_equal. rewrite Hpre, <- Hlen.
              rewrite <- (Nat.add_0_r (length (pre ++ [c]))) at 1.
              apply IH.
           ++ intros m' ms' Hm'. apply scan_index in Hm'. exact Hm'.
        -- rewrite Hpre. replace (length pre + S n) with (length (pre ++ [c]) + n) by lia.
           rewrite <- Hlen. apply IH.
      * rewrite (replacePieces_shift f _ _ c _ Hnth).
        -- f_equal. rewrite Hpre, <- Hlen.
           rewrite <- (Nat.add_0_r (length (pre ++ [c]))) at 1.
           apply IH.
        -- intros m' ms' Hm'. apply scan_index in Hm'. exact Hm'.
    + rewrite Hpre. replace (length pre + S k) with (length (pre ++ [c]) + k) by lia.
      rewrite <- Hlen. apply IH.
Qed.

(** A global replacement goes through the text once, from left to
    right. *)
Lemma replaceAll_rewriteScan re f s :
  replaceAll re s f = rewriteScan re f 0 s 0.
Proof.
  unfold replaceAll, matchAll.
  exact (replacePieces_scan re f s [] 0).
Qed.


(** ** The regular expressions of the module, in terms of the text *)

Lemma split_variantColon s : RegExp.split variantColon s = cutAtColons s [].
Proof.
  assert (H : forall s i cur, splitScan variantColon i s cur 0 = cutAtColons s cur).
  { clear s. induction s as [|c t IH]; intros i cur; [reflexivity|].
    cbn [splitScan cutAtColons]. rewrite matchAt_variantColon.
    destruct (Ascii.eqb ":" c && negb (closesFirst t)).
    - cbn [matched length]. rewrite IH. destruct cur; reflexivity.
    - apply IH. }
  destruct s as [|c t]; [reflexivity|]. apply H.
Qed.

Lemma join_cons (sep a : str) (l : list str) :
  l <> [] -> join sep (a :: l) = a ++ sep ++ join sep l.
Proof. destruct l; [congruence | reflexivity]. Qed.

Lemma cutAtColons_nonempty s cur : cutAtColons s cur <> [].
Proof.
  revert cur. induction s as [|c t IH]; intros cur; cbn [cutAtColons].
  - discriminate.
  - destruct (_ && _); [discriminate | apply IH].
Qed.

Lemma join_cutAtColons s : forall cur,
  join [":"] (cutAtColons s cur) = rev cur ++ s.
Proof.
  induction s as [|c t IH]; intros cur; cbn [cutAtColons].
  - cbn [join]. rewrite app_nil_r. reflexivity.
  - destruct (Ascii.eqb ":" c && negb (closesFirst t)) eqn:E.
    + rewrite join_cons by apply cutAtColons_nonempty.
      rewrite IH. apply andb_true_iff in E. destruct E as [E _].
      apply Ascii.eqb_eq in E. subst c. reflexivity.
    + rewrite IH. cbn [rev]. rewrite <- app_assoc. reflexivity.
Qed.

(** On a text whose brackets pair up without nesting, the colons after
    which no bracket closes first are the colons outside the pairs. *)
Lemma closesFirst_flat s : forall inside,
  flatBrackets inside s = true -> closesFirst s = inside \/ 
  (forallb (fun c => negb (Ascii.eqb "[" c || Ascii.eqb "]" c)) s = true /\ inside = false).
Proof.
  induction s as [|c t IH]; intros inside H; cbn [flatBrackets closesFirst forallb] in *.
  - right. split; [reflexivity|]. destruct inside; [discriminate | reflexivity].
  - destruct (Ascii.eqb "[" c) eqn:Eo.
    + apply andb_true_iff in H. destruct H as [Hi _].
      left. destruct inside; [discriminate | reflexivity].
    + destruct (Ascii.eqb "]" c) eqn:Ec.
      * apply andb_true_iff in H. destruct H as [Hi _]. left. symmetry. exact Hi.
      * cbn [orb negb andb]. apply IH in H. exact H.
Qed.

Lemma closesFirst_plain s :
  forallb (fun c => negb (Ascii.eqb "[" c || Ascii.eqb "]" c)) s = true ->
  closesFirst s = false.
Proof.
  induction s as [|c t IH]; cbn [forallb closesFirst]; [reflexivity|].
  intros H. apply andb_true_iff in H. destruct H as [Hc Ht].
  apply negb_true_iff, orb_false_elim in Hc. destruct Hc as [-> ->]. auto.
Qed.

Lemma closesFirst_inside s inside :
  flatBrackets inside s = true -> closesFirst s = inside.
Proof.
  intros H. destruct (closesFirst_flat s inside H) as [E|[E ->]];
    [exact E | apply closesFirst_plain; exact E].
Qed.

Lemma cutAtColons_flat s : forall inside cur,
  flatBrackets inside s = true ->
  cutAtColons s cur = cutOutsideBrackets (if inside then 1 else 0) s cur.
Proof.
  induction s as [|c t IH]; intros inside cur H; [reflexivity|].
  cbn [cutAtColons cutOutsideBrackets]. cbn [flatBrackets] in H.
  destruct (Ascii.eqb "[" c) eqn:Eo.
  - apply andb_true_iff in H. destruct H as [Hi H].
    assert (E : Ascii.eqb ":" c = false)
      by (apply Ascii.eqb_eq in Eo; subst c; reflexivity).
    rewrite E. cbn [andb]. destruct inside; [discriminate Hi|].
    exact (IH true _ H).
  - destruct (Ascii.eqb "]" c) eqn:Ec.
    + apply andb_true_iff in H. destruct H as [Hi H].
      assert (E : Ascii.eqb ":" c = false)
        by (apply Ascii.eqb_eq in Ec; subst c; reflexivity).
      rewrite E. cbn [andb]. subst inside. exact (IH false _ H).
    + rewrite (closesFirst_inside t inside H).
      assert (E : negb inside = ((if inside then 1 else 0) =? 0))
        by (destruct inside; reflexivity).
      rewrite <- E.
      destruct (Ascii.eqb ":" c && negb inside);
        [f_equal|]; apply IH; exact H.
Qed.

Lemma stripPrefix_app p : forall s u, stripPrefix p s = Some u -> s = p ++ u.
Proof.
  induction p as [|a p IH]; intros s u H; cbn [stripPrefix] in H.
  - injection H as ->. reflexivity.
  - destruct s as [|b s]; [discriminate|].
    destruct (Ascii.eqb a b) eqn:E; [|discriminate].
    apply Ascii.eqb_eq in E. subst b. cbn [app]. f_equal. apply IH. exact H.
Qed.

Lemma stripPrefix_same p s : stripPrefix p (p ++ s) = Some s.
Proof.
  induction p as [|a p IH]; cbn [stripPrefix app]; [reflexivity|].
  rewrite Ascii.eqb_refl. exact IH.
Qed.

Lemma closingAt_length s n u : closingAt s = Some (n, u) -> length s = n + length u.
Proof.
  unfold closingAt. destruct s as [|c t]; [discriminate|].
  destruct (Ascii.eqb "," c).
  - destruct t as [|d v]; [discriminate|].
    destruct (Ascii.eqb ")" d); [|discriminate].
    intros H. injection H as <- <-. reflexivity.
  - destruct (Ascii.eqb ")" c); [|discriminate].
    intros H. injection H as <- <-. reflexivity.
Qed.

Lemma referenceAt_length s name len :
  referenceAt s = Some (name, len) -> 1 <= len <= length s.
Proof.
  unfold referenceAt. destruct (stripPrefix _ s) as [u|] eqn:Ep; [|discriminate].
  apply stripPrefix_app in Ep. subst s.
  pose proof (f_equal (@length ascii) (takeWhile_dropWhile nameChar u)) as Hu.
  rewrite length_app in Hu.
  destruct (takeWhile nameChar u) eqn:Et; [discriminate|].
  destruct (closingAt _) as [[n v]|] eqn:Ecl; [|discriminate].
  intros H. injection H as _ <-. apply closingAt_length in Ecl.
  rewrite length_app. unfold chars. cbn [list_ascii_of_string length] in *. lia.
Qed.

(** The names that [matchAll] finds are the references of the text. *)
Lemma scan_references : forall s i k,
  map (fun m => captured m 1) (scan varReference i s k) = referencesFrom s k.
Proof.
  induction s as [|c t IH]; intros i k.
  - destruct k; cbn [scan referencesFrom]; [|reflexivity].
    rewrite matchAt_varReference. reflexivity.
  - destruct k; cbn [scan referencesFrom]; [|apply IH].
    rewrite matchAt_varReference.
    destruct (referenceAt (c :: t)) as [[name len]|] eqn:E; [|apply IH].
    cbn [map]. f_equal. rewrite IH. cbn [matched]. f_equal.
    apply referenceAt_length in E.
    rewrite length_firstn. f_equal. lia.
Qed.

Lemma matchAll_references s :
  map (fun m => captured m 1) (matchAll varReference s) = references s.
Proof. apply scan_references. Qed.

(** [simplify] as one pass over the text. *)
Lemma productAt_length s a unit b len :
  productAt s = Some (a, unit, b, len) -> 1 <= len <= length s.
Proof.
  unfold productAt. destruct (stripPrefix _ s) as [u|] eqn:Ep; [|discriminate].
  apply stripPrefix_app in Ep. subst s.
  pose proof (f_equal (@length ascii) (takeWhile_dropWhile numberChar u)) as H1.
  pose proof (f_equal (@length ascii)
                (takeWhile_dropWhile isLower (dropWhile numberChar u))) as H2.
  rewrite length_app in H1, H2.
  destruct (takeWhile numberChar u) eqn:Ea; [discriminate|].
  destruct (takeWhile isLower _) eqn:Eu; [discriminate|].
  destruct (stripPrefix _ (dropWhile isLower _)) as [t2|] eqn:Em; [|discriminate].
  pose proof (f_equal (@length ascii) (takeWhile_dropWhile numberChar t2)) as H3.
  rewrite length_app in H3.
  destruct (takeWhile numberChar t2) eqn:Eb; [discriminate|].
  destruct (stripPrefix _ (dropWhile numberChar t2)) as [t3|] eqn:Ec; [|discriminate].
  intros H. injection H as _ _ _ <-.
  apply stripPrefix_app in Em, Ec.
  apply (f_equal (@length ascii)) in Em, Ec. rewrite length_app in Em, Ec.
  rewrite length_app. unfold chars in *. cbn [list_ascii_of_string length] in *. lia.
Qed.

Lemma simplify_simplifyFrom s : simplify s = simplifyFrom s 0.
Proof.
  unfold simplify. rewrite replaceAll_rewriteScan.
  set (f := fun m : jsmatch => _).
  assert (H : forall s i k, rewriteScan calcProduct f i s k = simplifyFrom s k).
  { clear s. induction s as [|c t IH]; intros i k.
    - destruct k; cbn [rewriteScan simplifyFrom]; [|reflexivity].
      rewrite matchAt_calcProduct. reflexivity.
    - destruct k; cbn [rewriteScan simplifyFrom]; [|apply IH].
      rewrite matchAt_calcProduct.
      destruct (productAt (c :: t)) as [[[[a unit] b] len]|] eqn:E.
      + apply productAt_length in E. cbn [matched].
        rewrite length_firstn.
        replace (Nat.min len (length (c :: t))) with (S (pred len)) by lia.
        rewrite IH. reflexivity.
      + f_equal. apply IH. }
  apply H.
Qed.

Lemma noProduct_simplifyFrom s : noProduct s = true -> simplifyFrom s 0 = s.
Proof.
  induction s as [|c t IH]; [reflexivity|].
  cbn [noProduct simplifyFrom].
  destruct (productAt (c :: t)); [discriminate|].
  intros H. rewrite IH by exact H. reflexivity.
Qed.

(** [cleanSelector] *)
Lemma cleanSelector_filter s :
  cleanSelector s = tl (filter (fun c => negb (Ascii.eqb "\" c)) s).
Proof.
  unfold cleanSelector. rewrite replaceAll_rewriteScan. f_equal.
  generalize 0 at 1.
  induction s as [|c t IH]; intros i.
  - cbn [rewriteScan filter]. rewrite matchAt_backslash. reflexivity.
  - cbn [rewriteScan filter]. rewrite matchAt_backslash.
    destruct (Ascii.eqb "\" c); cbn [negb matched length app].
    + apply IH.
    + f_equal. apply IH.
Qed.



(** ** The pattern built from the name of a variable *)

Lemma plain_no_quantifier c s :
  isSyntaxChar c = false -> parseQuantifier (c :: s) = None.
Proof.
  intros H. unfold parseQuantifier.
  destruct c as [[] [] [] [] [] [] [] []]; try reflexivity; discriminate H.
Qed.

Lemma parse_plain : forall name fuel tail n acc,
  plainName name = true ->
  parseQuantifier tail = None ->
  parseDisjunction (length name + fuel) (name ++ tail) n acc
  = parseDisjunction fuel tail n (rev (map RChar name) ++ acc).
Proof.
  induction name as [|c name IH]; intros fuel tail n acc Hp Ht; [reflexivity|].
  cbn [plainName forallb] in Hp. apply andb_true_iff in Hp. destruct Hp as [Hc Hp].
  cbn [length Nat.add app parseDisjunction]. rewrite Hc.
  assert (Hq : parseQuantifier (name ++ tail) = None).
  { destruct name as [|d name']; [exact Ht|].
    cbn [forallb] in Hp. apply andb_true_iff in Hp. destruct Hp as [Hd _].
    apply plain_no_quantifier. apply negb_true_iff. exact Hd. }
  unfold quantified. rewrite Hq. cbn [bind fst snd].
  rewrite IH by assumption. cbn [map rev]. rewrite <- app_assoc. reflexivity.
Qed.

Lemma parse_char c fuel s n acc :
  isSyntaxChar c = false -> parseQuantifier s = None ->
  parseDisjunction (S fuel) (c :: s) n acc
  = parseDisjunction fuel s n (RChar c :: acc).
Proof.
  intros Hc Hq. cbn [parseDisjunction]. rewrite Hc. cbn [negb].
  unfold quantified. rewrite Hq. reflexivity.
Qed.

Lemma parse_escaped_paren fuel s n acc :
  parseQuantifier s = None ->
  parseDisjunction (S fuel) ("\" :: "(" :: s) n acc
  = parseDisjunction fuel s n (RChar "(" :: acc).
Proof.
  intros Hq. cbn [parseDisjunction].
  change (isSyntaxChar "\") with true. cbn [negb].
  change (Ascii.eqb "\" ")") with false.
  change (Ascii.eqb "\" "|") with false.
  change (Ascii.eqb "\" "^") with false.
  change (Ascii.eqb "\" "$") with false.
  change (Ascii.eqb "\" ".") with false.
  change (Ascii.eqb "\" "\") with true.
  cbv iota. 
  change (parseAtomEscape ("(" :: s)) with (@Normal (regex * str) (RChar "(", s)).
  cbn [bind fst snd]. unfold quantified. rewrite Hq. reflexivity.
Qed.

Lemma parse_suffix acc :
  parseDisjunction 11 (chars ",?\)(\s*)") 0 acc
  = Normal (seqOf (rev (whiteSpaceGroup :: RChar ")" ::
                        RQuant 0 (Some 1) true (RChar ",") :: acc)), [], 1).
Proof. reflexivity. Qed.

Lemma compile_referencePattern name :
  plainName name = true ->
  compile (referencePattern name) = Normal (referenceRegex name).
Proof.
  intros Hp. unfold compile, referencePattern.
  replace (S (length (chars "var\(" ++ name ++ chars ",?\)(\s*)")))
    with (4 + (length name + 11))
    by (rewrite !length_app; unfold chars; cbn [list_ascii_of_string length]; lia).
  assert (Hq : parseQuantifier (name ++ chars ",?\)(\s*)") = None).
  { destruct name as [|d name']; [reflexivity|].
    cbn [plainName forallb] in Hp. apply andb_true_iff in Hp. destruct Hp as [Hd _].
    apply plain_no_quantifier. apply negb_true_iff. exact Hd. }
  unfold chars at 1. cbn [list_ascii_of_string app Nat.add].
  rewrite !parse_char by reflexivity.
  rewrite parse_escaped_paren by exact Hq.
  rewrite parse_plain by (first [assumption | reflexivity]).
  rewrite parse_suffix. cbn [bind]. unfold referenceRegex. do 2 f_equal.
  cbn [rev]. rewrite !rev_app_distr, rev_involutive. cbn [rev app].
  rewrite <- !app_assoc. reflexivity.
Qed.
Lemma matcher_chars (l : str) (R : list regex) : forall x k,
  matcher (seqOf (map RChar l ++ R)) x k
  = match stripPrefix l (rest x) with
    | Some t => matcher (seqOf R) (mkState t (idx x + length l) (caps x)) k
    | None => None
    end.
Proof.
  induction l as [|a l IH]; intros x k.
  - cbn [map app stripPrefix length]. rewrite Nat.add_0_r. destruct x; reflexivity.
  - cbn [map app seqOf matcher]. unfold matchChar. cbn [stripPrefix].
    destruct (rest x) as [|b s] eqn:Er; [reflexivity|].
    destruct (Ascii.eqb a b); [|reflexivity].
    rewrite IH. unfold advance. rewrite Er. cbn [rest idx caps tl length].
    rewrite Nat.add_succ_r. reflexivity.
Qed.

Lemma starGreedy_some (p : ascii -> bool) (g : mstate -> mstate) : forall s i cs,
  starGreedy p (fun y => Some (g y)) s i cs
  = Some (g (mkState (dropWhile p s) (i + length (takeWhile p s)) cs)).
Proof.
  induction s as [|c t IH]; intros i cs; cbn [starGreedy dropWhile takeWhile length].
  - rewrite Nat.add_0_r. reflexivity.
  - destruct (p c).
    + rewrite IH. cbn [orElse length]. rewrite Nat.add_succ_r. reflexivity.
    + rewrite Nat.add_0_r. reflexivity.
Qed.

Lemma space_class c : classMatches false [CSpace false] c = isWhiteSpace c.
Proof.
  unfold classMatches. cbn [existsb citemMatches xorb].
  rewrite orb_false_r. destruct (isWhiteSpace c); reflexivity.
Qed.

Lemma matchAt_referenceRegex name i s :
  matchAt (referenceRegex name) i s
  = match occurrenceAt name s with
    | Some (len, ws) => Some (mkMatch i (firstn (len + length ws) s) [(1, ws)])
    | None => None
    end.
Proof.
  unfold matchAt, referenceRegex, occurrenceAt. cbn [expr].
  rewrite app_assoc, <- map_app. rewrite matcher_chars. cbn [rest idx caps].
  destruct (stripPrefix (chars "var(" ++ name) s) as [t|] eqn:Ep; [|reflexivity].
  cbn [seqOf matcher groupsOf].
  change (fun (x : mstate) (k : continuation) => matchChar ?p x k)
    with (matchChar p).
  rewrite closing_matcher.
  destruct (closingAt t) as [[n u]|] eqn:Ec; [|reflexivity].
  unfold whiteSpaceGroup. cbn [matcher rest idx caps groupsOf].
  change (fun (x : mstate) (k : continuation) => matchChar ?p x k)
    with (matchChar p).
  rewrite repeat_star by lia.
  rewrite (starGreedy_ext _ isWhiteSpace _ space_class).
  rewrite (starGreedy_some isWhiteSpace
             (fun y => mkState (rest y) (idx y)
                (setCap 1 (firstn (idx y - (i + length (chars "var(" ++ name) + n)) u)
                   (caps y)))).
  cbn [rest idx caps setCap filter].
  apply stripPrefix_app in Ep. apply closingAt_length in Ec.
  f_equal. f_equal.
  - f_equal. rewrite length_app. unfold chars. cbn [list_ascii_of_string length]. lia.
  - unfold setCap. cbn [filter].
    match goal with |- context [firstn ?n _] =>
      replace n with (length (takeWhile isWhiteSpace u)) by lia end.
    rewrite firstn_takeWhile. reflexivity.
Qed.


(** ** Replacement of the first occurrence *)

Lemma getSubstitution_char fuel re s m c t :
  Ascii.eqb "$" c = false ->
  getSubstitution (S fuel) re s m (c :: t) = c :: getSubstitution fuel re s m t.
Proof.
  intros H. cbn [getSubstitution].
  destruct c as [[] [] [] [] [] [] [] []]; try reflexivity; discriminate H.
Qed.

Lemma getSubstitution_dollarFree re s m ws : forall new fuel,
  ngroups re = 1 ->
  capture m 1 = Some ws ->
  dollarFree new = true ->
  getSubstitution (length new + S (S fuel)) re s m (new ++ chars "$1") = new ++ ws.
Proof.
  intros new fuel Hn Hc. induction new as [|c new IH]; intros Hd.
  - cbn [length Nat.add app chars list_ascii_of_string getSubstitution].
    change (isDigit "1") with true. cbv iota.
    change (code "1" - 48) with 1. rewrite Hn, Hc.
    cbn [Nat.leb andb]. apply app_nil_r.
  - cbn [dollarFree forallb] in Hd. apply andb_true_iff in Hd.
    destruct Hd as [Hc' Hd]. apply negb_true_iff in Hc'.
    cbn [length Nat.add app]. rewrite getSubstitution_char by exact Hc'.
    rewrite IH by exact Hd. reflexivity.
Qed.

Lemma expand_dollarFree re s m ws new :
  ngroups re = 1 -> capture m 1 = Some ws -> dollarFree new = true ->
  expand re s m (new ++ chars "$1") = new ++ ws.
Proof.
  intros Hn Hc Hd. unfold expand.
  replace (S (length (new ++ chars "$1"))) with (length new + S (S 1))
    by (rewrite length_app; unfold chars; cbn [list_ascii_of_string length]; lia).
  apply getSubstitution_dollarFree; assumption.
Qed.

Lemma occurrenceAt_shape name s len ws :
  occurrenceAt name s = Some (len, ws) ->
  len <= length s /\ ws = takeWhile isWhiteSpace (skipn len s).
Proof.
  unfold occurrenceAt.
  destruct (stripPrefix _ s) as [t|] eqn:Ep; [|discriminate].
  destruct (closingAt t) as [[n u]|] eqn:Ec; [|discriminate].
  intros H. injection H as <- <-.
  apply stripPrefix_app in Ep. subst s.
  pose proof (closingAt_length _ _ _ Ec) as Hl.
  assert (Hu : u = skipn n t).
  { unfold closingAt in Ec. destruct t as [|c t']; [discriminate|].
    destruct (Ascii.eqb "," c).
    - destruct t' as [|d v]; [discriminate|].
      destruct (Ascii.eqb ")" d); [|discriminate].
      injection Ec as <- <-. reflexivity.
    - destruct (Ascii.eqb ")" c); [|discriminate].
      injection Ec as <- <-. reflexivity. }
  assert (Hlen : length (chars "var(" ++ name) = 4 + length name)
    by (rewrite length_app; reflexivity).
  split.
  - rewrite length_app. lia.
  - rewrite skipn_app. rewrite skipn_all2 by lia. cbn [app].
    rewrite Hu. do 2 f_equal. lia.
Qed.

(** Replacing the first match of the pattern built from a plain name is
    rewriting the first occurrence of the reference in the text. *)
Lemma replaceFirst_rewriteFirst name new s :
  dollarFree new = true ->
  replaceFirst (referenceRegex name) s
    (match new with [] => [] | _ => new ++ chars "$1" end)
  = rewriteFirst name new s.
Proof.
  intros Hd. unfold replaceFirst, exec.
  set (re := referenceRegex name).
  set (template := match new with [] => [] | _ => new ++ chars "$1" end).
  assert (H : forall s pre,
    match search re (length pre) s with
    | Some m => firstn (index m) (pre ++ s) ++ expand re (pre ++ s) m template
                ++ skipn (endIndex m) (pre ++ s)
    | None => pre ++ s
    end = pre ++ rewriteFirst name new s).
  { clear s. induction s as [|c t IH]; intros pre.
    - cbn [search rewriteFirst]. unfold re. rewrite matchAt_referenceRegex.
      assert (E : occurrenceAt name [] = None) by reflexivity.
      rewrite E. reflexivity.
    - cbn [search rewriteFirst]. unfold re at 1. rewrite matchAt_referenceRegex.
      destruct (occurrenceAt name (c :: t)) as [[len ws]|] eqn:E.
      + apply occurrenceAt_shape in E. destruct E as [Hl Hw].
        unfold endIndex. cbn [index matched].
        rewrite firstn_app, Nat.sub_diag, firstn_all. cbn [firstn]. rewrite app_nil_r.
        f_equal.
        rewrite length_firstn.
        assert (Hws : length ws <= length (skipn len (c :: t))).
        { rewrite Hw. rewrite <- (takeWhile_dropWhile isWhiteSpace (skipn len (c :: t))) at 2.
          rewrite length_app. lia. }
        rewrite length_skipn in Hws.
        replace (Nat.min (len + length ws) (length (c :: t))) with (len + length ws) by lia.
        rewrite skipn_app. rewrite skipn_all2 by lia. cbn [app].
        replace (length pre + (len + length ws) - length pre) with (len + length ws) by lia.
        unfold template. destruct new as [|n0 new'].
        * reflexivity.
        * rewrite (expand_dollarFree re _ _ ws (n0 :: new')); [| reflexivity | reflexivity | exact Hd].
          rewrite <- app_assoc. f_equal.
          rewrite Nat.add_comm, <- skipn_skipn.
          rewrite Hw.
          rewrite skipn_takeWhile. apply takeWhile_dropWhile.
      + specialize (IH (pre ++ [c])).
        rewrite length_app in IH. cbn [length] in IH.
        rewrite Nat.add_1_r in IH. rewrite <- !app_assoc in IH. exact IH. }
  exact (H s []).
Qed.

End RegExpFacts.

(* ===================================================================== *)
(** * Facts about the collapse of rules *)
(* ===================================================================== *)

Module CollapseFacts.
Import JSObjectFacts JSObject CSSOM Tailwind Text.

Lemma CSSRule_induction (P : CSSRule -> Prop) :
  (forall sel style rules, Forall P rules -> P (CSSStyleRule sel style rules)) ->
  (forall style, P (CSSNestedDeclarations style)) ->
  (forall name rules, Forall P rules -> P (CSSLayerBlockRule name rules)) ->
  (forall rules, Forall P rules -> P (CSSGroupingRule rules)) ->
  (forall name inherits initial, P (CSSPropertyRule name inherits initial)) ->
  P CSSOtherRule ->
  forall rule, P rule.
Proof.
  intros H1 H2 H3 H4 H5 H6. fix IH 1.
  intros [sel style rules|style|name rules|rules|name inh ini|].
  - apply H1. induction rules as [|r rs IHrs]; constructor; [apply IH | exact IHrs].
  - apply H2.
  - apply H3. induction rules as [|r rs IHrs]; constructor; [apply IH | exact IHrs].
  - apply H4. induction rules as [|r rs IHrs]; constructor; [apply IH | exact IHrs].
  - apply H5.
  - apply H6.
Qed.

Lemma collapseStyle_assign style target :
  collapseStyle style target = fold_left assign (styleAssignments style) target.
Proof.
  unfold collapseStyle, styleAssignments.
  generalize (filter nonEmpty (JSString.split ";" (cssText style))) as lines.
  intros lines. revert target.
  induction lines as [|part lines IH]; intros target; [reflexivity|].
  cbn [fold_left map]. rewrite IH. f_equal.
  unfold storeDeclaration, assign, assignment.
  destruct (declaration part) as [key v]. reflexivity.
Qed.

(** [collapseRule] makes the assignments of the rule, in order. *)
Lemma collapseRule_assign : forall rule target,
  collapseRule rule target = fold_left assign (assignments rule) target.
Proof.
  induction rule using CSSRule_induction; intros target;
    cbn [collapseRule assignments isGroupRule isStyleRule]; try reflexivity.
  - rewrite collapseStyle_assign, fold_left_app. f_equal.
    revert target. induction H as [|r rs Hr _ IHrs]; intros target; [reflexivity|].
    rewrite fold_left_app, <- Hr. apply IHrs.
  - apply collapseStyle_assign.
  - revert target. induction H as [|r rs Hr _ IHrs]; intros target; [reflexivity|].
    rewrite fold_left_app, <- Hr. apply IHrs.
  - revert target. induction H as [|r rs Hr _ IHrs]; intros target; [reflexivity|].
    rewrite fold_left_app, <- Hr. apply IHrs.
Qed.

Lemma lastAssigned_app key l1 l2 :
  lastAssigned key (l1 ++ l2)
  = match lastAssigned key l2 with
    | Some v => Some v
    | None => lastAssigned key l1
    end.
Proof.
  induction l1 as [|[k v] l1 IH]; cbn [app lastAssigned].
  - destruct (lastAssigned key l2); reflexivity.
  - rewrite IH. destruct (lastAssigned key l2); reflexivity.
Qed.

Lemma lookup_fold_assign key : forall l o,
  key <> chars "__proto__" ->
  lookup (fold_left assign l o) key
  = match lastAssigned key l with
    | Some v => Some v
    | None => lookup o key
    end.
Proof.
  induction l as [|[k v] l IH]; intros o Hk; [reflexivity|].
  cbn [fold_left lastAssigned]. rewrite IH by exact Hk.
  destruct (lastAssigned key l); [reflexivity|].
  unfold assign. cbn [fst snd].
  destruct (str_eqb k key) eqn:E.
  - apply str_eqb_eq in E. subst k. rewrite lookup_set by exact Hk.
    rewrite str_eqb_refl. reflexivity.
  - apply str_eqb_neq in E. apply lookup_set_other. exact E.
Qed.

Lemma collapse_rules active : forall rules style,
  fold_left (fun style rule =>
               if includes active (cleanSelector (selectorTextOf rule))
               then collapseRule rule style else style) rules style
  = fold_left assign
      (flat_map (fun rule => if isActive active rule then assignments rule else [])
                rules) style.
Proof.
  induction rules as [|r rules IH]; intros style; [reflexivity|].
  cbn [fold_left flat_map]. rewrite fold_left_app, IH. unfold isActive.
  destruct (includes active _); [rewrite collapseRule_assign|]; reflexivity.
Qed.

Lemma update_keys_new (o : obj) k v :
  ~ In k (map fst o) -> map fst (update o k v) = map fst o ++ [k].
Proof.
  induction o as [|[k' v'] o IH]; cbn [update map fst In app]; [reflexivity|].
  intros H. destruct (str_eqb k' k) eqn:E.
  - apply str_eqb_eq in E. tauto.
  - cbn [map fst]. f_equal. apply IH. tauto.
Qed.

(** Assignments keep an object well formed. *)
Lemma set_wellFormed (o : obj) k v : wellFormed o -> wellFormed (set o k v).
Proof.
  intros [Hn Hp]. unfold set.
  destruct (str_eqb k (chars "__proto__")) eqn:E; [split; assumption|].
  apply str_eqb_neq in E.
  destruct (in_dec (list_eq_dec ascii_dec) k (map fst o)) as [Hi|Hi].
  - unfold wellFormed. rewrite update_keys by exact Hi. split; assumption.
  - unfold wellFormed. rewrite update_keys_new by exact Hi. split.
    + apply NoDup_app; [exact Hn | repeat constructor; intros [] |].
      intros x Hx [<-|[]]. exact (Hi Hx).
    + rewrite in_app_iff. intros [H|[H|[]]]; [exact (Hp H) | congruence].
Qed.

(** The style object that [toObject] collapses the rules into is well
    formed. *)
Lemma collapseActive_wellFormed (this : TailwindRuntime) (active : list str) :
  wellFormed (collapseActive this active empty).
Proof.
  unfold collapseActive. rewrite collapse_rules.
  assert (H : forall l o, wellFormed o -> wellFormed (fold_left assign l o)).
  { induction l as [|a l IH]; intros o Ho; [exact Ho|].
    cbn [fold_left]. apply IH. apply set_wellFormed. exact Ho. }
  apply H. split; [constructor | intros []].
Qed.

End CollapseFacts.

(* ===================================================================== *)
(** * Facts about the substitution *)
(* ===================================================================== *)

Module SubstituteFacts.
Import JSObjectFacts RegExpFacts JSObject CSSOM Tailwind Text.

Lemma bind_Normal {A B} (c : completion A) (f : A -> completion B) b :
  bind c f = Normal b -> exists a, c = Normal a /\ f a = Normal b.
Proof.
  destruct c as [a| |]; cbn [bind]; [|discriminate|discriminate].
  intros H. exists a. auto.
Qed.

Lemma filter_filter {A} (f g : A -> bool) (l : list A) :
  filter f (filter g l) = filter (fun x => f x && g x) l.
Proof.
  induction l as [|a l IH]; cbn [filter]; [reflexivity|].
  destruct (g a); cbn [filter]; [|rewrite andb_false_r; exact IH].
  rewrite andb_true_r. destruct (f a); [rewrite IH|]; auto.
Qed.

Lemma filter_all {A} (f : A -> bool) (l : list A) :
  (forall x, In x l -> f x = true) -> filter f l = l.
Proof.
  induction l as [|a l IH]; cbn [filter In]; intros H; [reflexivity|].
  rewrite (H a) by auto. f_equal. apply IH. intros x Hx. apply H. auto.
Qed.

Section Prune.

Variable this : TailwindRuntime.

Lemma internal_eq k k' :
  str_eqb k k' = true -> internalProperty this k = internalProperty this k'.
Proof. intros H. apply str_eqb_eq in H. subst. reflexivity. Qed.

Lemma fold_pruneKey : forall ks style,
  fold_left (pruneKey this) ks style
  = filter (fun p => negb (internalProperty this (fst p) && includes ks (fst p)))
           style.
Proof.
  induction ks as [|k ks IH]; intros style.
  - cbn [fold_left]. symmetry. apply filter_all.
    intros x _. unfold includes. cbn [existsb]. rewrite andb_false_r. reflexivity.
  - cbn [fold_left]. rewrite IH.
    assert (Hp : pruneKey this style k
                 = if internalProperty this k then delete style k else style).
    { unfold pruneKey, internalProperty.
      destruct (findPropertyRule this k) as [prop|]; reflexivity. }
    rewrite Hp. unfold includes. cbn [existsb].
    destruct (internalProperty this k) eqn:Ik.
    + unfold delete. rewrite filter_filter. apply filter_ext.
      intros [k0 v0]. cbn [fst].
      destruct (str_eqb k0 k) eqn:E.
      * rewrite (internal_eq _ _ E), Ik. cbn. rewrite andb_false_r. reflexivity.
      * cbn [orb negb]. rewrite andb_true_r. reflexivity.
    + apply filter_ext. intros [k0 v0]. cbn [fst].
      destruct (str_eqb k0 k) eqn:E; [|reflexivity].
      rewrite (internal_eq _ _ E), Ik. reflexivity.
Qed.

(** The second loop keeps exactly the keys that are no internal
    property. *)
Lemma prune_filter style :
  prune this style
  = filter (fun p => negb (internalProperty this (fst p))) style.
Proof.
  unfold prune. rewrite fold_pruneKey. apply filter_ext_in.
  intros p Hp.
  assert (H : includes (keys style) (fst p) = true).
  { apply includes_In, In_keys, in_map. exact Hp. }
  rewrite H, andb_true_r. reflexivity.
Qed.

Lemma lookup_prune style key :
  lookup (prune this style) key
  = if internalProperty this key then None else lookup style key.
Proof.
  rewrite prune_filter.
  rewrite (lookup_filter_key (fun k => negb (internalProperty this k))).
  destruct (internalProperty this key); reflexivity.
Qed.

Lemma substituteEntries_keys : forall es style style',
  substituteEntries this es style = Normal style' ->
  (forall e, In e es -> In (fst e) (map fst style)) ->
  map fst style' = map fst style.
Proof.
  induction es as [|[key [|value]] es IH]; intros style style' H Hin.
  - injection H as <-. reflexivity.
  - discriminate H.
  - cbn [substituteEntries] in H. apply bind_Normal in H.
    destruct H as [value' [_ H]].
    assert (Hk : In key (map fst style)) by (apply (Hin (key, VString value)); left; reflexivity).
    apply IH in H.
    + rewrite H. apply set_keys. exact Hk.
    + intros e He. rewrite set_keys by exact Hk. apply Hin. right. exact He.
Qed.

Lemma simplifyEntries_keys : forall es style style',
  simplifyEntries es style = Normal style' ->
  (forall e, In e es -> In (fst e) (map fst style)) ->
  map fst style' = map fst style.
Proof.
  induction es as [|[key v] es IH]; intros style style' H Hin.
  - injection H as <-. reflexivity.
  - cbn [simplifyEntries] in H. apply bind_Normal in H.
    destruct H as [s1 [H1 H]]. unfold simplifyEntry in H1. cbn [fst snd] in H1.
    destruct v as [|v]; [discriminate|]. injection H1 as <-.
    assert (Hk : In key (map fst style)) by (apply (Hin (key, VString v)); left; reflexivity).
    apply IH in H.
    + rewrite H. apply set_keys. exact Hk.
    + intros e He. rewrite set_keys by exact Hk. apply Hin. right. exact He.
Qed.

Lemma entries_keys_In style e : In e (entries style) -> In (fst e) (map fst style).
Proof. intros H. apply (in_map fst). apply In_entries. exact H. Qed.

(** *** Resolution of the names of references *)

Lemma referencesFrom_dashed : forall s k name,
  In name (referencesFrom s k) -> startsWith (chars "--") name = true.
Proof.
  induction s as [|c t IH]; intros k name H.
  - destruct k; contradiction H.
  - destruct k; cbn [referencesFrom] in H; [|exact (IH _ _ H)].
    destruct (referenceAt (c :: t)) as [[n len]|] eqn:E; [|exact (IH _ _ H)].
    destruct H as [H|H]; [|exact (IH _ _ H)].
    subst n. unfold referenceAt in E.
    destruct (stripPrefix _ _) as [u|]; [|discriminate].
    destruct (takeWhile nameChar u); [discriminate|].
    destruct (closingAt _) as [[n v]|]; [|discriminate].
    injection E as <- _. reflexivity.
Qed.

Lemma references_dashed value name :
  In name (references value) -> startsWith (chars "--") name = true.
Proof. apply referencesFrom_dashed. Qed.

Lemma findPropertyRuleIn_name rules name prop :
  findPropertyRuleIn rules name = Some prop -> str_eqb (prop_name prop) name = true.
Proof.
  induction rules as [|r rules IH]; cbn [findPropertyRuleIn]; [discriminate|].
  destruct r as [| | | |n i v|]; try exact IH.
  destruct (str_eqb n name) eqn:E; [|exact IH].
  intros H. injection H as <-. exact E.
Qed.

(** A name that starts with two dashes is resolved without error, through
    the two tiers. *)
Lemma resolve_lookupName style name :
  startsWith (chars "--") name = true ->
  resolve this style name = Normal (lookupName this style name).
Proof.
  intros H. unfold resolve, lookupName, getValue.
  destruct (get style name); [|reflexivity].
  rewrite H. cbn [negb fst].
  destruct (nonEmpty _); [reflexivity|].
  destruct (findPropertyRule this name) as [prop|] eqn:E; [|reflexivity].
  unfold findPropertyRule in E. rewrite (findPropertyRuleIn_name _ _ _ E).
  rewrite andb_true_r. destruct (negb (prop_inherits prop)); reflexivity.
Qed.

Lemma substituteReference_rewrite style value m :
  startsWith (chars "--") (captured m 1) = true ->
  plainName (captured m 1) = true ->
  (forall new, lookupName this style (captured m 1) = Found new ->
               dollarFree new = true) ->
  substituteReference this style value m
  = Normal (match lookupName this style (captured m 1) with
            | Undefined => value
            | Found new => rewriteFirst (captured m 1) new value
            | Null => rewriteFirst (captured m 1) [] value
            end).
Proof.
  intros Hd Hp Hf. unfold substituteReference.
  rewrite resolve_lookupName by exact Hd. cbn [bind].
  destruct (lookupName this style (captured m 1)) as [new| |] eqn:E.
  - specialize (Hf new eq_refl).
    rewrite compile_referencePattern by exact Hp. cbn [bind].
    destruct new as [|c new'].
    + rewrite <- (replaceFirst_rewriteFirst (captured m 1) [] value eq_refl).
      reflexivity.
    + rewrite <- (replaceFirst_rewriteFirst (captured m 1) (c :: new') value Hf).
      reflexivity.
  - rewrite compile_referencePattern by exact Hp. cbn [bind].
    rewrite <- (replaceFirst_rewriteFirst (captured m 1) [] value eq_refl).
    reflexivity.
  - reflexivity.
Qed.

Lemma substituteReferences_rewrite style : forall ms value,
  (forall m, In m ms ->
     startsWith (chars "--") (captured m 1) = true /\
     plainName (captured m 1) = true /\
     (forall new, lookupName this style (captured m 1) = Found new ->
                  dollarFree new = true)) ->
  substituteReferences this style value ms
  = Normal (rewriteReferences this style value (map (fun m => captured m 1) ms)).
Proof.
  induction ms as [|m ms IH]; intros value H; [reflexivity|].
  cbn [substituteReferences map rewriteReferences].
  destruct (H m (or_introl eq_refl)) as [H1 [H2 H3]].
  rewrite substituteReference_rewrite by assumption. cbn [bind].
  apply IH. intros m' Hm'. apply H. right. exact Hm'.
Qed.

(** When no reference resolves, the value is left as it is. *)
Lemma substituteReferences_unresolved style : forall ms value,
  (forall m, In m ms -> resolve this style (captured m 1) = Normal Undefined) ->
  substituteReferences this style value ms = Normal value.
Proof.
  induction ms as [|m ms IH]; intros value H; [reflexivity|].
  cbn [substituteReferences]. unfold substituteReference.
  rewrite (H m (or_introl eq_refl)). cbn [bind].
  apply IH. intros m' Hm'. apply H. right. exact Hm'.
Qed.

(** *** The values after the first loop *)

Lemma substituteEntries_trimmed : forall es style style',
  substituteEntries this es style = Normal style' ->
  wellFormed style ->
  (forall e, In e es -> In (fst e) (map fst style)) ->
  forall key,
    (In key (map fst es) ->
       exists v, lookup style' key = Some (VString (trim v))) /\
    (~ In key (map fst es) -> lookup style' key = lookup style key).
Proof.
  induction es as [|[k [|value]] es IH]; intros style style' H Hwf Hin key.
  - injection H as <-. cbn [map In]. tauto.
  - discriminate H.
  - cbn [substituteEntries] in H. apply bind_Normal in H.
    destruct H as [value' [_ H]].
    assert (Hk : In k (map fst style))
      by (apply (Hin (k, VString value)); left; reflexivity).
    assert (Hproto : k <> chars "__proto__")
      by (intros ->; destruct Hwf as [_ Hwf]; exact (Hwf Hk)).
    assert (Hwf' : wellFormed (set style k (VString (trim value')))).
    { unfold wellFormed. rewrite set_keys by exact Hk. exact Hwf. }
    assert (Hin' : forall e, In e es ->
              In (fst e) (map fst (set style k (VString (trim value'))))).
    { intros e He. rewrite set_keys by exact Hk. apply Hin. right. exact He. }
    destruct (IH _ _ H Hwf' Hin' key) as [IH1 IH2].
    cbn [map fst In]. split.
    + intros [Hkey|Hkey]; [|exact (IH1 Hkey)].
      subst key.
      destruct (in_dec (list_eq_dec ascii_dec) k (map fst es)) as [Hi|Hi];
        [exact (IH1 Hi)|].
      exists value'. rewrite (IH2 Hi). rewrite lookup_set by exact Hproto.
      rewrite str_eqb_refl. reflexivity.
    + intros Hn. rewrite IH2 by tauto. apply lookup_set_other. tauto.
Qed.

End Prune.

End SubstituteFacts.

(* ===================================================================== *)
(** * The properties of the specification *)
(* ===================================================================== *)

Import JSStringFacts JSObjectFacts RegExpFacts CollapseFacts SubstituteFacts.
Import JSObject CSSOM Tailwind Text Examples.
Import Specification RuleExamples.

(** ** Variant matching and class names *)

(** C1.  Variant matching: [testVariants] is true exactly when every
    entry of the variant chain of the class name is a member of the state
    and, in strict mode, the chain is as long as the state list; a class
    name with an empty chain therefore matches every state when not
    strict, and only the empty state when strict. *)
Theorem testVariants_membership (className : str) (state : list str)
    (strict : bool) :
  (testVariants className state strict = true <->
     (forall variant, In variant (variantsOf className) -> In variant state) /\
     (strict = true -> length (variantsOf className) = length state))
  /\ (variantsOf className = [] ->
        testVariants className state false = true /\
        (testVariants className state true = true <-> state = [])).
Proof.
  assert (Hall : forallb (fun variant => includes state variant)
                   (variantsOf className) = true <->
                 (forall variant, In variant (variantsOf className) ->
                                  In variant state)).
  { rewrite forallb_forall. split; intros H v Hv.
    - apply includes_In. exact (H v Hv).
    - apply includes_In. exact (H v Hv). }
  split.
  - unfold testVariants. destruct strict; cbn [andb].
    + destruct (length (variantsOf className) =? length state) eqn:E; cbn [negb].
      * apply Nat.eqb_eq in E. rewrite Hall. tauto.
      * apply Nat.eqb_neq in E. split; [discriminate|].
        intros [_ H]. exfalso. apply E. apply H. reflexivity.
    + rewrite Hall. split; [intros H; split; [exact H | discriminate] | tauto].
  - intros Hempty. unfold testVariants. rewrite Hempty. cbn [length forallb andb].
    split; [reflexivity|].
    destruct state as [|s state]; cbn [length Nat.eqb negb].
    + tauto.
    + split; discriminate.
Qed.

Lemma testVariants_membership_witness :
  testVariants (chars "m-4") [chars "hover"] false = true /\
  (testVariants (chars "m-4") [chars "hover"] true = true <->
   [chars "hover"] = []).
Proof.
  apply (proj2 (testVariants_membership (chars "m-4") [chars "hover"] false)).
  vm_compute. reflexivity.
Defined.

(** The examples of the specification, on class names with the variant
    chain [hover]. *)
Example testVariants_examples :
  variantsOf (chars "hover:underline") = [chars "hover"] /\
  testVariants (chars "hover:underline") [] false = false /\
  testVariants (chars "hover:underline") [chars "hover"] false = true /\
  testVariants (chars "hover:underline") [chars "hover"; chars "focus"] true = false.
Proof. vm_compute. auto. Qed.

Lemma removelast_last (l : list str) :
  l <> [] -> removelast l ++ [last l []] = l.
Proof. intros H. symmetry. apply app_removelast_last. exact H. Qed.

(** The decomposition of a class name: the variants are all the pieces
    but the last, the base is the last piece, and the pieces joined by
    colons give the class name back.  The pieces are cut at the colons
    after which no bracket closes before one opens; when the brackets of
    the class name pair up without nesting, these are the colons outside
    the brackets. *)
Lemma className_round_trip (className : str) :
  let pieces := RegExp.split variantColon className in
  pieces = cutAtColons className []
  /\ variantsOf className ++ [last pieces []] = pieces
  /\ join [":"] (variantsOf className ++ [last pieces []]) = className
  /\ (flatBrackets false className = true ->
      pieces = cutOutsideBrackets 0 className []).
Proof.
  cbv zeta. rewrite split_variantColon. split; [reflexivity|].
  assert (H : variantsOf className ++ [last (cutAtColons className []) []]
              = cutAtColons className []).
  { unfold variantsOf. rewrite split_variantColon.
    apply removelast_last. apply cutAtColons_nonempty. }
  split; [exact H|]. split.
  - rewrite H. exact (join_cutAtColons className []).
  - intros Hf. exact (cutAtColons_flat className false [] Hf).
Qed.

(** C9 on the code.  The class name [[&:not([hidden])]:block] has one
    colon outside its brackets, so its variant chain should be the one
    variant [[&:not([hidden])]]; the module cuts it inside the brackets
    as well, at the colon that is followed by an opening bracket, and the
    class is not active in the state that holds that variant. *)
Theorem nested_brackets_are_cut :
  cutOutsideBrackets 0 (chars "[&:not([hidden])]:block") []
  = [chars "[&:not([hidden])]"; chars "block"]
  /\ RegExp.split variantColon (chars "[&:not([hidden])]:block")
     = [chars "[&"; chars "not([hidden])]"; chars "block"]
  /\ variantsOf (chars "[&:not([hidden])]:block")
     = [chars "[&"; chars "not([hidden])]"]
  /\ testVariants (chars "[&:not([hidden])]:block")
       [chars "[&:not([hidden])]"] false = false.
Proof. vm_compute. auto. Qed.

(** [cleanSelector] removes every backslash of the selector,
    wherever it stands, and then drops the first code unit, whatever it
    is; so [findUtilityRule] finds a utility rule for a class name when a
    rule has the selector made of a dot and the class name with
    backslashes put in, as for [.hover\:m-\[10px\]] and [hover:m-[10px]]. *)
Theorem cleanSelector_unescapes :
  (forall selector,
     cleanSelector selector
     = tl (filter (fun c => negb (Ascii.eqb "\" c)) selector))
  /\ (forall first escaped,
        cleanSelector (first :: escaped)
        = match Ascii.eqb "\" first, filter (fun c => negb (Ascii.eqb "\" c)) escaped with
          | true, rest => tl rest
          | false, rest => rest
          end)
  /\ (forall (this : TailwindRuntime) (rule : CSSRule) (escaped name : str),
        In rule (allUtilityRules this) ->
        selectorTextOf rule = "." :: escaped ->
        filter (fun c => negb (Ascii.eqb "\" c)) escaped = name ->
        exists found,
          findUtilityRule this name = Some found /\
          In found (allUtilityRules this) /\
          cleanSelector (selectorTextOf found) = name)
  /\ cleanSelector (chars ".hover\:m-\[10px\]") = chars "hover:m-[10px]".
Proof.
  split; [exact cleanSelector_filter|]. split; [|split].
  - intros first escaped. rewrite cleanSelector_filter. cbn [filter].
    destruct (Ascii.eqb "\" first); reflexivity.
  - intros this rule escaped name Hin Hsel Hname.
    assert (Hclean : cleanSelector (selectorTextOf rule) = name).
    { rewrite Hsel, cleanSelector_filter. cbn [filter].
      change (Ascii.eqb "\" ".") with false. cbn [negb tl]. exact Hname. }
    unfold findUtilityRule.
    destruct (find _ (allUtilityRules this)) as [found|] eqn:E.
    + apply find_some in E. destruct E as [Hf Hc]. apply str_eqb_eq in Hc.
      exists found. auto.
    + exfalso. apply (find_none _ _ E) in Hin. cbv beta in Hin.
      rewrite Hclean, str_eqb_refl in Hin. discriminate.
  - vm_compute. reflexivity.
Qed.

Lemma cleanSelector_unescapes_witness :
  exists found,
    findUtilityRule tw (chars "hover:text-red-500") = Some found /\
    In found (allUtilityRules tw) /\
    cleanSelector (selectorTextOf found) = chars "hover:text-red-500".
Proof.
  apply (proj1 (proj2 (proj2 cleanSelector_unescapes)) tw
           (nth 6 (allUtilityRules tw) CSSOtherRule)
           (chars "hover\:text-red-500") (chars "hover:text-red-500")).
  - vm_compute. tauto.
  - vm_compute. reflexivity.
  - vm_compute. reflexivity.
Defined.

(** C10 on the code.  The selector text of the utility of the class
    [2xl:p-1] is [.\32 xl\:p-1]: a leading digit is escaped by its code
    point.  [cleanSelector] removes the backslashes and leaves the digits
    and the space of that escape, so the name it gives is [32 xl:p-1], not
    the name of the class: [findUtilityRule] does not find the rule and
    [toObject] returns the empty object for the class, in the state of its
    variant too. *)
Theorem cleanSelector_keeps_code_point :
  cleanSelector (chars ".\32 xl\:p-1") = chars "32 xl:p-1"
  /\ map (fun rule => cleanSelector (selectorTextOf rule)) (allUtilityRules twScreens)
     = [chars "32 xl:p-1"]
  /\ findUtilityRule twScreens (chars "2xl:p-1") = None
  /\ testVariants (chars "2xl:p-1") [chars "2xl"] false = true
  /\ toObject twScreens (OneString (chars "2xl:p-1")) [chars "2xl"] false
     = Normal empty
  /\ toCSS twScreens (OneString (chars "2xl:p-1")) [chars "2xl"] false
     = Normal (chars ";").
Proof. vm_compute. repeat split; reflexivity. Qed.

(** ** The value namespace *)

Lemma findPropertyRuleIn_first (name : str) inherits initial after :
  forall before,
    noPropertyRule name before ->
    findPropertyRuleIn (before ++ CSSPropertyRule name inherits initial :: after) name
    = Some (Build_PropertyRule name inherits initial).
Proof.
  induction before as [|r before IH]; intros Hn; cbn [app findPropertyRuleIn].
  - rewrite str_eqb_refl. reflexivity.
  - assert (Hb : noPropertyRule name before)
      by (intros x Hx; apply Hn; right; exact Hx).
    pose proof (Hn r (or_introl eq_refl)) as Hr.
    destruct r; try (apply IH; exact Hb).
    apply str_eqb_neq in Hr. rewrite Hr. apply IH. exact Hb.
Qed.

Lemma findPropertyRuleIn_none (name : str) : forall rules,
  noPropertyRule name rules -> findPropertyRuleIn rules name = None.
Proof.
  induction rules as [|r rules IH]; intros Hn; cbn [findPropertyRuleIn];
    [reflexivity|].
  assert (Hb : noPropertyRule name rules)
    by (intros x Hx; apply Hn; right; exact Hx).
  pose proof (Hn r (or_introl eq_refl)) as Hr.
  destruct r; try (apply IH; exact Hb).
  apply str_eqb_neq in Hr. rewrite Hr. apply IH. exact Hb.
Qed.

(** C7.  [getValue name] throws exactly when [name] does not start with
    two dashes, and the runtime is the same after the call as before it,
    thrown or not.  Otherwise it returns the value of the theme
    declaration for [name] when that value is not empty; else the initial
    value of the property registered under exactly that name, provided the
    property does not inherit; else [undefined].  The registered property
    is the one of the first [@property] rule of the style sheet with that
    name: when the theme has no value for [name], that rule decides, and
    when the style sheet has no such rule the result is [undefined]. *)
Theorem getValue_contract (this : TailwindRuntime) (name : str) :
  (raises (fst (getValue this name)) = true <->
     startsWith (chars "--") name = false)
  /\ (startsWith (chars "--") name = false ->
        fst (getValue this name) = Throw (Error mustStartWithDashes))
  /\ snd (getValue this name) = this
  /\ (forall prop, findPropertyRule this name = Some prop -> prop_name prop = name)
  /\ (startsWith (chars "--") name = true ->
        fst (getValue this name)
        = Normal
            (match
               match themeDeclaration this with
               | Some theme => getPropertyValue theme name
               | None => []
               end
             with
             | c :: s => Found (c :: s)
             | [] =>
                 match findPropertyRule this name with
                 | Some prop =>
                     if prop_inherits prop then Undefined
                     else match prop_initialValue prop with
                          | Some v => Found v
                          | None => Null
                          end
                 | None => Undefined
                 end
             end))
  /\ (forall before inherits initial after,
        tailwind this = before ++ CSSPropertyRule name inherits initial :: after ->
        noPropertyRule name before ->
        findPropertyRule this name = Some (Build_PropertyRule name inherits initial)
        /\ (startsWith (chars "--") name = true ->
            match themeDeclaration this with
            | Some theme => getPropertyValue theme name
            | None => []
            end = [] ->
            fst (getValue this name)
            = Normal (if inherits then Undefined
                      else match initial with
                           | Some v => Found v
                           | None => Null
                           end)))
  /\ (noPropertyRule name (tailwind this) ->
        findPropertyRule this name = None
        /\ (startsWith (chars "--") name = true ->
            match themeDeclaration this with
            | Some theme => getPropertyValue theme name
            | None => []
            end = [] ->
            fst (getValue this name) = Normal Undefined)).
Proof.
  assert (Hname : forall prop, findPropertyRule this name = Some prop ->
                               prop_name prop = name).
  { intros prop H. apply str_eqb_eq.
    exact (findPropertyRuleIn_name _ _ _ H). }
  assert (Hvalue : startsWith (chars "--") name = true ->
            fst (getValue this name)
            = Normal
                (match
                   match themeDeclaration this with
                   | Some theme => getPropertyValue theme name
                   | None => []
                   end
                 with
                 | c :: s => Found (c :: s)
                 | [] =>
                     match findPropertyRule this name with
                     | Some prop =>
                         if prop_inherits prop then Undefined
                         else match prop_initialValue prop with
                              | Some v => Found v
                              | None => Null
                              end
                     | None => Undefined
                     end
                 end)).
  { intros Hd. unfold getValue. rewrite Hd. cbn [negb].
    destruct (match themeDeclaration this with
              | Some theme => getPropertyValue theme name
              | None => []
              end) as [|c s]; cbn [nonEmpty fst]; [|reflexivity].
    destruct (findPropertyRule this name) as [prop|] eqn:E; [|reflexivity].
    rewrite (Hname prop eq_refl), str_eqb_refl, andb_true_r.
    destruct (prop_inherits prop); reflexivity. }
  split; [|split; [|split; [|split; [exact Hname|split; [exact Hvalue|split]]]]].
  - unfold getValue.
    destruct (startsWith (chars "--") name) eqn:Hd; cbn [negb].
    + split; [|discriminate].
      destruct (nonEmpty _); [discriminate|].
      destruct (findPropertyRule this name) as [prop|]; [|discriminate].
      destruct (_ && _); discriminate.
    + cbn [fst raises]. split; reflexivity.
  - intros Hd. unfold getValue. rewrite Hd. reflexivity.
  - unfold getValue. destruct (negb _); [reflexivity|].
    destruct (nonEmpty _); [reflexivity|].
    destruct (findPropertyRule this name) as [prop|]; [|reflexivity].
    destruct (_ && _); reflexivity.
  - intros before inherits initial after Hsheet Hbefore.
    assert (Hf : findPropertyRule this name
                 = Some (Build_PropertyRule name inherits initial)).
    { unfold findPropertyRule. rewrite Hsheet.
      apply findPropertyRuleIn_first. exact Hbefore. }
    split; [exact Hf|]. intros Hd Htheme.
    rewrite (Hvalue Hd), Htheme, Hf. reflexivity.
  - intros Hnone.
    assert (Hf : findPropertyRule this name = None).
    { unfold findPropertyRule. apply findPropertyRuleIn_none. exact Hnone. }
    split; [exact Hf|]. intros Hd Htheme.
    rewrite (Hvalue Hd), Htheme, Hf. reflexivity.
Qed.

Lemma getValue_contract_witness :
  fst (getValue tw (chars "--tw-scale-x")) = Normal (Found (chars "1")).
Proof.
  refine (proj2 (proj1 (proj2 (proj2 (proj2 (proj2 (proj2
            (getValue_contract tw (chars "--tw-scale-x")))))))
            (firstn 2 sheet) false (Some (chars "1"))
            [CSSPropertyRule (chars "--tw-scale-y") false (Some (chars "1"))]
            eq_refl _) eq_refl eq_refl).
  intros rule [<-|[<-|[]]]; exact I.
Defined.

Example getValue_examples :
  fst (getValue tw (chars "--tw-scale-x")) = Normal (Found (chars "1")) /\
  fst (getValue tw (chars "--missing")) = Normal Undefined /\
  fst (getValue tw (chars "spacing")) = Throw (Error mustStartWithDashes).
Proof. vm_compute. auto. Qed.

Example getValue_first_registration :
  fst (getValue
         (construct [CSSPropertyRule (chars "--x") true (Some (chars "a"));
                     CSSPropertyRule (chars "--x") false (Some (chars "b"))])
         (chars "--x"))
  = Normal Undefined.
Proof. vm_compute. reflexivity. Qed.

(** ** Collapsing *)

(** C5, as amended.  Later rule wins.  [toObject] goes through the
    utility rules in
    the order of the style sheet and writes the declarations of every
    active rule (those of its nested rules first, in their order, then its
    own) into the one style object; so for a property that an active rule
    sets and no active rule after it sets, the style object holds the value
    that this rule wrote last, whatever the rules before it wrote. *)
Theorem later_rule_wins (this : TailwindRuntime) (active : list str)
    (before after : list CSSRule) (rule : CSSRule) (key : str) (v : value)
    (style : obj) :
  allUtilityRules this = before ++ rule :: after ->
  isActive active rule = true ->
  key <> chars "__proto__" ->
  lastAssigned key (assignments rule) = Some v ->
  (forall later, In later after -> isActive active later = true ->
                 lastAssigned key (assignments later) = None) ->
  collapseActive this active style
  = fold_left assign
      (flat_map (fun r => if isActive active r then assignments r else [])
                (allUtilityRules this)) style
  /\ lookup (collapseActive this active style) key = Some v.
Proof.
  intros Hrules Hactive Hkey Hv Hafter.
  assert (Hc : collapseActive this active style
               = fold_left assign
                   (flat_map (fun r => if isActive active r then assignments r else [])
                             (allUtilityRules this)) style)
    by apply collapse_rules.
  split; [exact Hc|].
  rewrite Hc, Hrules, lookup_fold_assign by exact Hkey.
  rewrite flat_map_app. cbn [flat_map]. rewrite Hactive.
  rewrite !lastAssigned_app.
  assert (Hnone : lastAssigned key
                    (flat_map (fun r => if isActive active r then assignments r else [])
                              after) = None).
  { clear Hrules. induction after as [|r after IH]; [reflexivity|].
    cbn [flat_map]. rewrite lastAssigned_app, IH.
    - destruct (isActive active r) eqn:E; [|reflexivity].
      apply Hafter; [left; reflexivity | exact E].
    - intros later Hl. apply Hafter. right. exact Hl. }
  rewrite Hnone, Hv. reflexivity.
Qed.

Lemma later_rule_wins_witness :
  lookup (collapseActive twColors [chars "text-blue"; chars "text-red"] empty)
         (chars "color")
  = Some (VString (chars "blue")).
Proof.
  apply (proj2 (later_rule_wins twColors [chars "text-blue"; chars "text-red"]
                  [textRed] [] textBlue (chars "color") (VString (chars "blue"))
                  empty
                  eq_refl eq_refl
                  ltac:(discriminate) eq_refl ltac:(intros later [])) ).
Defined.

(** C5 as stated fails.  The rule [.x] sets [color] to [red] itself and
    to [blue] in the nested rule that follows its own declarations.  In
    the order of the document the nested declaration is the later one and
    [blue] the final value; [collapseRule] goes through the nested rules
    first and writes the declarations of the rule itself last, so
    [toObject] gives [red]. *)
Lemma own_declarations_written_last :
  documentAssignments ownAndNested
  = [(chars "color", VString (chars "red")); (chars "color", VString (chars "blue"))]
  /\ lookup (fold_left assign (documentAssignments ownAndNested) empty) (chars "color")
     = Some (VString (chars "blue"))
  /\ lookup (collapseRule ownAndNested empty) (chars "color")
     = Some (VString (chars "red"))
  /\ toObject twNested (OneString (chars "x")) [] false
     = Normal [(chars "color", VString (chars "red"))]
  /\ ~ (forall rule target,
          collapseRule rule target
          = fold_left assign (documentAssignments rule) target).
Proof.
  split; [vm_compute; reflexivity|].
  split; [vm_compute; reflexivity|].
  split; [vm_compute; reflexivity|].
  split; [vm_compute; reflexivity|].
  intros H. specialize (H ownAndNested empty). vm_compute in H. discriminate H.
Qed.

(** Inside one rule the declarations of the nested rules are written
    before the declarations of the rule itself. *)
Example nested_before_own :
  collapseRule
    (CSSStyleRule (chars ".x") (block [("color"%string, "red"%string)])
       [CSSGroupingRule [CSSNestedDeclarations (block [("color"%string, "blue"%string)])]])
    empty
  = [(chars "color", VString (chars "red"))].
Proof. vm_compute. reflexivity. Qed.

(** ** Substitution *)

(** What the engine does with a pair of the style set whose value has
    only references with plain names (no code unit with a meaning in a
    regular expression) resolving to strings without a dollar sign: it
    takes the references of the original value from left to right and, for
    each one whose name resolves (style set first, then [getValue]),
    rewrites the first occurrence of [var(name)] or [var(name,)] in the
    current text: by the resolved string, the white space after the
    occurrence kept, or by nothing, that white space removed too, when the
    string is empty; an unresolved name causes no rewriting; the result is
    stored back trimmed. *)
Theorem substitute_rewrites_first_occurrence (this : TailwindRuntime)
    (style : obj) (key value : str) (es : list (str * JSObject.value)) :
  (forall name, In name (references value) -> plainName name = true) ->
  (forall name new, In name (references value) ->
     lookupName this style name = Found new -> dollarFree new = true) ->
  substituteReferences this style value (RegExp.matchAll varReference value)
  = Normal (rewriteReferences this style value (references value))
  /\ substituteEntries this ((key, VString value) :: es) style
     = substituteEntries this es
         (set style key (VString (rewritten this style value))).
Proof.
  intros Hplain Hdollar.
  assert (H : substituteReferences this style value
                (RegExp.matchAll varReference value)
              = Normal (rewriteReferences this style value (references value))).
  { rewrite <- matchAll_references. apply substituteReferences_rewrite.
    intros m Hm.
    assert (Hin : In (captured m 1) (references value)).
    { rewrite <- matchAll_references.
      apply (in_map (fun m => captured m 1)). exact Hm. }
    split; [exact (references_dashed _ _ Hin)|].
    split; [exact (Hplain _ Hin)|].
    intros new. apply Hdollar. exact Hin. }
  split; [exact H|].
  cbn [substituteEntries]. rewrite H. reflexivity.
Qed.

Lemma substitute_rewrites_first_occurrence_witness :
  substituteEntries tw
    [(chars "margin", VString (chars "calc(var(--spacing) * 4) var(--none,) "))]
    [(chars "margin", VString (chars "calc(var(--spacing) * 4) var(--none,) "))]
  = Normal [(chars "margin", VString (chars "calc(0.25rem * 4) var(--none,)"))].
Proof.
  refine (eq_trans
            (proj2 (substitute_rewrites_first_occurrence tw
                      [(chars "margin",
                        VString (chars "calc(var(--spacing) * 4) var(--none,) "))]
                      (chars "margin")
                      (chars "calc(var(--spacing) * 4) var(--none,) ") [] _ _))
            _).
  - intros name Hname. vm_compute in Hname.
    destruct Hname as [<-|[<-|[]]]; reflexivity.
  - intros name new Hname. vm_compute in Hname.
    destruct Hname as [<-|[<-|[]]]; vm_compute; intros H;
      [injection H as <-; reflexivity | discriminate H].
  - vm_compute. reflexivity.
Defined.

(** C2 on the code.  The theme gives [--gap] the value
    [var(--unit) solid] and [--unit] the value [1px].  In the value
    [var(--gap) var(--unit)] of the utility [edge] both references
    resolve, and one pass that replaces each reference where it stands
    gives [var(--unit) solid 1px].  The module gives
    [1px solid var(--unit)]: the replacement for the second reference is
    made at the first occurrence of [var(--unit)] in the current text,
    which the first replacement wrote, and the second reference of the
    value stays in place although its name resolves.  [substitute] applied
    once more replaces it. *)
Theorem substitute_not_one_pass :
  substitute tw [(chars "border", VString (chars "var(--gap) var(--unit)"))]
  = Normal [(chars "border", VString (chars "1px solid var(--unit)"))]
  /\ onePass tw [(chars "border", VString (chars "var(--gap) var(--unit)"))]
       (chars "var(--gap) var(--unit)")
     = chars "var(--unit) solid 1px"
  /\ lookupName tw [(chars "border", VString (chars "var(--gap) var(--unit)"))]
       (chars "--unit") = Found (chars "1px")
  /\ ~ (forall style key value,
          substituteEntries tw [(key, VString value)] style
          = Normal (set style key (VString (onePass tw style value))))
  /\ toObject tw (OneString (chars "edge")) [] false
     = Normal [(chars "border", VString (chars "1px solid var(--unit)"))]
  /\ substitute tw [(chars "border", VString (chars "1px solid var(--unit)"))]
     = Normal [(chars "border", VString (chars "1px solid 1px"))].
Proof.
  split; [vm_compute; reflexivity|].
  split; [vm_compute; reflexivity|].
  split; [vm_compute; reflexivity|].
  split.
  - intros H.
    specialize (H [(chars "border", VString (chars "var(--gap) var(--unit)"))]
                  (chars "border") (chars "var(--gap) var(--unit)")).
    vm_compute in H. discriminate H.
  - split; vm_compute; reflexivity.
Qed.

(** C3.  After [substitute], hence in the object that [toObject]
    returns, a key for which the style sheet registers a property that
    does not inherit (the rule that [findPropertyRule] finds) is absent:
    the property is deleted, not set to an empty value.  Every other key
    of the style set, a theme variable for instance, is still there. *)
Theorem internal_properties_removed (this : TailwindRuntime)
    (style style' : obj) :
  substitute this style = Normal style' ->
  forall key,
    (forall prop, findPropertyRule this key = Some prop ->
                  prop_inherits prop = false ->
                  lookup style' key = None /\ ~ In key (keys style'))
    /\ ((findPropertyRule this key = None \/
         exists prop, findPropertyRule this key = Some prop /\
                      prop_inherits prop = true) ->
        In key (keys style) -> In key (keys style'))
    /\ (forall result, simplifyEntries (entries style') style' = Normal result ->
          (In key (keys result) <-> In key (keys style'))).
Proof.
  intros H key. unfold substitute in H. apply bind_Normal in H.
  destruct H as [s1 [H1 H]]. injection H as <-.
  pose proof (substituteEntries_keys this _ _ _ H1 (entries_keys_In style)) as Hk.
  split; [|split].
  - intros prop Hp Hi.
    assert (Hnone : lookup (prune this s1) key = None).
    { rewrite lookup_prune. unfold internalProperty. rewrite Hp, Hi. reflexivity. }
    split; [exact Hnone|].
    intros Hin. apply (proj1 (In_keys _ _)) in Hin.
    apply (proj2 (lookup_In_keys _ _)) in Hin. exact (Hin Hnone).
  - intros Hp Hin. apply (proj2 (In_keys _ _)).
    apply (proj1 (lookup_In_keys _ _)). rewrite lookup_prune.
    assert (Hint : internalProperty this key = false).
    { unfold internalProperty. destruct Hp as [-> | [prop [-> ->]]]; reflexivity. }
    rewrite Hint. apply (proj2 (lookup_In_keys _ _)). rewrite Hk.
    apply (proj1 (In_keys _ _)). exact Hin.
  - intros result Hr.
    apply simplifyEntries_keys in Hr; [|apply entries_keys_In].
    rewrite !In_keys, Hr. tauto.
Qed.

Lemma internal_properties_removed_witness :
  lookup [(chars "--color-red-500", VString (chars "#f00"));
          (chars "scale", VString (chars "50% 1"))]
         (chars "--tw-scale-x") = None /\
  ~ In (chars "--tw-scale-x")
       (keys [(chars "--color-red-500", VString (chars "#f00"));
              (chars "scale", VString (chars "50% 1"))]).
Proof.
  apply (proj1 (internal_properties_removed tw
                  (collapseActive tw [chars "scale-x-50"] empty)
                  [(chars "--color-red-500", VString (chars "#f00"));
                   (chars "scale", VString (chars "50% 1"))]
                  ltac:(vm_compute; reflexivity) (chars "--tw-scale-x"))
           (Build_PropertyRule (chars "--tw-scale-x") false (Some (chars "1")))
           eq_refl eq_refl).
Defined.

Example internal_properties_example :
  toObject tw (OneString (chars "scale-x-50")) [] false
  = Normal [(chars "--color-red-500", VString (chars "#f00"));
            (chars "scale", VString (chars "50% 1"))].
Proof. vm_compute. reflexivity. Qed.

Lemma wellFormed_filter (f : str * value -> bool) (o : obj) :
  wellFormed o -> wellFormed (filter f o).
Proof.
  intros [Hn Hp]. split.
  - induction o as [|[k v] o IH]; cbn [filter]; [constructor|].
    cbn [map fst] in Hn. inversion Hn as [|? ? Hk Hn']; subst.
    assert (Hp' : ~ In (chars "__proto__") (map fst o))
      by (intros Hc; apply Hp; right; exact Hc).
    destruct (f (k, v)); [|exact (IH Hn' Hp')].
    cbn [map fst]. constructor; [|exact (IH Hn' Hp')].
    intros Hc. apply Hk. apply in_map_iff in Hc. destruct Hc as [p [E Hc]].
    apply filter_In in Hc. destruct Hc as [Hc _]. subst k. apply in_map. exact Hc.
  - intros Hc. apply Hp. apply in_map_iff in Hc. destruct Hc as [p [E Hc]].
    apply filter_In in Hc. destruct Hc as [Hc _]. rewrite <- E. apply in_map. exact Hc.
Qed.

(** When every entry holds a trimmed string that has no resolvable
    reference, the first loop changes nothing. *)
Lemma substituteEntries_fixed (this : TailwindRuntime) (style : obj) :
  NoDup (map fst style) ->
  forall es,
    (forall key v, In (key, v) es ->
       In (key, v) style /\
       exists text, v = VString text /\ trim text = text /\
         forall name, In name (references text) ->
                      resolve this style name = Normal Undefined) ->
    substituteEntries this es style = Normal style.
Proof.
  intros Hn. induction es as [|[key v] es IH]; intros H; [reflexivity|].
  destruct (H key v (or_introl eq_refl)) as [Hin [text [-> [Ht Hr]]]].
  cbn [substituteEntries].
  rewrite substituteReferences_unresolved.
  - cbn [bind]. rewrite Ht. rewrite set_same by (apply In_lookup; assumption).
    apply IH. intros k w Hk. apply H. right. exact Hk.
  - intros m Hm. apply Hr. rewrite <- matchAll_references.
    apply (in_map (fun m => captured m 1)). exact Hm.
Qed.

(** C4.  Idempotence.  Let [substitute] have turned a style set into
    [style'], and let no reference that remains in a value of [style']
    resolve, neither through [style'] nor through [getValue].  Then
    [substitute] applied to [style'] returns [style']: the same keys, in
    the same order, with the same values. *)
Theorem substitute_idempotent (this : TailwindRuntime) (style style' : obj) :
  wellFormed style ->
  substitute this style = Normal style' ->
  (forall key text name,
     In (key, VString text) style' ->
     In name (references text) ->
     resolve this style' name = Normal Undefined) ->
  substitute this style' = Normal style'.
Proof.
  intros Hwf H Hun. unfold substitute in H. apply bind_Normal in H.
  destruct H as [s1 [H1 H]]. injection H as <-.
  pose proof (substituteEntries_keys this _ _ _ H1 (entries_keys_In style)) as Hk.
  assert (Hwf1 : wellFormed s1) by (unfold wellFormed; rewrite Hk; exact Hwf).
  assert (Hwf' : wellFormed (prune this s1))
    by (rewrite prune_filter; apply wellFormed_filter; exact Hwf1).
  assert (Hval : forall key v, In (key, v) (prune this s1) ->
            exists text, v = VString text /\ trim text = text).
  { intros key v Hin. rewrite prune_filter in Hin. apply filter_In in Hin.
    destruct Hin as [Hin _].
    destruct (substituteEntries_trimmed this _ _ _ H1 Hwf (entries_keys_In style) key)
      as [Htr _].
    destruct Htr as [w Hw].
    { apply (proj2 (In_keys _ _)). rewrite <- Hk. apply in_map_iff.
      exists (key, v). auto. }
    apply In_lookup in Hin; [|exact (proj1 Hwf1)].
    rewrite Hin in Hw. injection Hw as ->.
    exists (trim w). split; [reflexivity | apply trim_idem]. }
  unfold substitute.
  rewrite (substituteEntries_fixed this (prune this s1) (proj1 Hwf')).
  - cbn [bind]. f_equal. rewrite prune_filter. apply filter_all.
    intros [key v] Hin. rewrite prune_filter in Hin. apply filter_In in Hin.
    exact (proj2 Hin).
  - intros key v Hin. apply (proj1 (In_entries _ _)) in Hin. split; [exact Hin|].
    destruct (Hval key v Hin) as [text [-> Ht]].
    exists text. split; [reflexivity|]. split; [exact Ht|].
    intros name Hname. exact (Hun key text name Hin Hname).
Qed.

Lemma substitute_idempotent_witness :
  substitute tw [(chars "border", VString (chars "1px solid var(--other)"))]
  = Normal [(chars "border", VString (chars "1px solid var(--other)"))].
Proof.
  apply (substitute_idempotent tw
           [(chars "border", VString (chars "var(--unit) solid var(--other)  "))]).
  - split; [repeat constructor; intros [] | intros [H|[]]; discriminate H].
  - vm_compute. reflexivity.
  - intros key text name [H|[]] Hname. injection H as <- <-.
    vm_compute in Hname. destruct Hname as [<-|[]]. vm_compute. reflexivity.
Defined.

(** ** The simplifier *)

Lemma takeWhile_app_stop (p : ascii -> bool) (a x : str) :
  forallb p a = true ->
  match x with c :: _ => p c = false | [] => True end ->
  takeWhile p (a ++ x) = a /\ dropWhile p (a ++ x) = x.
Proof.
  intros Ha Hx. induction a as [|c a IH]; cbn [app takeWhile dropWhile].
  - destruct x as [|c x]; [auto|]. cbn [takeWhile dropWhile]. rewrite Hx. auto.
  - cbn [forallb] in Ha. apply andb_true_iff in Ha. destruct Ha as [Hc Ha].
    rewrite Hc. destruct (IH Ha) as [-> ->]. auto.
Qed.

Lemma simplifyFrom_skip (x rest : str) :
  simplifyFrom (x ++ rest) (length x) = simplifyFrom rest 0.
Proof.
  induction x as [|c x IH]; [reflexivity|]. exact IH.
Qed.

Lemma productAt_form (a unit b rest : str) :
  a <> [] -> unit <> [] -> b <> [] ->
  forallb numberChar a = true -> forallb isLower unit = true ->
  forallb numberChar b = true ->
  productAt (chars "calc(" ++ a ++ unit ++ chars " * " ++ b ++ chars ")" ++ rest)
  = Some (a, unit, b, 9 + length a + length unit + length b).
Proof.
  intros Ha Hu Hb Fa Fu Fb. unfold productAt.
  rewrite stripPrefix_same.
  destruct (takeWhile_app_stop numberChar a
              (unit ++ chars " * " ++ b ++ chars ")" ++ rest) Fa) as [Ta Da].
  { destruct unit as [|c u]; [congruence|]. cbn [app forallb] in *.
    apply andb_true_iff in Fu. destruct Fu as [Hc _].
    destruct (numberChar c) eqn:E; [|reflexivity].
    apply numberChar_not_lower in E. congruence. }
  rewrite Ta, Da.
  destruct (takeWhile_app_stop isLower unit
              (chars " * " ++ b ++ chars ")" ++ rest) Fu) as [Tu Du];
    [reflexivity|].
  rewrite Tu, Du. rewrite stripPrefix_same.
  destruct (takeWhile_app_stop numberChar b (chars ")" ++ rest) Fb) as [Tb Db];
    [reflexivity|].
  rewrite Tb, Db. rewrite stripPrefix_same.
  destruct a; [congruence|]. destruct unit; [congruence|]. destruct b; [congruence|].
  reflexivity.
Qed.

(** C6, as amended.  [simplify] goes through the value once and
    replaces every
    [calc(<number><unit> * <number>)], where a number is a run of digits
    and dots and the unit a run of lower-case letters, by the product of
    the two numbers (read by [parseFloat], multiplied as binary64 values,
    printed by the default conversion of a number to a string) followed by
    the unit; a value without such a product is returned as it is.  In
    particular [calc(0.25rem * 4)] gives [1rem], [calc(2px * 3)] gives
    [6px] and [10px] stays [10px]. *)
Theorem simplify_products :
  (forall value, simplify value = simplifyFrom value 0)
  /\ (forall a unit b rest,
        a <> [] -> unit <> [] -> b <> [] ->
        forallb numberChar a = true -> forallb isLower unit = true ->
        forallb numberChar b = true ->
        simplify (chars "calc(" ++ a ++ unit ++ chars " * " ++ b ++ chars ")" ++ rest)
        = Number.toString
            (Number.mul (Number.parseFloat a) (Number.parseFloat b))
          ++ unit ++ simplify rest)
  /\ (forall c rest, productAt (c :: rest) = None ->
        simplify (c :: rest) = c :: simplify rest)
  /\ (forall value, noProduct value = true -> simplify value = value)
  /\ simplify (chars "calc(0.25rem * 4)") = chars "1rem"
  /\ simplify (chars "calc(2px * 3)") = chars "6px"
  /\ simplify (chars "10px") = chars "10px".
Proof.
  split; [exact simplify_simplifyFrom|]. split; [|split; [|split]].
  - intros a unit b rest Ha Hu Hb Fa Fu Fb.
    rewrite !simplify_simplifyFrom.
    pose proof (productAt_form a unit b rest Ha Hu Hb Fa Fu Fb) as Hp.
    set (tail := a ++ unit ++ chars " * " ++ b ++ chars ")") in *.
    assert (Happ : chars "calc(" ++ a ++ unit ++ chars " * " ++ b ++ chars ")" ++ rest
                   = "c" :: (chars "alc(" ++ tail) ++ rest).
    { subst tail. unfold chars. cbn [list_ascii_of_string app].
      repeat (rewrite <- app_assoc; cbn [app]). reflexivity. }
    rewrite Happ in *. cbn [simplifyFrom]. rewrite Hp. unfold product.
    rewrite <- app_assoc. do 2 f_equal.
    replace (pred (9 + length a + length unit + length b))
      with (length (chars "alc(" ++ tail)).
    + apply simplifyFrom_skip.
    + subst tail. rewrite !length_app. cbn [chars list_ascii_of_string length]. lia.
  - intros c rest Hn. rewrite !simplify_simplifyFrom. cbn [simplifyFrom].
    rewrite Hn. reflexivity.
  - intros value Hn. rewrite simplify_simplifyFrom. apply noProduct_simplifyFrom. exact Hn.
  - vm_compute. auto.
Qed.

Lemma simplify_products_witness :
  simplify (chars "calc(" ++ chars "0.1" ++ chars "em" ++ chars " * " ++
            chars "3" ++ chars ")" ++ chars " solid")
  = Number.toString
      (Number.mul (Number.parseFloat (chars "0.1")) (Number.parseFloat (chars "3")))
    ++ chars "em" ++ simplify (chars " solid").
Proof.
  apply (proj1 (proj2 simplify_products)); try discriminate; reflexivity.
Defined.

Example simplify_rounding :
  simplify (chars "calc(0.1em * 3) solid") = chars "0.30000000000000004em solid".
Proof. vm_compute. reflexivity. Qed.

(** C6 as stated fails.  In [calc(.px * 2)] and [calc(1.2.3px * 2)] no
    text of the form [calc(<decimal><unit> * <decimal>)] occurs, a lone
    dot and [1.2.3] being no decimals, so these inputs should come back
    unchanged; [simplify] takes every run of digits and dots for a number
    and returns [NaNpx] and [2.4px]. *)
Lemma simplify_reads_other_runs :
  noDecimalProduct (chars "calc(.px * 2)") = true
  /\ simplify (chars "calc(.px * 2)") = chars "NaNpx"
  /\ noDecimalProduct (chars "calc(1.2.3px * 2)") = true
  /\ simplify (chars "calc(1.2.3px * 2)") = chars "2.4px"
  /\ ~ (forall value, noDecimalProduct value = true -> simplify value = value).
Proof.
  split; [vm_compute; reflexivity|].
  split; [vm_compute; reflexivity|].
  split; [vm_compute; reflexivity|].
  split; [vm_compute; reflexivity|].
  intros H. specialize (H (chars "calc(.px * 2)") eq_refl).
  vm_compute in H. discriminate H.
Qed.

(** ** The public functions *)

(** The names that [substitute] looks up start with two dashes, so the
    error of [getValue] is never thrown from [toObject] or [toCSS]: every
    reference is resolved without error. *)
Lemma getValue_error_unreachable (this : TailwindRuntime) (style : obj)
    (value : str) (m : RegExp.jsmatch) :
  In m (RegExp.matchAll varReference value) ->
  startsWith (chars "--") (captured m 1) = true
  /\ resolve this style (captured m 1)
     = Normal (lookupName this style (captured m 1)).
Proof.
  intros Hm.
  assert (Hd : startsWith (chars "--") (captured m 1) = true).
  { apply (references_dashed value). rewrite <- matchAll_references.
    apply (in_map (fun m => captured m 1)). exact Hm. }
  split; [exact Hd | apply resolve_lookupName; exact Hd].
Qed.

(** Class names that match no utility rule, or whose variants are not
    in the state, add nothing to the style object. *)
Lemma inactive_classes_excluded (this : TailwindRuntime) (active : list str)
    (style : obj) :
  (forall rule, In rule (allUtilityRules this) -> isActive active rule = false) ->
  collapseActive this active style = style.
Proof.
  intros H. unfold collapseActive.
  induction (allUtilityRules this) as [|r rules IH] in style, H |- *; [reflexivity|].
  cbn [fold_left]. unfold isActive in H. rewrite (H r (or_introl eq_refl)).
  apply IH. intros rule Hr. apply H. right. exact Hr.
Qed.

(** C8 on the code.  The utility [.icon] declares
    [--icon: url(data:image/png;base64,AAAA)]; its [cssText] is cut at
    the semicolon inside the value, the piece after it has no colon, its
    value is [undefined], and [substitute] throws a [TypeError] when it
    reads [matchAll] of that value: [toObject] and [toCSS] throw. *)
Theorem toObject_throws_on_semicolon_in_value :
  collapseActive tw [chars "icon"] empty
  = [(chars "--icon", VString (chars "url(data"));
     (chars "base64,AAAA)", VUndefined)]
  /\ toObject tw (OneString (chars "icon")) [] false = Throw TypeError
  /\ toCSS tw (OneString (chars "icon")) [] false = Throw TypeError.
Proof. vm_compute. auto. Qed.

(** The scenario of the specification: the classes [m-4] and
    [hover:text-red-500] in the state [hover]. *)
Example toObject_scenario :
  toObject tw (Many [chars "m-4"; chars "hover:text-red-500"; chars "unknown"])
    [chars "hover"] false
  = Normal [(chars "margin", VString (chars "1rem"));
            (chars "color", VString (chars "#ef4444"))]
  /\ toCSS tw (OneString (chars "m-4 hover:text-red-500")) [] false
     = Normal (chars "margin: 1rem;").
Proof. vm_compute. auto. Qed.

(* ===================================================================== *)
(** * Facts about the conversions between the two spellings *)
(* ===================================================================== *)

Module CasingFacts.

Import RegExp Text Tailwind Casing RegExpFacts.

Lemma upper_class c : classMatches false [CRange "A" "Z"] c = isUpper c.
Proof.
  unfold classMatches, isUpper. cbn [existsb citemMatches xorb].
  rewrite orb_false_r. destruct (inRange "A" "Z" c); reflexivity.
Qed.

Lemma matchAt_dashLetter i s :
  matchAt dashLetter i s
  = match s with
    | c :: d :: _ =>
        if Ascii.eqb "-" c && isLower d
        then Some (mkMatch i [c; d] [(1, [d])])
        else None
    | _ => None
    end.
Proof.
  unfold matchAt, dashLetter. cbn [expr matcher].
  unfold matchChar at 1. cbn [rest].
  destruct s as [|c t]; [reflexivity|].
  destruct (Ascii.eqb "-" c); cbn [andb]; [|destruct t; reflexivity].
  unfold advance. cbn [rest idx caps tl].
  unfold matchChar. cbn [rest].
  destruct t as [|d u]; [reflexivity|].
  rewrite lower_class. destruct (isLower d); [|reflexivity].
  unfold advance. cbn [rest idx caps tl setCap filter].
  replace (S (S i) - S i) with 1 by lia.
  replace (S (S i) - i) with 2 by lia. reflexivity.
Qed.

Lemma matchAt_upperLetter i s :
  matchAt upperLetter i s
  = match s with
    | c :: _ => if isUpper c then Some (mkMatch i [c] []) else None
    | [] => None
    end.
Proof.
  unfold matchAt, upperLetter. cbn [expr matcher].
  unfold matchChar. cbn [rest].
  destruct s as [|c t]; [reflexivity|].
  rewrite upper_class. destruct (isUpper c); [|reflexivity].
  unfold advance. cbn [rest idx caps tl].
  replace (S i - i) with 1 by lia. reflexivity.
Qed.

Lemma toCamelCase_camelCase s : toCamelCase s = camelCase s.
Proof.
  unfold toCamelCase. rewrite replaceAll_rewriteScan.
  set (f := fun m : jsmatch => _).
  assert (H : forall n s, length s <= n ->
                forall i, rewriteScan dashLetter f i s 0 = camelCase s).
  { clear s. induction n as [|n IH]; intros s Hn i.
    - destruct s; [|cbn [length] in Hn; lia].
      cbn [rewriteScan camelCase]. rewrite matchAt_dashLetter. reflexivity.
    - destruct s as [|c t].
      + cbn [rewriteScan camelCase]. rewrite matchAt_dashLetter. reflexivity.
      + cbn [length] in Hn. cbn [rewriteScan camelCase].
        rewrite matchAt_dashLetter.
        destruct t as [|d u].
        * cbn [rewriteScan]. rewrite matchAt_dashLetter. reflexivity.
        * destruct (Ascii.eqb "-" c && isLower d) eqn:E.
          -- cbn [matched length rewriteScan]. subst f. cbv beta.
             unfold captured, capture. cbn [captures getCap Nat.eqb map app].
             f_equal. apply IH. cbn [length] in Hn. lia.
          -- f_equal. apply IH. lia. }
  exact (H (length s) s (le_n _) 0).
Qed.

Lemma toKebabCase_kebabCase s : toKebabCase s = kebabCase s.
Proof.
  unfold toKebabCase. rewrite replaceAll_rewriteScan.
  generalize 0 at 1.
  induction s as [|c t IH]; intros i.
  - cbn [rewriteScan kebabCase]. rewrite matchAt_upperLetter. reflexivity.
  - cbn [rewriteScan kebabCase]. rewrite matchAt_upperLetter.
    destruct (isUpper c).
    + cbn [matched length map app]. do 2 f_equal. apply IH.
    + f_equal. apply IH.
Qed.

Lemma upper_of_lower c :
  isLower c = true -> isUpper (toUpper c) = true /\ toLower (toUpper c) = c.
Proof.
  destruct c as [[] [] [] [] [] [] [] []]; intros H;
    try discriminate H; split; reflexivity.
Qed.

Lemma lower_of_upper c :
  isUpper c = true -> isLower (toLower c) = true /\ toUpper (toLower c) = c.
Proof.
  destruct c as [[] [] [] [] [] [] [] []]; intros H;
    try discriminate H; split; reflexivity.
Qed.

Lemma upper_not_lower c : isUpper c = true -> isLower c = false.
Proof.
  destruct c as [[] [] [] [] [] [] [] []]; intros H;
    try discriminate H; reflexivity.
Qed.

Lemma kebabCase_camelCase : forall n s, length s <= n ->
  forallb (fun c => negb (isUpper c)) s = true ->
  kebabCase (camelCase s) = s.
Proof.
  induction n as [|n IH]; intros s Hn Hs.
  - destruct s; [reflexivity | cbn [length] in Hn; lia].
  - destruct s as [|c t]; [reflexivity|].
    cbn [length] in Hn. cbn [forallb] in Hs.
    apply andb_true_iff in Hs. destruct Hs as [Hc Ht].
    apply negb_true_iff in Hc.
    cbn [camelCase]. destruct t as [|d u].
    + cbn [kebabCase]. rewrite Hc. reflexivity.
    + destruct (Ascii.eqb "-" c && isLower d) eqn:E.
      * apply andb_true_iff in E. destruct E as [Ec Ed].
        apply Ascii.eqb_eq in Ec. subst c.
        destruct (upper_of_lower d Ed) as [Hu Hl].
        cbn [kebabCase]. rewrite Hu, Hl. do 2 f_equal.
        cbn [forallb] in Ht. apply andb_true_iff in Ht.
        apply IH; [cbn [length] in Hn; lia | exact (proj2 Ht)].
      * change (kebabCase (c :: camelCase (d :: u)))
          with (if isUpper c then "-" :: toLower c :: kebabCase (camelCase (d :: u))
                else c :: kebabCase (camelCase (d :: u))).
        rewrite Hc. f_equal. apply IH; [lia | exact Ht].
Qed.

Lemma kebabCase_head s :
  match kebabCase s, s with
  | d :: _, e :: _ => isLower d = true -> isLower e = true
  | [], [] => True
  | _, _ => False
  end.
Proof.
  destruct s as [|e t]; cbn [kebabCase]; [exact I|].
  destruct (isUpper e); [discriminate | auto].
Qed.

Lemma camelCase_kebabCase s :
  noDashLetter s = true -> camelCase (kebabCase s) = s.
Proof.
  induction s as [|c t IH]; intros Hs; [reflexivity|].
  cbn [kebabCase]. destruct (isUpper c) eqn:Ec.
  - destruct (lower_of_upper c Ec) as [Hl Hu].
    cbn [camelCase]. change (Ascii.eqb "-" "-") with true. rewrite Hl. cbn [andb].
    rewrite Hu. f_equal. apply IH.
    cbn [noDashLetter] in Hs. destruct t as [|d u]; [reflexivity|].
    apply andb_true_iff in Hs. exact (proj2 Hs).
  - assert (Ht : noDashLetter t = true).
    { cbn [noDashLetter] in Hs. destruct t as [|d u]; [reflexivity|].
      apply andb_true_iff in Hs. exact (proj2 Hs). }
    specialize (IH Ht).
    pose proof (kebabCase_head t) as Hh.
    destruct (kebabCase t) as [|d u] eqn:Ek.
    + destruct t; [reflexivity | contradiction].
    + destruct t as [|e v]; [contradiction|].
      cbn [camelCase].
      assert (E : Ascii.eqb "-" c && isLower d = false).
      { destruct (Ascii.eqb "-" c && isLower d) eqn:E; [|reflexivity].
        apply andb_true_iff in E. destruct E as [E1 E2].
        cbn [noDashLetter] in Hs. apply andb_true_iff in Hs.
        destruct Hs as [Hs _]. rewrite E1, (Hh E2) in Hs. discriminate Hs. }
      rewrite E. f_equal. exact IH.
Qed.

Lemma kebabCase_fixed s :
  forallb (fun c => negb (isUpper c)) s = true -> kebabCase s = s.
Proof.
  induction s as [|c t IH]; cbn [forallb kebabCase]; [reflexivity|].
  intros H. apply andb_true_iff in H. destruct H as [Hc Ht].
  apply negb_true_iff in Hc. rewrite Hc, (IH Ht). reflexivity.
Qed.

End CasingFacts.

(* ===================================================================== *)
(** * Further properties of the code *)
(* ===================================================================== *)

Import CasingFacts.
Import Casing StyleSets TailwindTheme.

(** ** The two spellings of a property name *)

(** X1.  A property name without upper-case letter that [collapseRule]
    stores in camel case is printed by [toCSS] as it was declared:
    [toKebabCase] undoes [toCamelCase], a leading dash included, and leaves
    alone a name that was not converted, such as the name of a custom
    property. *)
Theorem toKebabCase_toCamelCase (name : str) :
  forallb (fun c => negb (isUpper c)) name = true ->
  toKebabCase (toCamelCase name) = name /\ toKebabCase name = name.
Proof.
  intros H. rewrite toCamelCase_camelCase, !toKebabCase_kebabCase. split.
  - exact (kebabCase_camelCase (length name) name (le_n _) H).
  - exact (kebabCase_fixed name H).
Qed.

Lemma toKebabCase_toCamelCase_witness :
  toKebabCase (toCamelCase (chars "-webkit-line-clamp")) = chars "-webkit-line-clamp"
  /\ toKebabCase (chars "-webkit-line-clamp") = chars "-webkit-line-clamp".
Proof.
  apply (toKebabCase_toCamelCase (chars "-webkit-line-clamp")). reflexivity.
Defined.

(** X2.  [toCamelCase] undoes [toKebabCase] on every name in which no
    dash is followed by a lower-case letter: a key of a style object in
    camel case survives the way through the notation of CSS and back. *)
Theorem toCamelCase_toKebabCase (name : str) :
  noDashLetter name = true ->
  toCamelCase (toKebabCase name) = name.
Proof.
  intros H. rewrite toKebabCase_kebabCase, toCamelCase_camelCase.
  exact (camelCase_kebabCase name H).
Qed.

Lemma toCamelCase_toKebabCase_witness :
  toCamelCase (toKebabCase (chars "WebkitLineClamp")) = chars "WebkitLineClamp".
Proof.
  apply (toCamelCase_toKebabCase (chars "WebkitLineClamp")). reflexivity.
Defined.

Example casing_examples :
  toCamelCase (chars "background-color") = chars "backgroundColor"
  /\ toCamelCase (chars "grid-column-2--x") = chars "gridColumn-2-X"
  /\ toKebabCase (chars "--myToken") = chars "--my-token".
Proof. vm_compute. auto. Qed.

(** ** Facts about [toObject] *)

Lemma collapseActive_ext (this : TailwindRuntime) (a1 a2 : list str) (style : obj) :
  (forall rule, In rule (allUtilityRules this) ->
                isActive a1 rule = isActive a2 rule) ->
  collapseActive this a1 style = collapseActive this a2 style.
Proof.
  unfold collapseActive.
  induction (allUtilityRules this) as [|r rules IH] in style |- *; intros H;
    [reflexivity|].
  cbn [fold_left]. unfold isActive in H. rewrite (H r (or_introl eq_refl)).
  apply IH. intros rule Hr. apply H. right. exact Hr.
Qed.

Lemma includes_filter (f : str -> bool) (l : list str) (x : str) :
  includes (filter f l) x = true <-> In x l /\ f x = true.
Proof. rewrite includes_In. apply filter_In. Qed.

Lemma bool_iff (a b : bool) : (a = true <-> b = true) -> a = b.
Proof.
  destruct a, b; intros [H1 H2]; try reflexivity;
    [symmetry; apply H1 | apply H2]; reflexivity.
Qed.

Lemma substituteReference_normal (this : TailwindRuntime) style value m :
  startsWith (chars "--") (captured m 1) = true ->
  plainName (captured m 1) = true ->
  exists value', substituteReference this style value m = Normal value'.
Proof.
  intros Hd Hp. unfold substituteReference.
  rewrite (resolve_lookupName this style _ Hd). cbn [bind].
  rewrite (compile_referencePattern _ Hp).
  destruct (lookupName this style (captured m 1)) as [[|c r]| |]; cbn [bind];
    eexists; reflexivity.
Qed.

Lemma substituteReferences_normal (this : TailwindRuntime) style : forall ms value,
  (forall m, In m ms ->
     startsWith (chars "--") (captured m 1) = true /\
     plainName (captured m 1) = true) ->
  exists value', substituteReferences this style value ms = Normal value'.
Proof.
  induction ms as [|m ms IH]; intros value H; cbn [substituteReferences].
  - eexists. reflexivity.
  - destruct (H m (or_introl eq_refl)) as [Hd Hp].
    destruct (substituteReference_normal this style value m Hd Hp) as [v' ->].
    cbn [bind]. apply IH. intros m' Hm'. apply H. right. exact Hm'.
Qed.

Lemma references_normal (this : TailwindRuntime) style text :
  (forall name, In name (references text) -> plainName name = true) ->
  exists value',
    substituteReferences this style text (RegExp.matchAll varReference text)
    = Normal value'.
Proof.
  intros H. apply substituteReferences_normal. intros m Hm.
  assert (Hin : In (captured m 1) (references text)).
  { rewrite <- matchAll_references.
    apply (in_map (fun m => captured m 1)). exact Hm. }
  split; [exact (references_dashed _ _ Hin) | exact (H _ Hin)].
Qed.

(** The first loop of [substitute] over entries whose references have
    plain names: it ends normally when every value is a string and with
    a [TypeError] when one is [undefined]. *)
Lemma substituteEntries_outcome (this : TailwindRuntime) : forall es style,
  (forall key text name, In (key, VString text) es ->
     In name (references text) -> plainName name = true) ->
  if existsb (fun e => isUndefined (snd e)) es
  then substituteEntries this es style = Throw TypeError
  else exists style', substituteEntries this es style = Normal style'.
Proof.
  induction es as [|[key v] es IH]; intros style H.
  - cbn [existsb substituteEntries]. eexists. reflexivity.
  - cbn [existsb snd]. destruct v as [|text]; cbn [orb substituteEntries].
    + reflexivity.
    + destruct (references_normal this style text) as [v' ->].
      { intros name. apply (H key). left. reflexivity. }
      cbn [bind]. apply IH. intros k t n Hk. apply (H k). right. exact Hk.
Qed.

Lemma simplifyEntries_normal : forall es style,
  (forall e, In e es -> exists text, snd e = VString text) ->
  exists result, simplifyEntries es style = Normal result.
Proof.
  induction es as [|e es IH]; intros style H; cbn [simplifyEntries].
  - eexists. reflexivity.
  - destruct (H e (or_introl eq_refl)) as [text Ht].
    unfold simplifyEntry. rewrite Ht. cbn [bind].
    apply IH. intros e' He'. apply H. right. exact He'.
Qed.

Lemma update_allStrings (o : obj) k text :
  allStrings o -> allStrings (update o k (VString text)).
Proof.
  induction o as [|[k' v'] o IH]; intros H key v Hin; cbn [update] in Hin.
  - destruct Hin as [E|[]]. injection E as _ <-. eexists. reflexivity.
  - destruct (str_eqb k' k).
    + destruct Hin as [E|Hin].
      * injection E as _ <-. eexists. reflexivity.
      * apply (H key). right. exact Hin.
    + destruct Hin as [E|Hin].
      * apply (H key). left. exact E.
      * apply (IH (fun a b Hab => H a b (or_intror Hab)) key). exact Hin.
Qed.

Lemma set_allStrings (o : obj) k text :
  allStrings o -> allStrings (set o k (VString text)).
Proof.
  intros H. unfold set. destruct (str_eqb k _); [exact H|].
  apply update_allStrings. exact H.
Qed.

Lemma simplifyEntries_allStrings : forall es style result,
  simplifyEntries es style = Normal result ->
  allStrings style -> allStrings result.
Proof.
  induction es as [|e es IH]; intros style result H Hs; cbn [simplifyEntries] in H.
  - injection H as <-. exact Hs.
  - apply bind_Normal in H. destruct H as [s1 [H1 H]].
    unfold simplifyEntry in H1. destruct (snd e) as [|v]; [discriminate|].
    injection H1 as <-. apply (IH _ _ H). apply set_allStrings. exact Hs.
Qed.

Lemma substituteEntries_allStrings (this : TailwindRuntime) style style' :
  wellFormed style ->
  substituteEntries this (entries style) style = Normal style' ->
  allStrings style'.
Proof.
  intros Hwf H key v Hin.
  pose proof (substituteEntries_keys this _ _ _ H (entries_keys_In style)) as Hk.
  destruct (substituteEntries_trimmed this _ _ _ H Hwf (entries_keys_In style) key)
    as [Htr _].
  destruct Htr as [w Hw].
  { change (In key (keys style)). apply (proj2 (In_keys _ _)).
    rewrite <- Hk. apply in_map_iff. exists (key, v). auto. }
  apply In_lookup in Hin; [|rewrite Hk; exact (proj1 Hwf)].
  rewrite Hin in Hw. injection Hw as ->. eexists. reflexivity.
Qed.

Lemma map_fst_filter (f : str -> bool) (o : obj) :
  map fst (filter (fun p => f (fst p)) o) = filter f (map fst o).
Proof.
  induction o as [|[k v] o IH]; [reflexivity|].
  cbn [filter map fst]. destruct (f k); cbn [map fst]; rewrite IH; reflexivity.
Qed.

Lemma existsb_undefined (o : list (str * value)) :
  existsb (fun e => isUndefined (snd e)) o = true
  <-> exists key, In (key, VUndefined) o.
Proof.
  rewrite existsb_exists. split.
  - intros [[k v] [Hin Hv]]. cbn [snd] in Hv. destruct v; [|discriminate].
    exists k. exact Hin.
  - intros [k Hin]. exists (k, VUndefined). split; [exact Hin | reflexivity].
Qed.

(** ** The outcome of [toObject] *)

Ltac decide_in :=
  match goal with
  | H : In _ _ |- _ =>
      apply includes_In in H; vm_compute in H; discriminate H
  | |- In _ _ => apply includes_In; vm_compute; reflexivity
  end.

(** X3.  [toObject] and [toCSS] depend on the class names only through
    the utility rules they make active: when two class lists hold the
    same names among the cleaned selectors of the utility rules whose
    variants are in the state, the results are the same.  The order of
    the names, their repetition and the names that no utility rule has
    make no difference. *)
Theorem toObject_depends_on_active_rules (this : TailwindRuntime)
    (classNames classNames' : classList) (state : list str) (strict : bool) :
  (forall rule, In rule (allUtilityRules this) ->
     testVariants (cleanSelector (selectorTextOf rule)) state strict = true ->
     (In (cleanSelector (selectorTextOf rule)) (normalize classNames) <->
      In (cleanSelector (selectorTextOf rule)) (normalize classNames'))) ->
  toObject this classNames state strict = toObject this classNames' state strict
  /\ toCSS this classNames state strict = toCSS this classNames' state strict.
Proof.
  intros H.
  assert (Hc : collapseActive this
                 (filter (fun c => testVariants c state strict) (normalize classNames))
                 empty
               = collapseActive this
                   (filter (fun c => testVariants c state strict) (normalize classNames'))
                   empty).
  { apply collapseActive_ext. intros rule Hr. unfold isActive.
    apply bool_iff. rewrite !includes_filter.
    specialize (H rule Hr). tauto. }
  unfold toCSS, toObject. rewrite Hc. split; reflexivity.
Qed.

Lemma toObject_depends_on_active_rules_witness :
  toObject tw (OneString (chars "m-4  text-red")) [] false
  = toObject tw (Many [chars "unknown"; chars "text-red"; chars " m-4"; chars "m-4"])
      [] false
  /\ toCSS tw (OneString (chars "m-4  text-red")) [] false
     = toCSS tw (Many [chars "unknown"; chars "text-red"; chars " m-4"; chars "m-4"])
         [] false.
Proof.
  apply (toObject_depends_on_active_rules tw).
  intros rule Hr _. vm_compute in Hr.
  repeat (destruct Hr as [<-|Hr]; [split; intros H; decide_in|]).
  destruct Hr.
Defined.

(** X4.  When no utility rule is active (no class name, no utilities
    layer, or only names whose rules are missing or whose variants are
    not in the state), [toObject] returns the empty object and [toCSS]
    the text of one semicolon. *)
Theorem toObject_without_active_rule (this : TailwindRuntime)
    (classNames : classList) (state : list str) (strict : bool) :
  (forall rule, In rule (allUtilityRules this) ->
     In (cleanSelector (selectorTextOf rule)) (normalize classNames) ->
     testVariants (cleanSelector (selectorTextOf rule)) state strict = false) ->
  toObject this classNames state strict = Normal empty
  /\ toCSS this classNames state strict = Normal (chars ";").
Proof.
  intros H.
  assert (Hc : collapseActive this
                 (filter (fun c => testVariants c state strict) (normalize classNames))
                 empty = empty).
  { apply inactive_classes_excluded. intros rule Hr. unfold isActive.
    destruct (includes _ _) eqn:E; [|reflexivity].
    apply includes_filter in E. destruct E as [Hin Ht].
    rewrite (H rule Hr Hin) in Ht. discriminate Ht. }
  unfold toCSS, toObject. rewrite Hc. split; reflexivity.
Qed.

Lemma toObject_without_active_rule_witness :
  toObject tw (OneString (chars " hover:text-red-500 unknown")) [chars "focus"] false
  = Normal empty
  /\ toCSS tw (OneString (chars " hover:text-red-500 unknown")) [chars "focus"] false
     = Normal (chars ";").
Proof.
  apply (toObject_without_active_rule tw).
  intros rule Hr Hin. vm_compute in Hr.
  repeat (destruct Hr as [<-|Hr];
            [first [vm_compute; reflexivity | decide_in]|]).
  destruct Hr.
Defined.

(** X5.  The outcome of [toObject].  Let the references in the values
    that the active rules declare have plain names (no code unit with a
    meaning in a regular expression).  Then [toObject] and [toCSS] throw
    exactly when the collapsed style holds a property without value (a
    piece of a declaration text that has no colon), and what they throw
    is a [TypeError]; otherwise [toObject] returns an object in which
    every property holds a string. *)
Theorem toObject_outcome (this : TailwindRuntime) (classNames : classList)
    (state : list str) (strict : bool) (style : obj) :
  collapseActive this
    (filter (fun c => testVariants c state strict) (normalize classNames)) empty
  = style ->
  (forall key text name, In (key, VString text) style ->
     In name (references text) -> plainName name = true) ->
  ((exists key, In (key, VUndefined) style) ->
     toObject this classNames state strict = Throw TypeError /\
     toCSS this classNames state strict = Throw TypeError)
  /\ ((forall key, ~ In (key, VUndefined) style) ->
      exists result,
        toObject this classNames state strict = Normal result /\
        allStrings result /\
        exists text, toCSS this classNames state strict = Normal text).
Proof.
  intros Hstyle Hplain.
  assert (Hwf : wellFormed style) by (rewrite <- Hstyle; apply collapseActive_wellFormed).
  pose proof (substituteEntries_outcome this (entries style) style) as Ho.
  assert (Hp : forall key text name, In (key, VString text) (entries style) ->
                 In name (references text) -> plainName name = true).
  { intros key text name Hin. apply (Hplain key). apply In_entries. exact Hin. }
  specialize (Ho Hp).
  assert (Hex : existsb (fun e => isUndefined (snd e)) (entries style) = true
                <-> exists key, In (key, VUndefined) style).
  { rewrite existsb_undefined. split; intros [k Hk]; exists k;
      apply In_entries; exact Hk. }
  unfold toCSS, toObject. rewrite Hstyle. unfold substitute. split.
  - intros Hu. apply Hex in Hu. rewrite Hu in Ho. rewrite Ho. split; reflexivity.
  - intros Hn.
    destruct (existsb _ (entries style)) eqn:E.
    { destruct (proj1 Hex eq_refl) as [k Hk]. destruct (Hn k Hk). }
    destruct Ho as [s1 Hs1]. rewrite Hs1. cbn [bind].
    pose proof (substituteEntries_allStrings this style s1 Hwf Hs1) as Hall.
    assert (Hpr : allStrings (prune this s1)).
    { intros key v Hin. rewrite prune_filter in Hin. apply filter_In in Hin.
      apply (Hall key). exact (proj1 Hin). }
    destruct (simplifyEntries_normal (entries (prune this s1)) (prune this s1))
      as [result Hr].
    { intros [key v] Hin. apply (proj1 (In_entries _ _)) in Hin.
      exact (Hpr key v Hin). }
    exists result. rewrite Hr. cbn [bind]. split; [reflexivity|].
    split; [exact (simplifyEntries_allStrings _ _ _ Hr Hpr)|].
    eexists. reflexivity.
Qed.

Lemma toObject_outcome_witness :
  toObject tw (OneString (chars "icon m-4")) [] false = Throw TypeError /\
  toCSS tw (OneString (chars "icon m-4")) [] false = Throw TypeError.
Proof.
  refine (proj1 (toObject_outcome tw (OneString (chars "icon m-4")) [] false
                   [(chars "margin", VString (chars "calc(var(--spacing) * 4)"));
                    (chars "--icon", VString (chars "url(data"));
                    (chars "base64,AAAA)", VUndefined)] _ _) _).
  - vm_compute. reflexivity.
  - intros key text name Hin Hname.
    destruct Hin as [E|[E|[E|[]]]]; try discriminate E; injection E as <- <-;
      vm_compute in Hname.
    + destruct Hname as [<-|[]]. reflexivity.
    + destruct Hname.
  - exists (chars "base64,AAAA)"). right. right. left. reflexivity.
Defined.

(** X6.  The keys of the object that [toObject] returns are the keys
    of the collapsed style, in the same order, without the keys of the
    registered properties that do not inherit: substitution and
    simplification add no key and move none. *)
Theorem toObject_key_order (this : TailwindRuntime) (classNames : classList)
    (state : list str) (strict : bool) (result : obj) :
  toObject this classNames state strict = Normal result ->
  map fst result
  = filter (fun key => negb (internalProperty this key))
      (map fst (collapseActive this
                  (filter (fun c => testVariants c state strict)
                          (normalize classNames)) empty)).
Proof.
  unfold toObject, substitute. intros H.
  apply bind_Normal in H. destruct H as [s2 [H2 H]].
  apply bind_Normal in H2. destruct H2 as [s1 [H1 H2]]. injection H2 as <-.
  apply simplifyEntries_keys in H; [|apply entries_keys_In].
  apply substituteEntries_keys in H1; [|apply entries_keys_In].
  rewrite H, prune_filter, <- H1.
  exact (map_fst_filter (fun key => negb (internalProperty this key)) s1).
Qed.

Lemma toObject_key_order_witness :
  map fst [(chars "margin", VString (chars "1rem"));
           (chars "--color-red-500", VString (chars "#f00"));
           (chars "scale", VString (chars "50% 1"))]
  = filter (fun key => negb (internalProperty tw key))
      (map fst (collapseActive tw
                  (filter (fun c => testVariants c [] false)
                          (normalize (OneString (chars "scale-x-50 m-4")))) empty)).
Proof.
  apply (toObject_key_order tw (OneString (chars "scale-x-50 m-4")) [] false).
  vm_compute. reflexivity.
Defined.

(** ** Facts about [collapseRule] and the declarations *)

Lemma indexed_update (o : obj) k v :
  arrayIndex k = None -> indexed (update o k v) = indexed o.
Proof.
  intros Hk. induction o as [|[k' v'] o IH]; cbn [update indexed].
  - rewrite Hk. reflexivity.
  - destruct (str_eqb k' k) eqn:E; cbn [indexed].
    + apply str_eqb_eq in E. subst k'. rewrite Hk. reflexivity.
    + rewrite IH. reflexivity.
Qed.

Lemma named_update (o : obj) k v :
  arrayIndex k = None -> named (update o k v) = update (named o) k v.
Proof.
  intros Hk. unfold named.
  induction o as [|[k' v'] o IH]; cbn [update filter fst].
  - rewrite Hk. reflexivity.
  - destruct (str_eqb k' k) eqn:E; cbn [filter fst].
    + pose proof E as E'. apply str_eqb_eq in E'. subst k'. rewrite Hk.
      cbn [update]. rewrite E. reflexivity.
    + rewrite IH. destruct (arrayIndex k'); [reflexivity|].
      cbn [update]. rewrite E. reflexivity.
Qed.

Lemma update_keys_added (o : obj) k v :
  exists added, map fst (update o k v) = map fst o ++ added.
Proof.
  destruct (in_dec (list_eq_dec ascii_dec) k (map fst o)) as [Hin|Hn].
  - exists []. rewrite app_nil_r. apply update_keys. exact Hin.
  - exists [k]. apply update_keys_new. exact Hn.
Qed.

Lemma set_keys_added (o : obj) k v :
  arrayIndex k = None ->
  exists added, keys (set o k v) = keys o ++ added.
Proof.
  intros Hk. unfold set. destruct (str_eqb k (chars "__proto__")).
  - exists []. rewrite app_nil_r. reflexivity.
  - unfold keys, entries. rewrite (indexed_update o k v Hk), (named_update o k v Hk).
    destruct (update_keys_added (named o) k v) as [added Ha].
    exists added. rewrite !map_app, Ha, app_assoc. reflexivity.
Qed.

Lemma fold_assign_keys : forall l o,
  (forall a, In a l -> arrayIndex (fst a) = None) ->
  exists added, keys (fold_left assign l o) = keys o ++ added.
Proof.
  induction l as [|a l IH]; intros o H; cbn [fold_left].
  - exists []. rewrite app_nil_r. reflexivity.
  - destruct (IH (assign o a) (fun b Hb => H b (or_intror Hb))) as [added Ha].
    destruct (set_keys_added o (fst a) (snd a) (H a (or_introl eq_refl)))
      as [added' Ha'].
    exists (added' ++ added). rewrite Ha. unfold assign. rewrite Ha'.
    rewrite app_assoc. reflexivity.
Qed.

Lemma fold_assign_other key : forall l o,
  ~ In key (map fst l) ->
  lookup (fold_left assign l o) key = lookup o key.
Proof.
  induction l as [|[k v] l IH]; intros o Hn; cbn [fold_left]; [reflexivity|].
  rewrite IH by (intros Hc; apply Hn; right; exact Hc).
  unfold assign. cbn [fst snd]. apply lookup_set_other.
  intros E. apply Hn. left. exact E.
Qed.

Lemma splitAux_takeWhile (sep : ascii) : forall s cur,
  splitAux sep s cur
  = (rev cur ++ takeWhile (fun c => negb (Ascii.eqb c sep)) s)
    :: match dropWhile (fun c => negb (Ascii.eqb c sep)) s with
       | [] => []
       | _ :: after => splitAux sep after []
       end.
Proof.
  induction s as [|c t IH]; intros cur; cbn [splitAux takeWhile dropWhile].
  - rewrite app_nil_r. reflexivity.
  - destruct (Ascii.eqb c sep); cbn [negb].
    + rewrite app_nil_r. reflexivity.
    + rewrite IH. cbn [rev]. rewrite <- app_assoc. reflexivity.
Qed.

Lemma takeWhile_all (p : ascii -> bool) (s : str) :
  forallb p s = true -> takeWhile p s = s /\ dropWhile p s = [].
Proof.
  induction s as [|c t IH]; cbn [forallb takeWhile dropWhile]; [auto|].
  intros H. apply andb_true_iff in H. destruct H as [Hc Ht].
  rewrite Hc. destruct (IH Ht) as [-> ->]. auto.
Qed.

Lemma takeWhile_stop (p : ascii -> bool) (s : str) c (t : str) :
  forallb p s = true -> p c = false ->
  takeWhile p (s ++ c :: t) = s /\ dropWhile p (s ++ c :: t) = c :: t.
Proof.
  intros Hs Hc. induction s as [|d s IH]; cbn [app takeWhile dropWhile].
  - rewrite Hc. auto.
  - cbn [forallb] in Hs. apply andb_true_iff in Hs. destruct Hs as [Hd Hs].
    rewrite Hd. destruct (IH Hs) as [-> ->]. auto.
Qed.

(** X7.  [collapseRule] only adds to the target.  When no declaration
    of the rule, nested ones included, has a name that is an array index,
    the keys of the target, as [Object.keys] lists them, keep their
    places and the new keys come after them.  In every case a property
    that no declaration of the rule names keeps its value. *)
Theorem collapseRule_keeps_keys (rule : CSSRule) (target : obj) :
  ((forall a, In a (assignments rule) -> arrayIndex (fst a) = None) ->
   exists added, keys (collapseRule rule target) = keys target ++ added)
  /\ (forall key, ~ In key (map fst (assignments rule)) ->
        lookup (collapseRule rule target) key = lookup target key).
Proof.
  rewrite collapseRule_assign. split.
  - apply fold_assign_keys.
  - intros key Hn. apply fold_assign_other. exact Hn.
Qed.

Lemma collapseRule_keeps_keys_witness :
  exists added,
    keys (collapseRule textRed [(chars "10", VString (chars "x"));
                                (chars "margin", VString (chars "1rem"))])
    = keys [(chars "10", VString (chars "x"));
            (chars "margin", VString (chars "1rem"))] ++ added.
Proof.
  apply (proj1 (collapseRule_keeps_keys textRed
                  [(chars "10", VString (chars "x"));
                   (chars "margin", VString (chars "1rem"))])).
  intros a Ha. vm_compute in Ha. destruct Ha as [<-|[]]. reflexivity.
Defined.

(** A declaration named by an array index is listed by [Object.keys]
    before the keys that were there: the hypothesis on the names is
    needed. *)
Example array_index_is_listed_first :
  keys (collapseStyle
          {| cssText := chars "2: b"; getPropertyValue := fun _ => [] |}
          [(chars "10", VString (chars "a")); (chars "color", VString (chars "red"))])
  = [chars "2"; chars "10"; chars "color"].
Proof. vm_compute. reflexivity. Qed.

(** X8.  Of a piece of a declaration text, the name is what stands
    before the first colon and the value what stands between the first
    colon and the second, both trimmed: a piece without colon has no
    value, and what follows a second colon is dropped. *)
Theorem declaration_cut (name text rest : str) :
  forallb (fun c => negb (Ascii.eqb c ":")) name = true ->
  forallb (fun c => negb (Ascii.eqb c ":")) text = true ->
  declaration name = (trim name, VUndefined)
  /\ declaration (name ++ ":" :: text) = (trim name, VString (trim text))
  /\ declaration (name ++ ":" :: text ++ ":" :: rest)
     = (trim name, VString (trim text)).
Proof.
  intros Hn Ht. unfold declaration, JSString.split.
  split; [|split].
  - rewrite splitAux_takeWhile.
    destruct (takeWhile_all _ _ Hn) as [-> ->]. reflexivity.
  - rewrite splitAux_takeWhile.
    destruct (takeWhile_stop _ name ":" text Hn eq_refl) as [-> ->].
    rewrite splitAux_takeWhile.
    destruct (takeWhile_all _ _ Ht) as [-> ->]. reflexivity.
  - rewrite splitAux_takeWhile.
    destruct (takeWhile_stop _ name ":" (text ++ ":" :: rest) Hn eq_refl) as [-> ->].
    rewrite splitAux_takeWhile.
    destruct (takeWhile_stop _ text ":" rest Ht eq_refl) as [-> ->].
    reflexivity.
Qed.

Lemma declaration_cut_witness :
  declaration (chars "background-image" ++ ":" :: chars " url(https" ++
               ":" :: chars "//example.com/a.png)")
  = (trim (chars "background-image"), VString (trim (chars " url(https"))).
Proof.
  apply (proj2 (proj2 (declaration_cut (chars "background-image")
                         (chars " url(https") (chars "//example.com/a.png)")
                         eq_refl eq_refl))).
Defined.

(** ** Facts about the class names *)

(** X9.  A class that [testVariants] accepts for a state, strict or
    not, is accepted without strictness for every state that holds at
    least the same variants: adding variants to the state never turns a
    class off. *)
Theorem testVariants_monotone (className : str) (state state' : list str)
    (strict : bool) :
  testVariants className state strict = true ->
  (forall variant, In variant state -> In variant state') ->
  testVariants className state' false = true.
Proof.
  unfold testVariants. intros H Hsub. cbn [andb].
  assert (Hall : forallb (fun variant => includes state variant)
                   (variantsOf className) = true).
  { destruct (strict && negb _); [discriminate H | exact H]. }
  rewrite forallb_forall in *. intros v Hv.
  apply includes_In. apply Hsub. apply includes_In. exact (Hall v Hv).
Qed.

Lemma testVariants_monotone_witness :
  testVariants (chars "hover:underline") [chars "focus"; chars "hover"] false = true.
Proof.
  apply (testVariants_monotone (chars "hover:underline") [chars "hover"]
           [chars "focus"; chars "hover"] true).
  - vm_compute. reflexivity.
  - intros variant [<-|[]]. right. left. reflexivity.
Defined.

Lemma In_dropWhile (p : ascii -> bool) (s : str) c :
  In c (dropWhile p s) -> In c s.
Proof.
  induction s as [|d s IH]; cbn [dropWhile]; [auto|].
  destruct (p d); [intros H; right; exact (IH H) | auto].
Qed.

Lemma In_trim (s : str) c : In c (trim s) -> In c s.
Proof.
  unfold trim, trimEnd, trimStart. intros H.
  apply In_dropWhile with (p := isWhiteSpace).
  apply in_rev. apply In_dropWhile with (p := isWhiteSpace).
  apply in_rev in H. exact H.
Qed.

Lemma splitAux_no_separator (sep : ascii) : forall s cur piece,
  ~ In sep cur ->
  In piece (splitAux sep s cur) -> ~ In sep piece.
Proof.
  induction s as [|c t IH]; intros cur piece Hc Hin; cbn [splitAux] in Hin.
  - destruct Hin as [<-|[]]. intros H. apply in_rev in H. exact (Hc H).
  - destruct (Ascii.eqb c sep) eqn:E.
    + destruct Hin as [<-|Hin].
      * intros H. apply in_rev in H. exact (Hc H).
      * apply (IH [] piece); [intros [] | exact Hin].
    + apply (IH (c :: cur) piece); [|exact Hin].
      intros [H|H]; [|exact (Hc H)].
      subst c. rewrite Ascii.eqb_refl in E. discriminate E.
Qed.

(** X10.  The class names that [toObject] works with are not empty and
    have no white space at either end; taken from a string, they hold no
    space.  Normalising them again changes nothing. *)
Theorem normalize_names (classNames : classList) :
  (forall name, In name (normalize classNames) ->
     name <> [] /\ trim name = name /\
     (forall s, classNames = OneString s -> ~ In " " name))
  /\ normalize (Many (normalize classNames)) = normalize classNames.
Proof.
  assert (H : forall name, In name (normalize classNames) ->
                name <> [] /\ trim name = name).
  { intros name Hin. unfold normalize in Hin. apply filter_In in Hin.
    destruct Hin as [Hin Hne]. split.
    - intros ->. discriminate Hne.
    - apply in_map_iff in Hin. destruct Hin as [x [<- _]]. apply trim_idem. }
  split.
  - intros name Hin. destruct (H name Hin) as [H1 H2].
    split; [exact H1|]. split; [exact H2|].
    intros s -> Hsp. unfold normalize in Hin. apply filter_In in Hin.
    destruct Hin as [Hin _]. apply in_map_iff in Hin.
    destruct Hin as [piece [<- Hp]]. apply In_trim in Hsp.
    exact (splitAux_no_separator " " s [] piece (fun f => f) Hp Hsp).
  - unfold normalize at 1.
    induction (normalize classNames) as [|name l IH]; [reflexivity|].
    cbn [map filter]. destruct (H name (or_introl eq_refl)) as [H1 H2].
    rewrite H2. destruct name as [|c name]; [congruence|].
    cbn [nonEmpty]. f_equal. apply IH.
    intros n Hn. apply H. right. exact Hn.
Qed.

Lemma normalize_names_witness :
  chars "m-4" <> [] /\ trim (chars "m-4") = chars "m-4" /\
  (forall s, OneString (chars "  m-4   p-2 ") = OneString s -> ~ In " " (chars "m-4")).
Proof.
  apply (proj1 (normalize_names (OneString (chars "  m-4   p-2 ")))).
  vm_compute. left. reflexivity.
Defined.

(** ** Facts about the constructor *)

Lemma findLayerRule_first : forall before name sub after,
  noLayer name before ->
  findLayerRule (before ++ CSSLayerBlockRule name sub :: after) name
  = Some (CSSLayerBlockRule name sub).
Proof.
  induction before as [|r before IH]; intros name sub after Hn; cbn [app findLayerRule].
  - rewrite str_eqb_refl. reflexivity.
  - assert (Hb : noLayer name before)
      by (intros x Hx; apply Hn; right; exact Hx).
    pose proof (Hn r (or_introl eq_refl)) as Hr.
    destruct r; try (apply IH; exact Hb).
    apply str_eqb_neq in Hr. rewrite Hr. apply IH. exact Hb.
Qed.

Lemma findLayerRule_none : forall rules name,
  noLayer name rules -> findLayerRule rules name = None.
Proof.
  induction rules as [|r rules IH]; intros name Hn; cbn [findLayerRule];
    [reflexivity|].
  assert (Hb : noLayer name rules)
    by (intros x Hx; apply Hn; right; exact Hx).
  pose proof (Hn r (or_introl eq_refl)) as Hr.
  destruct r; try (apply IH; exact Hb).
  apply str_eqb_neq in Hr. rewrite Hr. apply IH. exact Hb.
Qed.

(** X11.  The constructor uses the style sheet of the options when
    there is one.  Without one it takes the first style sheet of the
    document that has, at its top level, a layer block named [utilities]
    or [theme], and throws the error "could not be found automatically"
    exactly when the document has no such sheet.  The error "requires a
    tailwind stylesheet" is never thrown. *)
Theorem constructor_finds_stylesheet (tailwind : option CSSStyleSheet)
    (styleSheets : list CSSStyleSheet) :
  (forall sheet, constructor (Some sheet) styleSheets = Normal (construct sheet))
  /\ (constructor None styleSheets = Throw (Error notFoundAutomatically) <->
      forall sheet rule, In sheet styleSheets -> In rule sheet ->
                         isTailwindLayer rule = false)
  /\ (forall before sheet after rule,
        styleSheets = before ++ sheet :: after ->
        (forall s r, In s before -> In r s -> isTailwindLayer r = false) ->
        In rule sheet -> isTailwindLayer rule = true ->
        constructor None styleSheets = Normal (construct sheet))
  /\ constructor tailwind styleSheets <> Throw (Error requiresStylesheet).
Proof.
  split; [reflexivity|]. split; [|split].
  - unfold constructor.
    destruct (find (fun sheet => existsb isTailwindLayer sheet) styleSheets)
      as [sheet|] eqn:E; cbn [bind].
    + split; [discriminate|]. intros H. exfalso.
      apply find_some in E. destruct E as [Hin Hex].
      apply existsb_exists in Hex. destruct Hex as [rule [Hr Ht]].
      rewrite (H sheet rule Hin Hr) in Ht. discriminate Ht.
    + split; [|reflexivity]. intros _ sheet rule Hin Hr.
      pose proof (find_none _ _ E sheet Hin) as Hf. cbv beta in Hf.
      destruct (isTailwindLayer rule) eqn:Et; [|reflexivity].
      assert (Hex : existsb isTailwindLayer sheet = true)
        by (apply existsb_exists; exists rule; auto).
      rewrite Hex in Hf. discriminate Hf.
  - intros before sheet after rule -> Hb Hr Ht. unfold constructor.
    assert (Hf : find (fun sheet => existsb isTailwindLayer sheet)
                   (before ++ sheet :: after) = Some sheet).
    { induction before as [|s before IH]; cbn [app find].
      - assert (Hex : existsb isTailwindLayer sheet = true)
          by (apply existsb_exists; exists rule; auto).
        rewrite Hex. reflexivity.
      - assert (Hex : existsb isTailwindLayer s = false).
        { destruct (existsb isTailwindLayer s) eqn:E; [|reflexivity].
          apply existsb_exists in E. destruct E as [r [Hin Hl]].
          rewrite (Hb s r (or_introl eq_refl) Hin) in Hl. discriminate Hl. }
        rewrite Hex. apply IH. intros s' r Hs'. apply Hb. right. exact Hs'. }
    rewrite Hf. reflexivity.
  - unfold constructor. destruct tailwind as [sheet|]; cbn [bind]; [discriminate|].
    destruct (find (fun sheet => existsb isTailwindLayer sheet) styleSheets);
      cbn [bind]; discriminate.
Qed.

Lemma constructor_finds_stylesheet_witness :
  constructor None [[CSSOtherRule]; sheet; []] = Normal (construct sheet).
Proof.
  apply (proj1 (proj2 (proj2 (constructor_finds_stylesheet None
                                [[CSSOtherRule]; sheet; []])))
           [[CSSOtherRule]] sheet [[]]
           (CSSLayerBlockRule (chars "theme")
              [CSSStyleRule (chars ":root, :host")
                 (block [ ("--spacing", "0.25rem");
                          ("--color-red-500", "#ef4444");
                          ("--unit", "1px");
                          ("--gap", "var(--unit) solid") ]%string) []])).
  - reflexivity.
  - intros s r [<-|[]] [<-|[]]. reflexivity.
  - left. reflexivity.
  - reflexivity.
Defined.

(** X12.  The runtime reads the utilities from the first layer block
    named [utilities] at the top level of the style sheet: the utility
    rules are the style rules that stand directly in that block, whatever
    later blocks hold; without such a block there is no utility rule.
    The theme is the declaration block of the first rule of the first
    layer block named [theme], when that rule is a style rule. *)
Theorem construct_reads_first_layers (sheet : CSSStyleSheet) :
  (forall before rules after,
     sheet = before ++ CSSLayerBlockRule (chars "utilities") rules :: after ->
     noLayer (chars "utilities") before ->
     allUtilityRules (construct sheet) = filter isCSSStyleRule rules)
  /\ (noLayer (chars "utilities") sheet -> allUtilityRules (construct sheet) = [])
  /\ (forall before rules after,
        sheet = before ++ CSSLayerBlockRule (chars "theme") rules :: after ->
        noLayer (chars "theme") before ->
        themeDeclaration (construct sheet)
        = match rules with
          | CSSStyleRule _ style _ :: _ => Some style
          | _ => None
          end)
  /\ (noLayer (chars "theme") sheet -> themeDeclaration (construct sheet) = None).
Proof.
  split; [|split; [|split]].
  - intros before rules after -> Hn. unfold allUtilityRules, construct.
    cbn [utilitiesLayer]. rewrite findLayerRule_first by exact Hn. reflexivity.
  - intros Hn. unfold allUtilityRules, construct. cbn [utilitiesLayer].
    rewrite findLayerRule_none by exact Hn. reflexivity.
  - intros before rules after -> Hn. unfold construct. cbn [themeDeclaration].
    rewrite findLayerRule_first by exact Hn.
    destruct rules as [|[] rules]; reflexivity.
  - intros Hn. unfold construct. cbn [themeDeclaration].
    rewrite findLayerRule_none by exact Hn. reflexivity.
Qed.

Lemma construct_reads_first_layers_witness :
  allUtilityRules
    (construct
       ([CSSOtherRule]
        ++ CSSLayerBlockRule (chars "utilities")
             [textRed; CSSGroupingRule [textBlue]]
        :: [CSSLayerBlockRule (chars "utilities") [textBlue]]))
  = filter isCSSStyleRule [textRed; CSSGroupingRule [textBlue]].
Proof.
  apply (proj1 (construct_reads_first_layers _) [CSSOtherRule]
           [textRed; CSSGroupingRule [textBlue]]
           [CSSLayerBlockRule (chars "utilities") [textBlue]] eq_refl).
  intros rule [<-|[]]. exact I.
Defined.

(** ** Facts about the theme namespaces *)

Lemma startsWith_skipn : forall p s,
  startsWith p s = true -> s = p ++ skipn (length p) s.
Proof.
  induction p as [|a p IH]; intros s H; [reflexivity|].
  destruct s as [|b s]; [discriminate H|].
  cbn [startsWith] in H. apply andb_true_iff in H. destruct H as [E H].
  apply Ascii.eqb_eq in E. subst b. cbn [length skipn app]. f_equal.
  apply IH. exact H.
Qed.

Lemma skipn_prefix (p s : str) : skipn (length p) (p ++ s) = s.
Proof. induction p as [|a p IH]; [reflexivity | exact IH]. Qed.

Lemma In_stripped (prefix : str) (l : list str) (key : str) :
  In key (map (skipn (length prefix)) (filter (startsWith prefix) l))
  <-> In (prefix ++ key) l.
Proof.
  rewrite in_map_iff. split.
  - intros [x [<- Hx]]. apply filter_In in Hx. destruct Hx as [Hx Hs].
    rewrite <- (startsWith_skipn _ _ Hs). exact Hx.
  - intros H. exists (prefix ++ key). split; [apply skipn_prefix|].
    apply filter_In. split; [exact H | apply startsWith_app].
Qed.

Lemma NoDup_stripped (prefix : str) (l : list str) :
  NoDup l -> NoDup (map (skipn (length prefix)) (filter (startsWith prefix) l)).
Proof.
  induction l as [|x l IH]; intros H; cbn [filter map]; [constructor|].
  inversion H as [|? ? Hx Hl]; subst.
  destruct (startsWith prefix x) eqn:E; [|exact (IH Hl)].
  cbn [map]. constructor; [|exact (IH Hl)].
  intros Hin. apply In_stripped in Hin.
  rewrite <- (startsWith_skipn _ _ E) in Hin. exact (Hx Hin).
Qed.

Lemma hasDuplicate_NoDup (l : list str) :
  NoDup l -> JSProxy.hasDuplicate l = false.
Proof.
  induction l as [|x l IH]; intros H; cbn [JSProxy.hasDuplicate]; [reflexivity|].
  inversion H as [|? ? Hx Hl]; subst. rewrite (IH Hl), orb_false_r.
  destruct (includes l x) eqn:E; [|reflexivity].
  apply includes_In in E. destruct (Hx E).
Qed.

Lemma namespace_keys (this : TailwindRuntime)
    (items : CSSStyleDeclaration -> list str) (name : str)
    (declaration : CSSStyleDeclaration) (prefix : str) :
  themeDeclaration this = Some declaration ->
  NoDup (items declaration) ->
  prefix = chars "--" ++ name ++ chars "-" ->
  JSProxy.keys (themeNamespace this items name)
  = Normal
      (filter (fun key => nonEmpty (getPropertyValue declaration (prefix ++ key)))
              (map (skipn (length prefix))
                   (filter (startsWith prefix) (items declaration)))).
Proof.
  intros Ht Hn ->.
  unfold JSProxy.keys, JSProxy.ownPropertyKeys, themeNamespace.
  cbn [JSProxy.trapOwnKeys JSProxy.trapGet JSProxy.trapGetOwnPropertyDescriptor].
  rewrite Ht.
  rewrite (hasDuplicate_NoDup _ (NoDup_stripped (chars "--" ++ name ++ chars "-") _ Hn)).
  reflexivity.
Qed.

(** The entries of a namespace: the properties of the theme whose names
    start with the prefix and whose values are not empty, in the order of
    the theme. *)
Lemma namespace_entries (this : TailwindRuntime)
    (items : CSSStyleDeclaration -> list str) (name : str)
    (declaration : CSSStyleDeclaration) (prefix : str) :
  themeDeclaration this = Some declaration ->
  NoDup (items declaration) ->
  prefix = chars "--" ++ name ++ chars "-" ->
  JSProxy.entries (themeNamespace this items name)
  = Normal
      (map (fun key => (key, Some (getPropertyValue declaration (prefix ++ key))))
           (filter (fun key => nonEmpty (getPropertyValue declaration (prefix ++ key)))
                   (map (skipn (length prefix))
                        (filter (startsWith prefix) (items declaration))))).
Proof.
  intros Ht Hn ->.
  unfold JSProxy.entries, JSProxy.keys, JSProxy.ownPropertyKeys, themeNamespace.
  cbn [JSProxy.trapOwnKeys JSProxy.trapGet JSProxy.trapGetOwnPropertyDescriptor].
  rewrite Ht.
  rewrite (hasDuplicate_NoDup _ (NoDup_stripped (chars "--" ++ name ++ chars "-") _ Hn)).
  reflexivity.
Qed.

(** X13.  The namespace [name] of the theme, read through [Object.keys]
    or [Object.entries], holds a key for each property [--name-key] of the
    theme declaration whose value is not empty, with that value, and
    nothing else; for such a key [getValue] of [--name-key] gives the same
    value.  Read directly, the namespace reports every key as present and
    gives the empty string for the properties that the theme does not
    hold. *)
Theorem themeNamespace_entries (this : TailwindRuntime)
    (items : CSSStyleDeclaration -> list str) (name : str)
    (declaration : CSSStyleDeclaration) :
  themeDeclaration this = Some declaration ->
  NoDup (items declaration) ->
  exists es,
    JSProxy.entries (themeNamespace this items name) = Normal es
    /\ JSProxy.keys (themeNamespace this items name) = Normal (map fst es)
    /\ (forall key v,
          In (key, v) es <->
          In (chars "--" ++ name ++ chars "-" ++ key) (items declaration) /\
          getPropertyValue declaration (chars "--" ++ name ++ chars "-" ++ key) <> [] /\
          v = Some (getPropertyValue declaration
                      (chars "--" ++ name ++ chars "-" ++ key)))
    /\ (forall key v,
          In (key, Some v) es ->
          fst (getValue this (chars "--" ++ name ++ chars "-" ++ key))
          = Normal (Found v))
    /\ (forall key,
          JSProxy.trapHas (themeNamespace this items name) key = true /\
          JSProxy.trapGet (themeNamespace this items name) key
          = Some (getPropertyValue declaration
                    (chars "--" ++ name ++ chars "-" ++ key))).
Proof.
  intros Ht Hn.
  pose proof (namespace_entries this items name declaration _ Ht Hn eq_refl) as He.
  assert (Hassoc : forall key,
            (chars "--" ++ name ++ chars "-") ++ key
            = chars "--" ++ name ++ chars "-" ++ key).
  { intros key. rewrite <- !app_assoc. reflexivity. }
  set (prefix := chars "--" ++ name ++ chars "-") in *.
  eexists. split; [exact He|].
  assert (Hin : forall key v,
            In (key, v)
               (map (fun key => (key, Some (getPropertyValue declaration (prefix ++ key))))
                    (filter (fun key =>
                               nonEmpty (getPropertyValue declaration (prefix ++ key)))
                            (map (skipn (length prefix))
                                 (filter (startsWith prefix) (items declaration)))))
            <-> In (prefix ++ key) (items declaration) /\
                getPropertyValue declaration (prefix ++ key) <> [] /\
                v = Some (getPropertyValue declaration (prefix ++ key))).
  { intros key v. rewrite in_map_iff. split.
    - intros [k [E Hk]]. injection E as -> <-.
      apply filter_In in Hk. destruct Hk as [Hk Hv].
      apply In_stripped in Hk. split; [exact Hk|]. split; [|reflexivity].
      intros E. rewrite E in Hv. discriminate Hv.
    - intros [Hk [Hv ->]]. exists key. split; [reflexivity|].
      apply filter_In. split; [apply In_stripped; exact Hk|].
      destruct (getPropertyValue declaration (prefix ++ key)); [congruence | reflexivity]. }
  split; [|split; [|split]].
  - rewrite (namespace_keys this items name declaration prefix Ht Hn eq_refl).
    rewrite map_map. cbn [fst]. rewrite map_id. reflexivity.
  - intros key v. rewrite <- Hassoc. apply Hin.
  - intros key v Hk. apply Hin in Hk. destruct Hk as [_ [Hv E]].
    assert (E' : v = getPropertyValue declaration (prefix ++ key))
      by (injection E; auto).
    clear E. rename E' into E. rewrite <- Hassoc. unfold getValue.
    assert (Hd : startsWith (chars "--") (prefix ++ key) = true).
    { subst prefix. rewrite <- !app_assoc. apply startsWith_app. }
    rewrite Hd, Ht. cbn [negb]. rewrite <- E in Hv |- *.
    destruct v; [congruence | reflexivity].
  - intros key. unfold themeNamespace. cbn [JSProxy.trapHas JSProxy.trapGet].
    rewrite Ht, <- Hassoc. split; reflexivity.
Qed.

(** X14.  [activeBreakpoints] lists the breakpoints of the theme (the
    properties [--breakpoint-name] with a value that is not empty) whose
    query [(min-width: value)] matches, in the order of the theme; without
    a theme it is empty. *)
Theorem activeBreakpoints_match (this : TailwindRuntime)
    (items : CSSStyleDeclaration -> list str) (matchMedia : str -> bool) :
  (themeDeclaration this = None ->
     activeBreakpoints this items matchMedia = Normal [])
  /\ (forall declaration,
        themeDeclaration this = Some declaration ->
        NoDup (items declaration) ->
        exists active,
          activeBreakpoints this items matchMedia = Normal active /\
          forall name,
            In name active <->
            In (chars "--breakpoint-" ++ name) (items declaration) /\
            getPropertyValue declaration (chars "--breakpoint-" ++ name) <> [] /\
            matchMedia (chars "(min-width: "
                        ++ getPropertyValue declaration (chars "--breakpoint-" ++ name)
                        ++ chars ")") = true).
Proof.
  split.
  - intros Ht. unfold activeBreakpoints, breakpointEntries. rewrite Ht. reflexivity.
  - intros declaration Ht Hn.
    unfold activeBreakpoints, breakpointEntries. rewrite Ht.
    rewrite (namespace_entries this items (chars "breakpoint") declaration
               (chars "--breakpoint-") Ht Hn eq_refl).
    cbn [bind].
    set (prefix := chars "--breakpoint-").
    set (es := map _ _).
    assert (Hfold : forall (l : list (str * option str)) acc,
              fold_left (fun active e =>
                           if matchMedia (minWidth (snd e)) then active ++ [fst e]
                           else active) l acc
              = acc ++ map fst (filter (fun e => matchMedia (minWidth (snd e))) l)).
    { induction l as [|e l IH]; intros acc; cbn [fold_left filter map].
      - rewrite app_nil_r. reflexivity.
      - rewrite IH. destruct (matchMedia (minWidth (snd e))); [|reflexivity].
        cbn [map]. rewrite <- app_assoc. reflexivity. }
    eexists. split; [reflexivity|].
    intros name. rewrite Hfold. cbn [app]. rewrite in_map_iff. split.
    + intros [[k v] [E Hk]]. cbn [fst] in E. subst k.
      apply filter_In in Hk. destruct Hk as [Hk Hm]. cbn [snd] in Hm.
      subst es. apply in_map_iff in Hk. destruct Hk as [k [E Hk]].
      injection E as -> <-. apply filter_In in Hk. destruct Hk as [Hk Hv].
      apply In_stripped in Hk. split; [exact Hk|]. split.
      * intros E. rewrite E in Hv. discriminate Hv.
      * exact Hm.
    + intros [Hk [Hv Hm]].
      exists (name, Some (getPropertyValue declaration (prefix ++ name))).
      split; [reflexivity|]. apply filter_In. split; [|exact Hm].
      subst es. apply in_map_iff. exists name. split; [reflexivity|].
      apply filter_In. split; [apply In_stripped; exact Hk|].
      destruct (getPropertyValue declaration (prefix ++ name)); [congruence | reflexivity].
Qed.

Lemma themeItems_NoDup : NoDup (ThemeExamples.themeItems ThemeExamples.themeBlock).
Proof.
  unfold ThemeExamples.themeItems.
  repeat (constructor; [intros H; apply includes_In in H; vm_compute in H;
                        discriminate H|]).
  constructor.
Qed.

Lemma themeNamespace_entries_witness :
  exists es,
    JSProxy.entries
      (themeNamespace ThemeExamples.responsive ThemeExamples.themeItems (chars "color"))
    = Normal es /\
    JSProxy.keys
      (themeNamespace ThemeExamples.responsive ThemeExamples.themeItems (chars "color"))
    = Normal (map fst es).
Proof.
  destruct (themeNamespace_entries ThemeExamples.responsive ThemeExamples.themeItems
              (chars "color") ThemeExamples.themeBlock eq_refl themeItems_NoDup)
    as [es [He [Hk _]]].
  exists es. split; [exact He | exact Hk].
Defined.

Example themeNamespace_example :
  JSProxy.entries
    (themeNamespace ThemeExamples.responsive ThemeExamples.themeItems (chars "color"))
  = Normal [(chars "red-500", Some (chars "#ef4444"))]
  /\ JSProxy.trapGet
       (themeNamespace ThemeExamples.responsive ThemeExamples.themeItems (chars "color"))
       (chars "missing") = Some []
  /\ JSProxy.trapHas
       (themeNamespace ThemeExamples.responsive ThemeExamples.themeItems (chars "color"))
       (chars "missing") = true.
Proof. vm_compute. auto. Qed.

Lemma activeBreakpoints_match_witness :
  exists active,
    activeBreakpoints ThemeExamples.responsive ThemeExamples.themeItems
      ThemeExamples.fiftyRem = Normal active /\
    forall name,
      In name active <->
      In (chars "--breakpoint-" ++ name)
         (ThemeExamples.themeItems ThemeExamples.themeBlock) /\
      getPropertyValue ThemeExamples.themeBlock (chars "--breakpoint-" ++ name) <> [] /\
      ThemeExamples.fiftyRem
        (chars "(min-width: "
         ++ getPropertyValue ThemeExamples.themeBlock (chars "--breakpoint-" ++ name)
         ++ chars ")") = true.
Proof.
  exact (proj2 (activeBreakpoints_match ThemeExamples.responsive
                  ThemeExamples.themeItems ThemeExamples.fiftyRem)
           ThemeExamples.themeBlock eq_refl themeItems_NoDup).
Defined.

Example activeBreakpoints_example :
  activeBreakpoints ThemeExamples.responsive ThemeExamples.themeItems
    ThemeExamples.fiftyRem
  = Normal [chars "sm"; chars "md"].
Proof. vm_compute. reflexivity. Qed.

Import TestApp.

(** ** Facts about the code blocks of the README *)

Lemma nth_error_shift {A} (pre : list A) (x : A) (rest : list A) n :
  nth_error ((pre ++ [x]) ++ rest) n = nth_error (pre ++ x :: rest) n.
Proof. rewrite <- app_assoc. reflexivity. Qed.

Lemma inPlace_longer (lines more : list str) (b : block) :
  inPlace lines b -> inPlace (lines ++ more) b.
Proof.
  intros [[opening [Ho Hs]] Hb]. split.
  - exists opening. split; [|exact Hs].
    rewrite nth_error_app1; [exact Ho|]. apply nth_error_Some. congruence.
  - intros j line Hj. destruct (Hb j line Hj) as [Hl Hf]. split; [|exact Hf].
    rewrite nth_error_app1; [exact Hl|]. apply nth_error_Some. congruence.
Qed.

Lemma closed_longer (lines more : list str) (b : block) :
  closed lines b -> closed (lines ++ more) b.
Proof.
  intros [closing [Hc Hs]]. exists closing. split; [|exact Hs].
  rewrite nth_error_app1; [exact Hc|]. apply nth_error_Some. congruence.
Qed.

Lemma collect_collected (seen : list str) (st : collector) (line : str) :
  collected seen st ->
  collected (seen ++ [line]) (collect st (length seen) line).
Proof.
  intros [Hb Hc]. unfold collect.
  destruct (currentBlock st) as [[start body]|] eqn:Ec.
  - destruct Hc as [Hp Hl]. cbn [fst snd] in Hl.
    destruct (startsWith fence line) eqn:Ef.
    + split; cbn [blocks currentBlock]; [|exact I].
      intros b Hin. apply in_app_iff in Hin. destruct Hin as [Hin|[<-|[]]].
      * destruct (Hb b Hin) as [H1 H2].
        split; [apply inPlace_longer | apply closed_longer]; assumption.
      * split; [apply inPlace_longer; exact Hp|].
        exists line. cbn [fst snd]. split; [|exact Ef].
        rewrite Hl, nth_error_app2, Nat.sub_diag by lia. reflexivity.
    + split; cbn [blocks currentBlock].
      * intros b Hin. destruct (Hb b Hin) as [H1 H2].
        split; [apply inPlace_longer | apply closed_longer]; assumption.
      * cbn [fst snd]. split.
        -- destruct (inPlace_longer seen [line] _ Hp) as [Ho Hbody].
           split; [exact Ho|]. cbn [fst snd] in *.
           intros j l Hj.
           destruct (Nat.lt_ge_cases j (length body)) as [Hlt|Hge].
           ++ rewrite nth_error_app1 in Hj by exact Hlt. exact (Hbody j l Hj).
           ++ rewrite nth_error_app2 in Hj by exact Hge.
              destruct (j - length body) as [|k] eqn:Ek.
              ** cbn [nth_error] in Hj. injection Hj as <-.
                 replace j with (length body) by lia.
                 split; [|exact Ef].
                 rewrite Hl, nth_error_app2, Nat.sub_diag by lia. reflexivity.
              ** destruct k; discriminate Hj.
        -- rewrite !length_app. cbn [length]. lia.
  - destruct (startsWith tsFence line) eqn:Et.
    + split; cbn [blocks currentBlock].
      * intros b Hin. destruct (Hb b Hin) as [H1 H2].
        split; [apply inPlace_longer | apply closed_longer]; assumption.
      * cbn [fst snd length]. split; [|rewrite length_app; cbn [length]; lia].
        split.
        -- exists line. cbn [fst]. split; [|exact Et].
           rewrite nth_error_app2, Nat.sub_diag by lia. reflexivity.
        -- cbn [snd]. intros j l Hj. destruct j; discriminate Hj.
    + split.
      * intros b Hin. destruct (Hb b Hin) as [H1 H2].
        split; [apply inPlace_longer | apply closed_longer]; assumption.
      * rewrite Ec. exact I.
Qed.

Lemma collectFrom_collected : forall rest seen st,
  collected seen st ->
  collected (seen ++ rest) (collectFrom (length seen) rest st).
Proof.
  induction rest as [|line rest IH]; intros seen st H; cbn [collectFrom].
  - rewrite app_nil_r. exact H.
  - replace (seen ++ line :: rest) with ((seen ++ [line]) ++ rest)
      by (rewrite <- app_assoc; reflexivity).
    replace (S (length seen)) with (length (seen ++ [line]))
      by (rewrite length_app; cbn [length]; lia).
    apply IH. apply collect_collected. exact H.
Qed.

(** X15.  Each block that the test application takes from the README
    stands in place: the line with the number of the block starts with
    the fence of a TypeScript block, the line [j] of the block, counted
    from zero, is the line [start + j + 1] of the README and starts with no
    fence, and the line after the last one starts with a fence; the block
    holds a result comment.  So [start + j + 1], the index at which
    [log(value, j + 1)] writes, is the index of the comment at [j] in the
    README.  A block that no fence closes is not taken. *)
Theorem codeBlocks_in_place (readme : str) (start : nat) (body : list str) :
  In (start, body) (codeBlocks readme) ->
  inPlace (linesOf readme) (start, body)
  /\ closed (linesOf readme) (start, body)
  /\ exists j comment,
       nth_error body j = Some comment /\
       startsWith resultMark comment = true /\
       nth_error (linesOf readme) (start + (j + 1)) = Some comment.
Proof.
  intros Hin. unfold codeBlocks in Hin. apply filter_In in Hin.
  destruct Hin as [Hin Hmark]. cbn [snd] in Hmark.
  pose proof (collectFrom_collected (linesOf readme) []
                {| blocks := []; currentBlock := None |}) as H.
  cbn [length app] in H.
  destruct H as [Hb _]; [split; [intros b [] | exact I]|].
  destruct (Hb _ Hin) as [Hp Hc].
  split; [exact Hp|]. split; [exact Hc|].
  apply existsb_exists in Hmark. destruct Hmark as [comment [Hcin Hm]].
  apply In_nth_error in Hcin. destruct Hcin as [j Hj].
  exists j, comment. split; [exact Hj|]. split; [exact Hm|].
  exact (proj1 (proj2 Hp j comment Hj)).
Qed.

Lemma codeBlocks_in_place_witness :
  inPlace (linesOf readmeText) (1, [chars "tw.toCSS('m-4');"; chars "// ->"])
  /\ closed (linesOf readmeText) (1, [chars "tw.toCSS('m-4');"; chars "// ->"])
  /\ exists j comment,
       nth_error [chars "tw.toCSS('m-4');"; chars "// ->"] j = Some comment /\
       startsWith resultMark comment = true /\
       nth_error (linesOf readmeText) (1 + (j + 1)) = Some comment.
Proof.
  apply (codeBlocks_in_place readmeText 1 [chars "tw.toCSS('m-4');"; chars "// ->"]).
  vm_compute. left. reflexivity.
Defined.

Example codeBlocks_example :
  codeBlocks readmeText = [(1, [chars "tw.toCSS('m-4');"; chars "// ->"])].
Proof. vm_compute. reflexivity. Qed.

Lemma assignAt_middle (pre : list str) (old new : str) (rest : list str) :
  assignAt (length pre) new (pre ++ old :: rest) = pre ++ new :: rest.
Proof.
  induction pre as [|a pre IH]; cbn [length app assignAt]; [reflexivity|].
  rewrite IH. reflexivity.
Qed.

Lemma nth_error_middle {A} (pre : list A) (x : A) (rest : list A) :
  nth_error (pre ++ x :: rest) (length pre) = Some x.
Proof. rewrite nth_error_app2, Nat.sub_diag by lia. reflexivity. Qed.

Lemma wrapFrom_wrapped : forall rest pre statement,
  wrapFrom (length rest) (S (length pre)) (pre ++ statement :: rest)
  = Normal (pre ++ wrapped (length pre) (statement :: rest)).
Proof.
  induction rest as [|next rest IH]; intros pre statement.
  - reflexivity.
  - cbn [length wrapFrom].
    assert (Hn : nth_error (pre ++ statement :: next :: rest) (S (length pre))
                 = Some next).
    { rewrite <- (nth_error_shift pre statement (next :: rest)).
      replace (S (length pre)) with (length (pre ++ [statement]))
        by (rewrite length_app; cbn [length]; lia).
      apply nth_error_middle. }
    rewrite Hn.
    assert (Hstep : forall x,
              wrapFrom (length rest) (S (S (length pre))) (pre ++ x :: next :: rest)
              = Normal (pre ++ x :: wrapped (S (length pre)) (next :: rest))).
    { intros x.
      replace (pre ++ x :: next :: rest) with ((pre ++ [x]) ++ next :: rest)
        by (rewrite <- app_assoc; reflexivity).
      replace (S (length pre)) with (length (pre ++ [x]))
        by (rewrite length_app; cbn [length]; lia).
      rewrite IH. rewrite <- app_assoc. reflexivity. }
    change (wrapped (length pre) (statement :: next :: rest))
      with ((if startsWith resultMark next
             then logCall statement (length pre + 2) else statement)
            :: wrapped (S (length pre)) (next :: rest)).
    destruct (startsWith resultMark next).
    + rewrite nth_error_middle, assignAt_middle.
      replace (S (length pre) + 1) with (length pre + 2) by lia.
      apply Hstep.
    + apply Hstep.
Qed.

(** X16.  The wrapping of a block ends with a [TypeError] exactly when
    the first line of the block is a result comment.  Otherwise every line
    that a result comment follows becomes a call of [log] on that line
    without its first semicolon, with the number of the comment in the
    block counted from one; the other lines stay, and so does the number
    of lines. *)
Theorem wrap_outcome (block : list str) :
  wrap block
  = match block with
    | first :: _ =>
        if startsWith resultMark first then Throw TypeError
        else Normal (wrapped 0 block)
    | [] => Normal []
    end
  /\ length (wrapped 0 block) = length block
  /\ (forall j statement comment,
        nth_error block j = Some statement ->
        nth_error block (S j) = Some comment ->
        startsWith resultMark comment = true ->
        nth_error (wrapped 0 block) j = Some (logCall statement (S j + 1))).
Proof.
  split; [|split].
  - unfold wrap. destruct block as [|first rest]; [reflexivity|].
    cbn [length wrapFrom nth_error].
    destruct (startsWith resultMark first); [reflexivity|].
    exact (wrapFrom_wrapped rest [] first).
  - generalize 0. induction block as [|line rest IH]; intros n; [reflexivity|].
    cbn [wrapped length]. rewrite IH. reflexivity.
  - assert (H : forall l n j statement comment,
              nth_error l j = Some statement ->
              nth_error l (S j) = Some comment ->
              startsWith resultMark comment = true ->
              nth_error (wrapped n l) j = Some (logCall statement (n + j + 2))).
    { induction l as [|line rest IH]; intros n j statement comment Hs Hc Hm.
      - destruct j; discriminate Hs.
      - destruct j as [|j].
        + cbn [nth_error] in Hs, Hc. injection Hs as ->.
          destruct rest as [|next rest]; [discriminate Hc|].
          cbn [nth_error] in Hc. injection Hc as ->.
          cbn [wrapped nth_error]. rewrite Hm. rewrite Nat.add_0_r. reflexivity.
        + cbn [nth_error] in Hs, Hc. cbn [wrapped nth_error].
          rewrite (IH (S n) j statement comment Hs Hc Hm).
          do 2 f_equal. lia. }
    intros j statement comment Hs Hc Hm.
    rewrite (H block 0 j statement comment Hs Hc Hm). do 2 f_equal. lia.
Qed.

Lemma wrap_outcome_witness :
  nth_error (wrapped 0 [chars "tw.toCSS('m-4');"; chars "// ->"]) 0
  = Some (logCall (chars "tw.toCSS('m-4');") (1 + 1)).
Proof.
  apply (proj2 (proj2 (wrap_outcome [chars "tw.toCSS('m-4');"; chars "// ->"]))
           0 (chars "tw.toCSS('m-4');") (chars "// ->")); reflexivity.
Defined.

Example wrap_example :
  wrap [chars "tw.toCSS('m-4');"; chars "// ->"]
  = Normal [chars "log(tw.toCSS('m-4'), 2);"; chars "// ->"]
  /\ wrap [chars "// -> first"; chars "x"] = Throw TypeError.
Proof. vm_compute. auto. Qed.

(** ** The values written into the README *)

Lemma jsvalue_induction (P : jsvalue -> Prop) :
  P JUndefined -> P JNull ->
  (forall b, P (JBoolean b)) -> (forall x, P (JNumber x)) ->
  (forall s, P (JString s)) ->
  (forall elements, Forall P elements -> P (JArray elements)) ->
  (forall properties, Forall (fun p => P (snd p)) properties ->
                      P (JObject properties)) ->
  forall value, P value.
Proof.
  intros Hu Hn Hb Hx Hs Ha Ho.
  fix IH 1. intros [| | b | x | s | elements | properties].
  - exact Hu.
  - exact Hn.
  - apply Hb.
  - apply Hx.
  - apply Hs.
  - apply Ha. induction elements as [|e l IHl]; constructor; [apply IH | exact IHl].
  - apply Ho. induction properties as [|[k v] l IHl]; constructor;
      [apply IH | exact IHl].
Qed.

Lemma serialize_cases : forall value,
  if hasNull value then serialize value = Throw TypeError
  else exists p, serialize value = Normal p.
Proof.
  intros value. pattern value. apply jsvalue_induction; clear value;
    [| | intros b | intros x | intros s | intros elements H | intros properties H];
    cbn [hasNull serialize];
    try (eexists; reflexivity); try reflexivity.
  - set (each := fix each (l : list jsvalue) : completion (list primitive) :=
                   match l with
                   | [] => Normal []
                   | element :: rest =>
                       p <- serialize element ;;
                       ps <- each rest ;;
                       Normal (p :: ps)
                   end).
    assert (Hall : if existsb hasNull elements then each elements = Throw TypeError
                   else exists ps, each elements = Normal ps).
    { induction H as [|e l He Hl IHl]; cbn [existsb each].
      - eexists. reflexivity.
      - destruct (hasNull e); cbn [orb].
        + rewrite He. reflexivity.
        + destruct He as [p ->]. cbn [bind].
          destruct (existsb hasNull l).
          * rewrite IHl. reflexivity.
          * destruct IHl as [ps ->]. eexists. reflexivity. }
    destruct (existsb hasNull elements).
    + rewrite Hall. reflexivity.
    + destruct Hall as [ps ->]. eexists. reflexivity.
  - set (each := fix each (l : list (str * jsvalue)) : completion (list str) :=
                   match l with
                   | [] => Normal []
                   | (key, v) :: rest =>
                       p <- serialize v ;;
                       pairs <- each rest ;;
                       Normal ((key ++ chars ": " ++ toStr p) :: pairs)
                   end).
    assert (Hall : if existsb (fun p => hasNull (snd p)) properties
                   then each properties = Throw TypeError
                   else exists ps, each properties = Normal ps).
    { induction H as [|[k v] l He Hl IHl]; cbn [existsb each snd] in *.
      - eexists. reflexivity.
      - destruct (hasNull v); cbn [orb].
        + rewrite He. reflexivity.
        + destruct He as [p ->]. cbn [bind].
          destruct (existsb (fun p => hasNull (snd p)) l).
          * rewrite IHl. reflexivity.
          * destruct IHl as [ps ->]. eexists. reflexivity. }
    destruct (existsb (fun p => hasNull (snd p)) properties).
    + rewrite Hall. reflexivity.
    + destruct Hall as [ps ->]. eexists. reflexivity.
Qed.

(** X17.  [serialize] throws exactly when [null] occurs in the value,
    at the top or inside an array or an object, and what it throws is a
    [TypeError]; every other value gives a line for [log].  So the [null]
    that [getValue] returns for a registered property without initial
    value cannot be written into the README. *)
Theorem serialize_throws_on_null (value : jsvalue) :
  (raises (serialize value) = true <-> hasNull value = true)
  /\ (hasNull value = true ->
        serialize value = Throw TypeError /\ logText value = Throw TypeError)
  /\ (hasNull value = false ->
        exists p, serialize value = Normal p /\
                  logText value = Normal (chars "// -> " ++ toStr p)).
Proof.
  pose proof (serialize_cases value) as H. unfold logText.
  destruct (hasNull value).
  - rewrite H. cbn [raises bind]. repeat split; auto; discriminate.
  - destruct H as [p ->]. cbn [raises bind]. repeat split; try discriminate.
    intros _. exists p. split; reflexivity.
Qed.

Lemma serialize_throws_on_null_witness :
  serialize (JArray [JString (chars "a"); JObject [(chars "k", JNull)]])
  = Throw TypeError /\
  logText (JArray [JString (chars "a"); JObject [(chars "k", JNull)]])
  = Throw TypeError.
Proof.
  apply (proj1 (proj2 (serialize_throws_on_null
                         (JArray [JString (chars "a"); JObject [(chars "k", JNull)]])))).
  reflexivity.
Defined.

Example serialize_examples :
  logText (JObject [(chars "margin", JString (chars "1rem"))])
  = Normal (chars "// -> {margin: '1rem'}")
  /\ logText (JArray [JString (chars "sm"); JUndefined; JNumber (Number.parseFloat (chars "1.5"))])
     = Normal (chars "// -> ['sm', , 1.5]")
  /\ logText JUndefined = Normal (chars "// -> undefined").
Proof. vm_compute. auto. Qed.

(** ** Class names without brackets *)

Lemma cutAtColons_plain : forall s cur,
  forallb (fun c => negb (Ascii.eqb "[" c || Ascii.eqb "]" c)) s = true ->
  cutAtColons s cur = splitAux ":" s cur.
Proof.
  induction s as [|c t IH]; intros cur H; [reflexivity|].
  cbn [forallb] in H. apply andb_true_iff in H. destruct H as [_ Ht].
  cbn [cutAtColons splitAux]. rewrite (closesFirst_plain t Ht). cbn [negb].
  rewrite andb_true_r, Ascii.eqb_sym.
  destruct (Ascii.eqb c ":"); [f_equal|]; apply IH; exact Ht.
Qed.

(** X18.  On a class name without square bracket the variants are cut
    at every colon: the pieces are those of a plain split at the colons,
    all but the last are the variants, and joined by colons they give the
    class name back. *)
Theorem variants_of_plain_name (className : str) :
  forallb (fun c => negb (Ascii.eqb "[" c || Ascii.eqb "]" c)) className = true ->
  RegExp.split variantColon className = JSString.split ":" className
  /\ variantsOf className = removelast (JSString.split ":" className)
  /\ join [":"] (JSString.split ":" className) = className.
Proof.
  intros H.
  assert (E : RegExp.split variantColon className = JSString.split ":" className).
  { rewrite split_variantColon. apply cutAtColons_plain. exact H. }
  split; [exact E|]. split.
  - unfold variantsOf. rewrite E. reflexivity.
  - rewrite <- E, split_variantColon. exact (join_cutAtColons className []).
Qed.

Lemma variants_of_plain_name_witness :
  variantsOf (chars "md:hover:underline")
  = removelast (JSString.split ":" (chars "md:hover:underline")).
Proof.
  exact (proj1 (proj2 (variants_of_plain_name (chars "md:hover:underline")
                         eq_refl))).
Defined.

(** ** Declarations without reference *)

Lemma insertByIndex_keys e l :
  NoDup (map (fun x => fst (snd x)) l) ->
  ~ In (fst (snd e)) (map (fun x => fst (snd x)) l) ->
  NoDup (map (fun x : N * (str * value) => fst (snd x)) (insertByIndex e l)).
Proof.
  induction l as [|h t IH]; intros Hn Hi; cbn [insertByIndex map].
  - constructor; [intros [] | constructor].
  - destruct (fst e <? fst h)%N; cbn [map].
    + constructor; [exact Hi | exact Hn].
    + inversion Hn as [|? ? Hh Ht]; subst. constructor.
      * intros Hc. apply in_map_iff in Hc. destruct Hc as [x [Ex Hx]].
        apply In_insertByIndex in Hx. destruct Hx as [->|Hx].
        -- apply Hi. left. symmetry. exact Ex.
        -- apply Hh. apply in_map_iff. exists x. auto.
      * apply IH; [exact Ht|]. intros Hc. apply Hi. right. exact Hc.
Qed.

Lemma indexed_keys (o : obj) :
  NoDup (map fst o) ->
  NoDup (map (fun x : N * (str * value) => fst (snd x)) (indexed o)).
Proof.
  induction o as [|[k v] o IH]; intros Hn; cbn [indexed]; [constructor|].
  cbn [map fst] in Hn. inversion Hn as [|? ? Hk Ho]; subst.
  destruct (arrayIndex k) as [n|]; [|exact (IH Ho)].
  apply insertByIndex_keys; [exact (IH Ho)|].
  cbn [fst snd]. intros Hc. apply in_map_iff in Hc.
  destruct Hc as [[m [k' v']] [E Hx]]. cbn [fst snd] in E. subst k'.
  apply In_indexed in Hx. destruct Hx as [Hx _].
  apply Hk. apply in_map_iff. exists (k, v'). auto.
Qed.

Lemma NoDup_map_filter {A} (f : A -> bool) (g : A -> str) (l : list A) :
  NoDup (map g l) -> NoDup (map g (filter f l)).
Proof.
  induction l as [|a l IH]; intros Hn; cbn [filter map]; [constructor|].
  cbn [map] in Hn. inversion Hn as [|? ? Ha Hl]; subst.
  destruct (f a); [|exact (IH Hl)].
  cbn [map]. constructor; [|exact (IH Hl)].
  intros Hc. apply Ha. apply in_map_iff in Hc. destruct Hc as [x [E Hx]].
  apply filter_In in Hx. apply in_map_iff. exists x. tauto.
Qed.

Lemma NoDup_app_disjoint {A} (l1 l2 : list A) :
  NoDup l1 -> NoDup l2 -> (forall x, In x l1 -> ~ In x l2) -> NoDup (l1 ++ l2).
Proof.
  induction l1 as [|a l1 IH]; intros H1 H2 Hd; [exact H2|].
  inversion H1 as [|? ? Ha Hl]; subst. cbn [app]. constructor.
  - intros Hc. apply in_app_iff in Hc. destruct Hc as [Hc|Hc]; [exact (Ha Hc)|].
    exact (Hd a (or_introl eq_refl) Hc).
  - apply IH; [exact Hl | exact H2|]. intros x Hx. apply Hd. right. exact Hx.
Qed.

(** [Object.entries] names every key once. *)
Lemma entries_keys_NoDup (o : obj) :
  NoDup (map fst o) -> NoDup (map fst (entries o)).
Proof.
  intros Hn. unfold entries. rewrite map_app, map_map.
  apply NoDup_app_disjoint.
  - exact (indexed_keys o Hn).
  - unfold named. apply NoDup_map_filter. exact Hn.
  - intros k Hi Hm. apply in_map_iff in Hi. destruct Hi as [[n [k' v]] [E Hi]].
    cbn [fst snd] in E. subst k'. apply In_indexed in Hi. destruct Hi as [_ Hi].
    cbn [fst] in Hi. apply in_map_iff in Hm. destruct Hm as [[k' w] [E Hm]].
    cbn [fst] in E. subst k'. unfold named in Hm. apply filter_In in Hm.
    destruct Hm as [_ Hm]. cbn [fst] in Hm. rewrite Hi in Hm. discriminate Hm.
Qed.

Lemma substituteEntries_other (this : TailwindRuntime) key : forall es style style',
  ~ In key (map fst es) ->
  substituteEntries this es style = Normal style' ->
  lookup style' key = lookup style key.
Proof.
  induction es as [|[k v] es IH]; intros style style' Hn H;
    cbn [substituteEntries] in H.
  - injection H as <-. reflexivity.
  - destruct v as [|text]; [discriminate H|].
    apply bind_Normal in H. destruct H as [value' [_ H]].
    rewrite (IH _ _ (fun Hc => Hn (or_intror Hc)) H).
    apply lookup_set_other. intros E. apply Hn. left. exact E.
Qed.

Lemma substituteEntries_plain (this : TailwindRuntime) key text :
  forall es style style',
    NoDup (map fst es) ->
    In (key, VString text) es ->
    references text = [] ->
    key <> chars "__proto__" ->
    substituteEntries this es style = Normal style' ->
    lookup style' key = Some (VString (trim text)).
Proof.
  induction es as [|[k v] es IH]; intros style style' Hn Hin Hr Hp H; [destruct Hin|].
  cbn [map fst] in Hn. inversion Hn as [|? ? Hk Hes]; subst.
  destruct Hin as [E|Hin].
  - injection E as -> ->. cbn [substituteEntries] in H.
    assert (Hm : RegExp.matchAll varReference text = []).
    { pose proof (matchAll_references text) as Hm. rewrite Hr in Hm.
      destruct (RegExp.matchAll varReference text); [reflexivity | discriminate Hm]. }
    rewrite Hm in H. cbn [substituteReferences bind] in H.
    rewrite (substituteEntries_other this key _ _ _ Hk H).
    rewrite lookup_set by exact Hp. rewrite str_eqb_refl. reflexivity.
  - cbn [substituteEntries] in H. destruct v as [|w]; [discriminate H|].
    apply bind_Normal in H. destruct H as [value' [_ H]].
    exact (IH _ _ Hes Hin Hr Hp H).
Qed.

Lemma simplifyEntries_other key : forall es style result,
  ~ In key (map fst es) ->
  simplifyEntries es style = Normal result ->
  lookup result key = lookup style key.
Proof.
  induction es as [|[k v] es IH]; intros style result Hn H;
    cbn [simplifyEntries] in H.
  - injection H as <-. reflexivity.
  - apply bind_Normal in H. destruct H as [s1 [H1 H]].
    unfold simplifyEntry in H1. cbn [fst snd] in H1.
    destruct v as [|w]; [discriminate H1|]. injection H1 as <-.
    rewrite (IH _ _ (fun Hc => Hn (or_intror Hc)) H).
    apply lookup_set_other. intros E. apply Hn. left. exact E.
Qed.

Lemma simplifyEntries_value key text : forall es style result,
  NoDup (map fst es) ->
  In (key, VString text) es ->
  key <> chars "__proto__" ->
  simplifyEntries es style = Normal result ->
  lookup result key = Some (VString (simplify text)).
Proof.
  induction es as [|[k v] es IH]; intros style result Hn Hin Hp H; [destruct Hin|].
  cbn [map fst] in Hn. inversion Hn as [|? ? Hk Hes]; subst.
  cbn [simplifyEntries] in H. apply bind_Normal in H. destruct H as [s1 [H1 H]].
  unfold simplifyEntry in H1. cbn [fst snd] in H1.
  destruct Hin as [E|Hin].
  - injection E as -> ->. injection H1 as <-.
    rewrite (simplifyEntries_other key _ _ _ Hk H).
    rewrite lookup_set by exact Hp. rewrite str_eqb_refl. reflexivity.
  - destruct v as [|w]; [discriminate H1|]. injection H1 as <-.
    exact (IH _ _ Hes Hin Hp H).
Qed.

(** X19.  A declaration without reference passes through [toObject]:
    when the collapsed style holds a string without [var(--name)]
    reference under a key that belongs to no registered property that does
    not inherit, the result holds under that key the string trimmed and
    simplified, which is the trimmed string itself when it has no product
    to simplify; the other properties have no influence on it. *)
Theorem toObject_plain_declaration (this : TailwindRuntime)
    (classNames : classList) (state : list str) (strict : bool)
    (result : obj) (key text : str) :
  toObject this classNames state strict = Normal result ->
  lookup (collapseActive this
            (filter (fun c => testVariants c state strict) (normalize classNames))
            empty) key = Some (VString text) ->
  references text = [] ->
  internalProperty this key = false ->
  lookup result key = Some (VString (simplify (trim text)))
  /\ (noProduct (trim text) = true ->
      lookup result key = Some (VString (trim text))).
Proof.
  intros H Hl Hr Hi.
  set (style := collapseActive this _ empty) in *.
  assert (Hwf : wellFormed style) by apply collapseActive_wellFormed.
  assert (Hp : key <> chars "__proto__").
  { intros ->. apply (proj2 Hwf). apply lookup_In_keys. rewrite Hl. discriminate. }
  unfold toObject in H. fold style in H. unfold substitute in H.
  apply bind_Normal in H. destruct H as [s2 [H2 H]].
  apply bind_Normal in H2. destruct H2 as [s1 [H1 H2]]. injection H2 as <-.
  assert (Hk1 : map fst s1 = map fst style)
    by exact (substituteEntries_keys this _ _ _ H1 (entries_keys_In style)).
  assert (L1 : lookup s1 key = Some (VString (trim text))).
  { apply (substituteEntries_plain this key text (entries style) style s1);
      [apply entries_keys_NoDup; exact (proj1 Hwf) | | exact Hr | exact Hp | exact H1].
    apply (proj2 (In_entries _ _)). apply lookup_In. exact Hl. }
  assert (L2 : lookup (prune this s1) key = Some (VString (trim text)))
    by (rewrite lookup_prune, Hi; exact L1).
  assert (Hn2 : NoDup (map fst (prune this s1))).
  { rewrite prune_filter. apply NoDup_map_filter. rewrite Hk1. exact (proj1 Hwf). }
  assert (L3 : lookup result key = Some (VString (simplify (trim text)))).
  { apply (simplifyEntries_value key (trim text) (entries (prune this s1))
             (prune this s1) result);
      [apply entries_keys_NoDup; exact Hn2 | | exact Hp | exact H].
    apply (proj2 (In_entries _ _)). apply lookup_In. exact L2. }
  split; [exact L3|].
  intros Hnp. rewrite L3, simplify_simplifyFrom, (noProduct_simplifyFrom _ Hnp).
  reflexivity.
Qed.

Lemma toObject_plain_declaration_witness :
  lookup [(chars "color", VString (chars "red"));
          (chars "--color-red-500", VString (chars "#f00"));
          (chars "scale", VString (chars "50% 1"))] (chars "color")
  = Some (VString (trim (chars "red"))).
Proof.
  apply (proj2 (toObject_plain_declaration tw
                  (OneString (chars "scale-x-50 text-red")) [] false
                  [(chars "color", VString (chars "red"));
                   (chars "--color-red-500", VString (chars "#f00"));
                   (chars "scale", VString (chars "50% 1"))]
                  (chars "color") (chars "red")
                  ltac:(vm_compute; reflexivity) ltac:(vm_compute; reflexivity)
                  eq_refl eq_refl)).
  reflexivity.
Defined.
